(** * Multi-armed bandits: the notebook's environment, agent loop and policies

    A shallow embedding of [Multi-armed-Bandits.ipynb]: the Bernoulli bandit
    [FruitSlotMachine], the loop of [AbstractMABAlgorithm.run], and the five
    policies [UniformExploration], [EpsilonGreedy], [UCB], [BayesianUCB] and
    [ThompsonSamping].

    Conventions of the model.
    - Python [int] and [np.int64] values are [Z]; Python [float] and
      [np.float64] values are rationals [Q] (rounding, infinities and NaN are
      left out: every property below is about the exact arithmetic the code
      writes down).  Where a conclusion depends on the exact value of a sum,
      the statement carries the hypothesis that the numbers are whole and
      within [float_exact_bound], where the floats of the code add exactly.
    - [np.sqrt] and [np.log] are not rational functions; they are fields of
      the record [numpy], together with the outcomes of the global random
      generator.  The generator state [RandomState] is the number of scalar
      draws made so far, and the record says what the k-th draw returns.
    - Exceptions are values of [exception]; a computation that may raise
      returns a [result].  NumPy reports a division by zero through a
      [RuntimeWarning]; the model makes it the exception [ZeroDivisionError]
      so that "no division by zero happens" can be stated. *)

From Stdlib Require Import ZArith QArith Qminmax Lia Lqa String.
From stdpp Require Import base option list.

Local Open Scope Z_scope.

(** ** Exceptions *)

Inductive exception : Set :=
| IndexError
| ValueError
| TypeError
| AttributeError
| AssertionError
| ZeroDivisionError
| NotImplementedError.

Inductive result (A : Type) : Type :=
| Ok (a : A)
| Raise (e : exception).

Arguments Ok {A} a.
Arguments Raise {A} e.

#[global] Instance result_ret : MRet result := fun A a => Ok a.

#[global] Instance result_bind : MBind result := fun A B f m =>
  match m with
  | Ok a => f a
  | Raise e => Raise e
  end.

(** [assert cond] *)
Definition assert (cond : bool) : result unit :=
  if cond then Ok tt else Raise AssertionError.

(** ** The part of NumPy the notebook calls *)

Record numpy : Type := {
  np_sqrt : Q -> Q;
  np_log : Q -> Q;
  (** the k-th scalar draw, read as [np.random.random()] *)
  random_sample : nat -> Q;
  (** the k-th scalar draw, read as an unbounded integer *)
  random_bits : nat -> Z;
  (** the k-th scalar draw, read as a draw from [Beta(a, b)] *)
  beta_sample : nat -> Q -> Q -> Q
}.

Definition RandomState : Set := nat.

(** [np.random.random()] *)
Definition random (np : numpy) (g : RandomState) : Q * RandomState :=
  (random_sample np g, S g).

(** [np.random.randint(low, high)]: uniform on [low, high) *)
Definition randint (np : numpy) (low high : Z) (g : RandomState)
  : result (Z * RandomState) :=
  if low <? high
  then Ok (low + random_bits np g mod (high - low), S g)
  else Raise ValueError.

(** ** Sequences: indexing as Python lists and ndarrays do it *)

(** An index [i] of a sequence of length [len]: negative indices count from
    the end, anything else outside the sequence raises. *)
Definition normalize_index (len : nat) (i : Z) : result nat :=
  if (0 <=? i) && (i <? Z.of_nat len) then Ok (Z.to_nat i)
  else if (- Z.of_nat len <=? i) && (i <? 0) then Ok (Z.to_nat (Z.of_nat len + i))
  else Raise IndexError.

(** [l[i]] *)
Definition getitem {A} (l : list A) (i : Z) : result A :=
  k ← normalize_index (length l) i;
  match l !! k with
  | Some x => Ok x
  | None => Raise IndexError
  end.

(** [l[i] = x] *)
Definition setitem {A} (l : list A) (i : Z) (x : A) : result (list A) :=
  k ← normalize_index (length l) i;
  Ok (<[k := x]> l).

(** [range(n)] *)
Definition range (n : Z) : list Z :=
  map Z.of_nat (seq 0 (Z.to_nat n)).

(** Scan for the first best element: [best] at index [besti] is the best
    seen so far, [i] is the index of the head of [l]. *)
Fixpoint arg_first {A} (better : A -> A -> bool)
    (best : A) (besti i : nat) (l : list A) : nat :=
  match l with
  | [] => besti
  | x :: l' =>
      if better x best
      then arg_first better x i (S i) l'
      else arg_first better best besti (S i) l'
  end.

Definition Qlt_bool (x y : Q) : bool := negb (Qle_bool y x).

(** [np.argmax] on floats: the first index of a maximal element *)
Definition argmax (l : list Q) : result Z :=
  match l with
  | [] => Raise ValueError
  | x :: l' => Ok (Z.of_nat (arg_first (fun a b => Qlt_bool b a) x 0 1 l'))
  end.

(** [np.argmin] on integers: the first index of a minimal element *)
Definition argmin (l : list Z) : result Z :=
  match l with
  | [] => Raise ValueError
  | x :: l' => Ok (Z.of_nat (arg_first Z.ltb x 0 1 l'))
  end.

(** [max] of a Python list: the first maximal element *)
Definition py_max (l : list Q) : result Q :=
  match l with
  | [] => Raise ValueError
  | x :: l' => Ok (fold_left (fun m y => if Qlt_bool m y then y else m) l' x)
  end.

(** [x / y] on NumPy scalars *)
Definition np_divide (x y : Q) : result Q :=
  if Qeq_bool y 0 then Raise ZeroDivisionError else Ok (x / y)%Q.

(** [for x in l: ...] collecting the results, stopping at the first raise *)
Fixpoint mapM {A B} (f : A -> result B) (l : list A) : result (list B) :=
  match l with
  | [] => Ok []
  | x :: l' => y ← f x; ys ← mapM f l'; Ok (y :: ys)
  end.

(** Elementwise operation on two arrays of the same shape *)
Fixpoint zipM {A B C} (f : A -> B -> result C) (l : list A) (k : list B)
  : result (list C) :=
  match l, k with
  | [], [] => Ok []
  | x :: l', y :: k' => z ← f x y; zs ← zipM f l' k'; Ok (z :: zs)
  | _, _ => Raise ValueError
  end.

(** ** The environment: [AbstractMAPProblem] and [FruitSlotMachine] *)

Module FruitSlotMachine.

Record t : Type := {
  bandit_name : string;
  num_arms : Z;
  distribution : list Q;
  best_cumulative_reward : Q
}.

(** [FruitSlotMachine.__init__(distribution=None)] *)
Definition init (np : numpy) (dist : option (list Q)) (g : RandomState)
  : result (t * RandomState) :=
  let name := "Fruit Machine"%string in
  let arms := 3 in
  '(d, g) ← match dist with
            | Some d =>
                _ ← assert (Z.of_nat (length d) =? arms);
                Ok (d, g)
            | None =>
                Ok (map (fun k => random_sample np (g + Z.to_nat k)%nat) (range arms),
                    (g + Z.to_nat arms)%nat)
            end;
  best ← py_max d;
  Ok ({| bandit_name := name; num_arms := arms; distribution := d;
         best_cumulative_reward := best |}, g).

(** [FruitSlotMachine.get_reward(arm_choice)]: the draw is made before the
    list is indexed. *)
Definition get_reward (np : numpy) (self : t) (arm_choice : Z)
    (g : RandomState) : result (Z * RandomState) :=
  let '(u, g) := random np g in
  p ← getitem (distribution self) arm_choice;
  if Qlt_bool u p then Ok (1, g) else Ok (0, g).

End FruitSlotMachine.

(** ** The agent loop: [AbstractMABAlgorithm] *)

Module AbstractMABAlgorithm.

(** The attributes the base class owns.  [iteration] is the loop variable
    of [run], an attribute that does not exist before the first round. *)
Record t : Type := {
  MABproblem : FruitSlotMachine.t;
  N_a : list Z;
  regret : Q;
  regret_history : list Q;
  iteration : option Z
}.

(** [AbstractMABAlgorithm.__init__(MABproblem)] *)
Definition init (problem : FruitSlotMachine.t) : t :=
  {| MABproblem := problem;
     N_a := replicate (Z.to_nat (FruitSlotMachine.num_arms problem)) 0;
     regret := 0;
     regret_history := [0%Q];
     iteration := None |}.

Definition set_iteration (it : Z) (self : t) : t :=
  {| MABproblem := MABproblem self; N_a := N_a self; regret := regret self;
     regret_history := regret_history self; iteration := Some it |}.

Definition set_N_a (counts : list Z) (self : t) : t :=
  {| MABproblem := MABproblem self; N_a := counts; regret := regret self;
     regret_history := regret_history self; iteration := iteration self |}.

(** [update_regret(arm_choice)] *)
Definition update_regret (self : t) (arm_choice : Z) : result t :=
  p ← getitem (FruitSlotMachine.distribution (MABproblem self)) arm_choice;
  let r := (regret self
            + (FruitSlotMachine.best_cumulative_reward (MABproblem self) - p))%Q in
  Ok {| MABproblem := MABproblem self; N_a := N_a self; regret := r;
        regret_history := regret_history self ++ [r];
        iteration := iteration self |}.

End AbstractMABAlgorithm.

(** What a subclass adds: its own attributes [B] and the two methods the
    base class leaves abstract.  Both read the base attributes; the belief
    update writes the subclass attributes only. *)
Class MABAlgorithm (B : Type) : Type := {
  choose_arm :
    numpy -> AbstractMABAlgorithm.t -> B -> RandomState -> result (Z * RandomState);
  update_belief :
    AbstractMABAlgorithm.t -> B -> Z -> Z -> result B
}.

(** An object of a subclass: the inherited attributes and its own. *)
Record agent (B : Type) : Type := {
  base : AbstractMABAlgorithm.t;
  belief : B
}.

Arguments base {B} a.
Arguments belief {B} a.

Section Run.

Context {B : Type} `{MABAlgorithm B} (np : numpy).

(** The body of the loop in [run], for the value [it] of [self.iteration].
    Besides the new object and generator state it returns the local
    [arm_choice], so that the arms of a run can be talked about. *)
Definition run_iteration (it : Z) (self : agent B) (g : RandomState)
  : result (agent B * RandomState * Z) :=
  let b := AbstractMABAlgorithm.set_iteration it (base self) in
  '(arm_choice, g) ← choose_arm np b (belief self) g;
  '(reward, g) ←
    FruitSlotMachine.get_reward np (AbstractMABAlgorithm.MABproblem b) arm_choice g;
  n ← getitem (AbstractMABAlgorithm.N_a b) arm_choice;
  counts ← setitem (AbstractMABAlgorithm.N_a b) arm_choice (n + 1);
  let b := AbstractMABAlgorithm.set_N_a counts b in
  bel ← update_belief b (belief self) arm_choice reward;
  b ← AbstractMABAlgorithm.update_regret b arm_choice;
  Ok ({| base := b; belief := bel |}, g, arm_choice).

(** The loop over the values [its] of [self.iteration], with the arms
    chosen, in order. *)
Fixpoint run_over (its : list Z) (self : agent B) (g : RandomState)
  : result (agent B * RandomState * list Z) :=
  match its with
  | [] => Ok (self, g, [])
  | it :: its' =>
      '(self, g, arm) ← run_iteration it self g;
      '(self, g, arms) ← run_over its' self g;
      Ok (self, g, arm :: arms)
  end.

(** [run(num_iterations)] together with the arms it chose *)
Definition run_trace (num_iterations : Z) (self : agent B) (g : RandomState)
  : result (agent B * RandomState * list Z) :=
  run_over (range num_iterations) self g.

(** [run(num_iterations)] *)
Definition run (num_iterations : Z) (self : agent B) (g : RandomState)
  : result (agent B * RandomState) :=
  '(self, g, _) ← run_trace num_iterations self g;
  Ok (self, g).

End Run.

(** The base class itself: both methods raise. *)
#[global] Instance AbstractMABAlgorithm_methods : MABAlgorithm unit := {
  choose_arm := fun _ _ _ _ => Raise NotImplementedError;
  update_belief := fun _ _ _ _ => Raise NotImplementedError
}.

(** ** The running mean shared by three policies

    [UniformExploration], [EpsilonGreedy] and [UCB] each define the same
    [update_belief]:
    [probabilities[arm] += (reward - probabilities[arm]) / N_a[arm]]. *)
Definition running_mean_update (counts : list Z) (probabilities : list Q)
    (arm_choice reward : Z) : result (list Q) :=
  p ← getitem probabilities arm_choice;
  n ← getitem counts arm_choice;
  d ← np_divide (inject_Z reward - p)%Q (inject_Z n);
  setitem probabilities arm_choice (p + d)%Q.

(** [np.array([x] * n)] *)
Definition full {A} (n : Z) (x : A) : list A := replicate (Z.to_nat n) x.

(** ** Uniform exploration *)

Module UniformExploration.

Record t : Type := { probabilities : list Q }.

(** [UniformExploration.__init__(MABproblem, initial_probability=1.0)] *)
Definition init (problem : FruitSlotMachine.t) (initial_probability : Q)
  : agent t :=
  {| base := AbstractMABAlgorithm.init problem;
     belief := {| probabilities :=
                    full (FruitSlotMachine.num_arms problem) initial_probability |} |}.

Definition choose_arm (np : numpy) (b : AbstractMABAlgorithm.t) (self : t)
    (g : RandomState) : result (Z * RandomState) :=
  arm ← argmin (AbstractMABAlgorithm.N_a b);
  Ok (arm, g).

Definition update_belief (b : AbstractMABAlgorithm.t) (self : t)
    (arm_choice reward : Z) : result t :=
  ps ← running_mean_update (AbstractMABAlgorithm.N_a b) (probabilities self)
         arm_choice reward;
  Ok {| probabilities := ps |}.

#[global] Instance methods : MABAlgorithm t := {
  choose_arm := choose_arm;
  update_belief := update_belief
}.

End UniformExploration.

(** ** Epsilon-greedy *)

Module EpsilonGreedy.

(** [epsilon] is whatever the caller passed: a number or [None]. *)
Record t : Type := { epsilon : option Q; probabilities : list Q }.

(** [EpsilonGreedy.__init__(MABproblem, epsilon, initial_probability=1.0)] *)
Definition init (problem : FruitSlotMachine.t) (eps : option Q)
    (initial_probability : Q) : result (agent t) :=
  let b := AbstractMABAlgorithm.init problem in
  _ ← assert (match eps with
              | None => true
              | Some e => Qle_bool 0 e && Qle_bool e 1
              end);
  Ok {| base := b;
        belief := {| epsilon := eps;
                     probabilities :=
                       full (FruitSlotMachine.num_arms problem) initial_probability |} |}.

(** The comparison [np.random.random() < self.epsilon] raises [TypeError]
    when [epsilon] is [None]. *)
Definition choose_arm (np : numpy) (b : AbstractMABAlgorithm.t) (self : t)
    (g : RandomState) : result (Z * RandomState) :=
  let '(u, g) := random np g in
  match epsilon self with
  | None => Raise TypeError
  | Some e =>
      if Qlt_bool u e
      then randint np 0 (FruitSlotMachine.num_arms (AbstractMABAlgorithm.MABproblem b)) g
      else arm ← argmax (probabilities self); Ok (arm, g)
  end.

Definition update_belief (b : AbstractMABAlgorithm.t) (self : t)
    (arm_choice reward : Z) : result t :=
  ps ← running_mean_update (AbstractMABAlgorithm.N_a b) (probabilities self)
         arm_choice reward;
  Ok {| epsilon := epsilon self; probabilities := ps |}.

#[global] Instance methods : MABAlgorithm t := {
  choose_arm := choose_arm;
  update_belief := update_belief
}.

End EpsilonGreedy.

(** ** UCB1 *)

Module UCB.

Record t : Type := { probabilities : list Q }.

(** [UCB.__init__(MABproblem, initial_probability=1.0)] *)
Definition init (problem : FruitSlotMachine.t) (initial_probability : Q)
  : agent t :=
  {| base := AbstractMABAlgorithm.init problem;
     belief := {| probabilities :=
                    full (FruitSlotMachine.num_arms problem) initial_probability |} |}.

(** [np.sqrt(2 * np.log(t) / (self.N_a + 1))], elementwise over [N_a] *)
Definition bonus (np : numpy) (t : Z) (n : Z) : result Q :=
  d ← np_divide (2 * np_log np (inject_Z t))%Q (inject_Z (n + 1));
  Ok (np_sqrt np d).

(** [self.iteration] is read first: outside [run] the attribute is
    missing. *)
Definition choose_arm (np : numpy) (b : AbstractMABAlgorithm.t) (self : t)
    (g : RandomState) : result (Z * RandomState) :=
  match AbstractMABAlgorithm.iteration b with
  | None => Raise AttributeError
  | Some it =>
      let t := it + 1 in
      bs ← mapM (bonus np t) (AbstractMABAlgorithm.N_a b);
      ucb ← zipM (fun p x => Ok (p + x)%Q) (probabilities self) bs;
      arm ← argmax ucb;
      Ok (arm, g)
  end.

Definition update_belief (b : AbstractMABAlgorithm.t) (self : t)
    (arm_choice reward : Z) : result t :=
  ps ← running_mean_update (AbstractMABAlgorithm.N_a b) (probabilities self)
         arm_choice reward;
  Ok {| probabilities := ps |}.

#[global] Instance methods : MABAlgorithm t := {
  choose_arm := choose_arm;
  update_belief := update_belief
}.

End UCB.

(** ** The Beta-Bernoulli update shared by the two Bayesian policies

    [BayesianUCB] and [ThompsonSamping] each define the same
    [update_belief]: [a[arm] += reward; b[arm] += 1 - reward]. *)
Definition beta_update (a b : list Q) (arm_choice reward : Z)
  : result (list Q * list Q) :=
  x ← getitem a arm_choice;
  a' ← setitem a arm_choice (x + inject_Z reward)%Q;
  y ← getitem b arm_choice;
  b' ← setitem b arm_choice (y + inject_Z (1 - reward))%Q;
  Ok (a', b').

(** ** Bayesian UCB *)

Module BayesianUCB.

Record t : Type := { sigma : Q; a : list Q; b : list Q }.

(** [BayesianUCB.__init__(MABproblem, sigma=3, initial_a=1., initial_b=1.)] *)
Definition init (problem : FruitSlotMachine.t) (sigma initial_a initial_b : Q)
  : agent t :=
  {| base := AbstractMABAlgorithm.init problem;
     belief := {| sigma := sigma;
                  a := full (FruitSlotMachine.num_arms problem) initial_a;
                  b := full (FruitSlotMachine.num_arms problem) initial_b |} |}.

Definition getBetaStdDev (np : numpy) (self : t) : result (list Q) :=
  zipM (fun x y =>
          variance ← np_divide (x * y)%Q (((x + y) * (x + y)) * (x + y + 1))%Q;
          Ok (np_sqrt np variance))
       (a self) (b self).

Definition choose_arm (np : numpy) (base : AbstractMABAlgorithm.t) (self : t)
    (g : RandomState) : result (Z * RandomState) :=
  mean ← zipM (fun x y => np_divide x (x + y)%Q) (a self) (b self);
  dev ← getBetaStdDev np self;
  ucb ← zipM (fun m s => Ok (m + s * sigma self)%Q) mean dev;
  arm ← argmax ucb;
  Ok (arm, g).

Definition update_belief (base : AbstractMABAlgorithm.t) (self : t)
    (arm_choice reward : Z) : result t :=
  '(a', b') ← beta_update (a self) (b self) arm_choice reward;
  Ok {| sigma := sigma self; a := a'; b := b' |}.

#[global] Instance methods : MABAlgorithm t := {
  choose_arm := choose_arm;
  update_belief := update_belief
}.

End BayesianUCB.

(** ** Thompson sampling *)

(** [np.random.beta(a, b)] on two arrays: one draw per position, in order;
    a parameter that is not positive, or two shapes that differ, raise. *)
Fixpoint random_beta (np : numpy) (a b : list Q) (g : RandomState)
  : result (list Q * RandomState) :=
  match a, b with
  | [], [] => Ok ([], g)
  | x :: a', y :: b' =>
      if Qlt_bool 0 x && Qlt_bool 0 y
      then '(xs, g') ← random_beta np a' b' (S g);
           Ok (beta_sample np g x y :: xs, g')
      else Raise ValueError
  | _, _ => Raise ValueError
  end.

(** [ndarray.sum()] *)
Definition np_sum (l : list Q) : Q := fold_left Qplus l 0%Q.

Module ThompsonSamping.

Record t : Type := { a : list Q; b : list Q }.

(** [ThompsonSamping.__init__(MABproblem, initial_a=1, initial_b=1)] *)
Definition init (problem : FruitSlotMachine.t) (initial_a initial_b : Q)
  : agent t :=
  {| base := AbstractMABAlgorithm.init problem;
     belief := {| a := full (FruitSlotMachine.num_arms problem) initial_a;
                  b := full (FruitSlotMachine.num_arms problem) initial_b |} |}.

(** The loop [for i in range(num_arms): samples[i] = np.random.beta(self.a,
    self.b).sum()]: each turn draws a whole array, one sample per arm, and
    stores its sum. *)
Fixpoint fill_samples (np : numpy) (self : t) (indices : list Z)
    (samples : list Q) (g : RandomState) : result (list Q * RandomState) :=
  match indices with
  | [] => Ok (samples, g)
  | i :: indices' =>
      '(xs, g) ← random_beta np (a self) (b self) g;
      samples ← setitem samples i (np_sum xs);
      fill_samples np self indices' samples g
  end.

Definition choose_arm (np : numpy) (base : AbstractMABAlgorithm.t) (self : t)
    (g : RandomState) : result (Z * RandomState) :=
  let n := FruitSlotMachine.num_arms (AbstractMABAlgorithm.MABproblem base) in
  let samples := full n 0%Q in
  '(samples, g) ← fill_samples np self (range n) samples g;
  arm ← argmax samples;
  Ok (arm, g).

Definition update_belief (base : AbstractMABAlgorithm.t) (self : t)
    (arm_choice reward : Z) : result t :=
  '(a', b') ← beta_update (a self) (b self) arm_choice reward;
  Ok {| a := a'; b := b' |}.

#[global] Instance methods : MABAlgorithm t := {
  choose_arm := choose_arm;
  update_belief := update_belief
}.

End ThompsonSamping.

(** ** Vocabulary of the statements *)

(** [k] is the first position of [l] holding a best element: nothing in [l]
    is better than [l[k]], and [l[k]] is better than everything before it. *)
Definition first_best {A} (better : A -> A -> bool) (l : list A) (k : nat) : Prop :=
  exists v, l !! k = Some v
    /\ (forall j x, l !! j = Some x -> better x v = false)
    /\ (forall j x, (j < k)%nat -> l !! j = Some x -> better v x = true).

(** The lowest index attaining the maximum of [l] *)
Definition first_argmax (l : list Q) (k : nat) : Prop :=
  exists v, l !! k = Some v
    /\ (forall j x, l !! j = Some x -> (x <= v)%Q)
    /\ (forall j x, (j < k)%nat -> l !! j = Some x -> (x < v)%Q).

(** The lowest index attaining the minimum of [l] *)
Definition first_argmin (l : list Z) (k : nat) : Prop :=
  exists v, l !! k = Some v
    /\ (forall j x, l !! j = Some x -> v <= x)
    /\ (forall j x, (j < k)%nat -> l !! j = Some x -> v < x).

(** [sum(pullCount)] *)
Definition sum_counts (l : list Z) : Z := fold_right Z.add 0 l.

(** The cumulative regret after each of the rounds whose chosen arms have
    the success probabilities [ps], starting from the regret [r]. *)
Fixpoint regret_after (best : Q) (r : Q) (ps : list Q) : list Q :=
  match ps with
  | [] => []
  | p :: ps' => let r' := (r + (best - p))%Q in r' :: regret_after best r' ps'
  end.

(** The sum, over rounds, of [best - p] for the arm's probability [p] *)
Definition total_regret (best : Q) (ps : list Q) : Q :=
  fold_left (fun r p => (r + (best - p))%Q) ps 0%Q.

(** The UCB1 score as the specification writes it, for one arm *)
Definition ucb1_score (np : numpy) (t : Z) (estimate : Q) (pulls : Z) : Q :=
  (estimate + np_sqrt np (2 * np_log np (inject_Z t) / inject_Z (pulls + 1)))%Q.

(** Thompson sampling as the specification writes it: one draw per arm, from
    that arm's own pair, and the arm with the largest draw. *)
Fixpoint draw_each_arm (np : numpy) (a b : list Q) (g : RandomState)
  : list Q * RandomState :=
  match a, b with
  | x :: a', y :: b' =>
      let '(xs, g') := draw_each_arm np a' b' (S g) in
      (beta_sample np g x y :: xs, g')
  | _, _ => ([], g)
  end.

Definition thompson_single_draw (np : numpy) (self : ThompsonSamping.t)
    (g : RandomState) : result (Z * RandomState) :=
  let '(samples, g) :=
    draw_each_arm np (ThompsonSamping.a self) (ThompsonSamping.b self) g in
  arm ← argmax samples;
  Ok (arm, g).

(** The base attributes are consistent: one count per arm, at least one
    arm, and no negative count. *)
Definition wf_base (b : AbstractMABAlgorithm.t) : Prop :=
  FruitSlotMachine.num_arms (AbstractMABAlgorithm.MABproblem b)
  = Z.of_nat (length (AbstractMABAlgorithm.N_a b))
  /\ length (FruitSlotMachine.distribution (AbstractMABAlgorithm.MABproblem b))
     = length (AbstractMABAlgorithm.N_a b)
  /\ (0 < length (AbstractMABAlgorithm.N_a b))%nat
  /\ Forall (fun n => 0 <= n) (AbstractMABAlgorithm.N_a b).

(** No two pull counts differ by more than one. *)
Definition balanced (counts : list Z) : Prop :=
  forall i j x y, counts !! i = Some x -> counts !! j = Some y -> x <= y + 1.

(** [max(pullCount)] and [min(pullCount)] *)
Definition max_count (l : list Z) : Z :=
  match l with
  | [] => 0
  | x :: l' => fold_left Z.max l' x
  end.

Definition min_count (l : list Z) : Z :=
  match l with
  | [] => 0
  | x :: l' => fold_left Z.min l' x
  end.

(** An arm that was never pulled still has the initial estimate. *)
Definition unpulled_keep (initial : Q) (counts : list Z) (estimates : list Q) : Prop :=
  forall i, counts !! i = Some 0 -> estimates !! i = Some initial.

(** The two Beta parameters of every arm add up to its pull count plus the
    two initial parameters. *)
Definition conjugate (initial_a initial_b : Q) (counts : list Z) (a b : list Q) : Prop :=
  forall i n x y,
    counts !! i = Some n -> a !! i = Some x -> b !! i = Some y ->
    (x + y == inject_Z n + initial_a + initial_b)%Q.

(** What each round of a run keeps true of an object, per policy. *)
Definition UniformExploration_inv (s : agent UniformExploration.t) : Prop :=
  wf_base (base s)
  /\ length (UniformExploration.probabilities (belief s))
     = length (AbstractMABAlgorithm.N_a (base s))
  /\ balanced (AbstractMABAlgorithm.N_a (base s)).

Definition EpsilonGreedy_inv (s : agent EpsilonGreedy.t) : Prop :=
  wf_base (base s)
  /\ length (EpsilonGreedy.probabilities (belief s))
     = length (AbstractMABAlgorithm.N_a (base s))
  /\ is_Some (EpsilonGreedy.epsilon (belief s)).

Definition UCB_inv (initial : Q) (s : agent UCB.t) : Prop :=
  wf_base (base s)
  /\ length (UCB.probabilities (belief s))
     = length (AbstractMABAlgorithm.N_a (base s))
  /\ unpulled_keep initial (AbstractMABAlgorithm.N_a (base s))
       (UCB.probabilities (belief s)).

(** Every Beta parameter is positive. *)
Definition positive (l : list Q) : Prop := Forall (fun x => (0 < x)%Q) l.

(** The reward went to exactly one of the two parameters of the arm at
    position [arm]: on a success [a] grew by one and [b] kept its value, on
    a failure the other way round; no other position changed. *)
Definition bernoulli_increment (a b a' b' : list Q) (arm reward : Z) : Prop :=
  exists k x y,
    normalize_index (length a) arm = Ok k
    /\ a !! k = Some x /\ b !! k = Some y
    /\ ((reward = 1 /\ a' = <[k := (x + 1)%Q]> a /\ b' = <[k := y]> b)
        \/ (reward = 0 /\ a' = <[k := x]> a /\ b' = <[k := (y + 1)%Q]> b)).

(** What a run keeps true of the Beta parameters [a], [b] of an object with
    base attributes [base]. *)
Definition beta_inv (initial_a initial_b : Q) (base : AbstractMABAlgorithm.t)
    (a b : list Q) : Prop :=
  wf_base base
  /\ length a = length (AbstractMABAlgorithm.N_a base)
  /\ length b = length (AbstractMABAlgorithm.N_a base)
  /\ conjugate initial_a initial_b (AbstractMABAlgorithm.N_a base) a b.

Definition BayesianUCB_inv (initial_a initial_b : Q) (s : agent BayesianUCB.t) : Prop :=
  beta_inv initial_a initial_b (base s)
    (BayesianUCB.a (belief s)) (BayesianUCB.b (belief s)).

Definition ThompsonSamping_inv (initial_a initial_b : Q) (s : agent ThompsonSamping.t)
  : Prop :=
  beta_inv initial_a initial_b (base s)
    (ThompsonSamping.a (belief s)) (ThompsonSamping.b (belief s)).

(** ** A fixed generator and fixed-precision functions, to run the code on *)

Definition sqrt_milli (x : Q) : Q :=
  Z.sqrt (Qnum x * 1000000 / Zpos (Qden x)) # 1000.

Definition log_milli (x : Q) : Q :=
  (Z.log2 (Qnum x / Zpos (Qden x)) * 693) # 1000.

Definition fixed_numpy : numpy := {|
  np_sqrt := sqrt_milli;
  np_log := log_milli;
  random_sample := fun k => (Z.of_nat k * 37 mod 100) # 100;
  random_bits := fun k => Z.of_nat k * 7919;
  beta_sample := fun k a b =>
    ((a + ((Z.of_nat k * 3 mod 10) # 10)) / (a + b + 1))%Q
|}.

(** The machine of the notebook: [FruitSlotMachine([0.3, 0.5, 0.7])] *)
Definition FruitMachine : FruitSlotMachine.t := {|
  FruitSlotMachine.bandit_name := "Fruit Machine";
  FruitSlotMachine.num_arms := 3;
  FruitSlotMachine.distribution := [3 # 10; 5 # 10; 7 # 10]%Q;
  FruitSlotMachine.best_cumulative_reward := 7 # 10
|}.

(** A Thompson-sampling object whose beliefs favour the last arm: eight
    failures each on the first two arms, eight successes on the last. *)
Definition thompson_after_24 : agent ThompsonSamping.t := {|
  base := AbstractMABAlgorithm.set_N_a [8; 8; 8] (AbstractMABAlgorithm.init FruitMachine);
  belief := {| ThompsonSamping.a := [1; 1; 9]%Q; ThompsonSamping.b := [9; 9; 1]%Q |}
|}.

(** A second object, equal to [thompson_after_24] except for the belief
    pair of the middle arm. *)
Definition thompson_after_24' : agent ThompsonSamping.t := {|
  base := base thompson_after_24;
  belief := {| ThompsonSamping.a := [1; 5; 9]%Q; ThompsonSamping.b := [9; 5; 1]%Q |}
|}.

(** ** Vocabulary of the further properties *)

(** The pull counts of three arms after [m] rounds of a round robin *)
Definition round_robin_counts (m : Z) : list Z :=
  [(m + 2) / 3; (m + 1) / 3; m / 3].

(** The Bayesian UCB score of one arm: the posterior mean plus [sigma]
    standard deviations of [Beta(x, y)]. *)
Definition bayes_ucb_score (np : numpy) (sigma x y : Q) : Q :=
  (x / (x + y)
   + np_sqrt np (x * y / (((x + y) * (x + y)) * (x + y + 1))) * sigma)%Q.

(** Every entry is at least [c]. *)
Definition at_least (c : Q) (l : list Q) : Prop := Forall (fun x => (c <= x)%Q) l.

(** Every entry is a whole number. *)
Definition whole (l : list Q) : Prop :=
  Forall (fun x => exists z, (x == inject_Z z)%Q) l.

(** Every entry is a whole number of magnitude at most [bound]. *)
Definition whole_within (bound : Z) (l : list Q) : Prop :=
  Forall (fun x => exists z, (x == inject_Z z)%Q /\ - bound <= z <= bound) l.

(** Up to this magnitude every whole number is a [float64], and sums and
    differences of whole numbers that stay within it are computed without
    rounding: on such values the arithmetic of the code is the arithmetic
    of the model. *)
Definition float_exact_bound : Z := 2 ^ 53.

(** * Properties *)

(** ** Exceptions and sequences *)

Lemma bind_Ok {A B} (m : result A) (f : A -> result B) (y : B) :
  m ≫= f = Ok y <-> exists x, m = Ok x /\ f x = Ok y.
Proof.
  destruct m as [x|e]; simpl; split.
  - intros Hf. exists x. auto.
  - intros (x' & Hx & Hf). congruence.
  - discriminate.
  - intros (x' & Hx & _). discriminate.
Qed.

Lemma assert_Ok (c : bool) (u : unit) : assert c = Ok u <-> c = true.
Proof. destruct c, u; simpl; split; congruence. Qed.

Lemma Qlt_bool_iff (x y : Q) : Qlt_bool x y = true <-> (x < y)%Q.
Proof.
  unfold Qlt_bool. rewrite negb_true_iff. split.
  - intros Hb. apply Qnot_le_lt. intros Hle.
    apply Qle_bool_iff in Hle. congruence.
  - intros Hlt. destruct (Qle_bool y x) eqn:Hb; [|reflexivity].
    apply Qle_bool_iff in Hb. exfalso. exact (Qlt_not_le _ _ Hlt Hb).
Qed.

Lemma Qlt_bool_false (x y : Q) : Qlt_bool x y = false <-> (y <= x)%Q.
Proof.
  unfold Qlt_bool. rewrite negb_false_iff. apply Qle_bool_iff.
Qed.

Lemma normalize_index_Ok (len : nat) (i : Z) (k : nat) :
  normalize_index len i = Ok k <->
  (0 <= i < Z.of_nat len /\ k = Z.to_nat i)
  \/ (- Z.of_nat len <= i < 0 /\ k = Z.to_nat (Z.of_nat len + i)).
Proof.
  unfold normalize_index.
  destruct (0 <=? i) eqn:H0; destruct (i <? Z.of_nat len) eqn:H1;
    destruct (- Z.of_nat len <=? i) eqn:H2; destruct (i <? 0) eqn:H3; simpl;
    try apply Z.leb_le in H0; try apply Z.leb_gt in H0;
    try apply Z.ltb_lt in H1; try apply Z.ltb_ge in H1;
    try apply Z.leb_le in H2; try apply Z.leb_gt in H2;
    try apply Z.ltb_lt in H3; try apply Z.ltb_ge in H3;
    split; try (intros [= <-]); try lia;
    try (intros [[? ->]|[? ->]]; first [reflexivity | lia]);
    try (intros [[? ?]|[? ?]]; lia).
Qed.

Lemma normalize_index_lt (len : nat) (i : Z) (k : nat) :
  normalize_index len i = Ok k -> (k < len)%nat.
Proof. rewrite normalize_index_Ok. lia. Qed.

Lemma normalize_index_nonneg (len : nat) (i : Z) :
  0 <= i < Z.of_nat len -> normalize_index len i = Ok (Z.to_nat i).
Proof. intros Hi. apply normalize_index_Ok. lia. Qed.

Lemma normalize_index_Raise (len : nat) (i : Z) :
  i < - Z.of_nat len \/ Z.of_nat len <= i ->
  normalize_index len i = Raise IndexError.
Proof.
  intros Hi. unfold normalize_index.
  destruct (0 <=? i) eqn:H0; destruct (i <? Z.of_nat len) eqn:H1;
    destruct (- Z.of_nat len <=? i) eqn:H2; destruct (i <? 0) eqn:H3; simpl;
    try apply Z.leb_le in H0; try apply Z.ltb_lt in H1;
    try apply Z.leb_le in H2; try apply Z.ltb_lt in H3;
    first [reflexivity | lia].
Qed.

Lemma getitem_Ok {A} (l : list A) (i : Z) (x : A) :
  getitem l i = Ok x <->
  exists k, normalize_index (length l) i = Ok k /\ l !! k = Some x.
Proof.
  unfold getitem. rewrite bind_Ok. split.
  - intros (k & Hk & Hx). exists k. split; [exact Hk|].
    destruct (l !! k); congruence.
  - intros (k & Hk & Hx). exists k. split; [exact Hk|]. rewrite Hx. reflexivity.
Qed.

Lemma getitem_total {A} (l : list A) (i : Z) (k : nat) :
  normalize_index (length l) i = Ok k -> exists x, getitem l i = Ok x /\ l !! k = Some x.
Proof.
  intros Hk. destruct (lookup_lt_is_Some_2 l k) as [x Hx].
  - eapply normalize_index_lt, Hk.
  - exists x. split; [|exact Hx]. apply getitem_Ok. eauto.
Qed.

Lemma setitem_Ok {A} (l l' : list A) (i : Z) (x : A) :
  setitem l i x = Ok l' <->
  exists k, normalize_index (length l) i = Ok k /\ l' = <[k := x]> l.
Proof.
  unfold setitem. rewrite bind_Ok. split.
  - intros (k & Hk & [= <-]). eauto.
  - intros (k & Hk & ->). eauto.
Qed.

(** ** The first best element of a sequence *)

Section ArgFirst.

Context {A : Type} (better : A -> A -> bool).
Hypothesis better_irrefl : forall x, better x x = false.
Hypothesis better_trans :
  forall x y z, better x y = true -> better y z = true -> better x z = true.
Hypothesis worse_trans :
  forall x y z, better x y = false -> better y z = false -> better x z = false.

Lemma better_asym (x y : A) : better x y = true -> better y x = false.
Proof.
  intros Hxy. destruct (better y x) eqn:Hyx; [|reflexivity].
  rewrite <- (better_irrefl x). symmetry. eapply better_trans; eassumption.
Qed.

Lemma arg_first_spec (l pre : list A) (best : A) (besti : nat) :
  pre !! besti = Some best ->
  (forall j x, pre !! j = Some x -> better x best = false) ->
  (forall j x, (j < besti)%nat -> pre !! j = Some x -> better best x = true) ->
  first_best better (pre ++ l) (arg_first better best besti (length pre) l).
Proof.
  revert pre best besti.
  induction l as [|x l IH]; intros pre best besti Hbest Hall Hbefore.
  - simpl. rewrite app_nil_r. exists best. auto.
  - simpl. replace (pre ++ x :: l) with ((pre ++ [x]) ++ l)
      by (rewrite <- app_assoc; reflexivity).
    replace (S (length pre)) with (length (pre ++ [x]))
      by (rewrite length_app; simpl; lia).
    destruct (better x best) eqn:Hx.
    + apply (IH (pre ++ [x]) x (length pre)).
      * apply list_lookup_middle. reflexivity.
      * intros j y Hy. apply lookup_app_Some in Hy as [Hy|[_ Hy]].
        -- eapply worse_trans; [eapply Hall, Hy|]. apply better_asym, Hx.
        -- destruct (j - length pre)%nat; simpl in Hy; [|discriminate].
           injection Hy as <-. apply better_irrefl.
      * intros j y Hj Hy. rewrite lookup_app_l in Hy by lia.
        destruct (better x y) eqn:Hxy; [reflexivity|].
        rewrite <- Hx. symmetry. eapply worse_trans; [exact Hxy|].
        eapply Hall, Hy.
    + apply IH.
      * apply lookup_app_l_Some, Hbest.
      * intros j y Hy. apply lookup_app_Some in Hy as [Hy|[_ Hy]].
        -- eapply Hall, Hy.
        -- destruct (j - length pre)%nat; simpl in Hy; [|discriminate].
           injection Hy as <-. exact Hx.
      * intros j y Hj Hy. apply lookup_lt_Some in Hbest as Hlt.
        rewrite lookup_app_l in Hy by lia. eapply Hbefore; eassumption.
Qed.

Lemma arg_first_head (x : A) (l : list A) :
  first_best better (x :: l) (arg_first better x 0 1 l).
Proof.
  apply (arg_first_spec l [x] x 0%nat).
  - reflexivity.
  - intros [|j] y Hy; simpl in Hy; [|discriminate].
    injection Hy as <-. apply better_irrefl.
  - intros j y Hj. lia.
Qed.

End ArgFirst.

Lemma argmin_spec (l : list Z) :
  l <> [] -> exists k, argmin l = Ok (Z.of_nat k) /\ first_argmin l k.
Proof.
  destruct l as [|x l]; [congruence|]. intros _.
  exists (arg_first Z.ltb x 0 1 l). split; [reflexivity|].
  destruct (arg_first_head Z.ltb) with (x := x) (l := l) as (v & Hv & Hall & Hbefore).
  - intros y. apply Z.ltb_irrefl.
  - intros a b c Hab Hbc. apply Z.ltb_lt in Hab, Hbc. apply Z.ltb_lt. lia.
  - intros a b c Hab Hbc. apply Z.ltb_ge in Hab, Hbc. apply Z.ltb_ge. lia.
  - exists v. split; [exact Hv|]. split.
    + intros j y Hy. apply Z.ltb_ge. eapply Hall, Hy.
    + intros j y Hj Hy. apply Z.ltb_lt. eapply Hbefore; eassumption.
Qed.

Lemma argmax_spec (l : list Q) :
  l <> [] -> exists k, argmax l = Ok (Z.of_nat k) /\ first_argmax l k.
Proof.
  destruct l as [|x l]; [congruence|]. intros _.
  exists (arg_first (fun a b => Qlt_bool b a) x 0 1 l). split; [reflexivity|].
  destruct (arg_first_head (fun a b => Qlt_bool b a)) with (x := x) (l := l)
    as (v & Hv & Hall & Hbefore).
  - intros y. apply Qlt_bool_false, Qle_refl.
  - intros a b c Hab Hbc. apply Qlt_bool_iff in Hab, Hbc. apply Qlt_bool_iff.
    eapply Qlt_trans; eassumption.
  - intros a b c Hab Hbc. apply Qlt_bool_false in Hab, Hbc. apply Qlt_bool_false.
    eapply Qle_trans; eassumption.
  - exists v. split; [exact Hv|]. split.
    + intros j y Hy. apply Qlt_bool_false. eapply Hall, Hy.
    + intros j y Hj Hy. apply Qlt_bool_iff. eapply Hbefore; eassumption.
Qed.

Lemma first_argmin_lt (l : list Z) (k : nat) : first_argmin l k -> (k < length l)%nat.
Proof. intros (v & Hv & _). eapply lookup_lt_Some, Hv. Qed.

Lemma first_argmax_lt (l : list Q) (k : nat) : first_argmax l k -> (k < length l)%nat.
Proof. intros (v & Hv & _). eapply lookup_lt_Some, Hv. Qed.

Lemma fold_max_ge (l : list Q) (m x : Q) :
  (x <= m)%Q \/ x ∈ l ->
  (x <= fold_left (fun m y => if Qlt_bool m y then y else m) l m)%Q.
Proof.
  revert m. induction l as [|y l IH]; intros m [Hm|Hin]; simpl.
  - exact Hm.
  - inversion Hin.
  - apply IH. left. destruct (Qlt_bool m y) eqn:Hlt; [|exact Hm].
    apply Qlt_bool_iff in Hlt. eapply Qle_trans; [exact Hm|].
    apply Qlt_le_weak, Hlt.
  - apply IH. apply elem_of_cons in Hin as [->|Hin]; [left|right; exact Hin].
    destruct (Qlt_bool m y) eqn:Hlt; [apply Qle_refl|].
    apply Qlt_bool_false, Hlt.
Qed.

Lemma py_max_ge (l : list Q) (m x : Q) :
  py_max l = Ok m -> x ∈ l -> (x <= m)%Q.
Proof.
  destruct l as [|y l]; [discriminate|]. intros [= <-] Hin.
  apply fold_max_ge. apply elem_of_cons in Hin as [->|Hin].
  - left. apply Qle_refl.
  - right. exact Hin.
Qed.

(** ** One round of the loop, for any policy *)

Section RunFacts.

Context {B : Type} `{MABAlgorithm B} (np : numpy).

Import AbstractMABAlgorithm.

(** What a round that does not raise has done. *)
Lemma run_iteration_Ok (it : Z) (s s' : agent B) (g g' : RandomState) (arm : Z) :
  run_iteration np it s g = Ok (s', g', arm) <->
  exists g1 reward k n p bel,
    choose_arm np (set_iteration it (base s)) (belief s) g = Ok (arm, g1)
    /\ FruitSlotMachine.get_reward np (MABproblem (base s)) arm g1 = Ok (reward, g')
    /\ normalize_index (length (N_a (base s))) arm = Ok k
    /\ N_a (base s) !! k = Some n
    /\ update_belief
         (set_N_a (<[k := n + 1]> (N_a (base s))) (set_iteration it (base s)))
         (belief s) arm reward = Ok bel
    /\ getitem (FruitSlotMachine.distribution (MABproblem (base s))) arm = Ok p
    /\ s' = {| base :=
                 {| MABproblem := MABproblem (base s);
                    N_a := <[k := n + 1]> (N_a (base s));
                    regret :=
                      (regret (base s)
                       + (FruitSlotMachine.best_cumulative_reward (MABproblem (base s))
                          - p))%Q;
                    regret_history :=
                      regret_history (base s)
                      ++ [(regret (base s)
                           + (FruitSlotMachine.best_cumulative_reward
                                (MABproblem (base s)) - p))%Q];
                    iteration := Some it |};
               belief := bel |}.
Proof.
  unfold run_iteration. split.
  - intros Hrun.
    apply bind_Ok in Hrun as ([arm1 g1] & Hchoose & Hrun).
    apply bind_Ok in Hrun as ([reward g2] & Hreward & Hrun).
    apply bind_Ok in Hrun as (n & Hn & Hrun).
    apply bind_Ok in Hrun as (counts & Hcounts & Hrun).
    apply bind_Ok in Hrun as (bel & Hbel & Hrun).
    apply bind_Ok in Hrun as (b & Hb & Hrun).
    injection Hrun as <- <- <-.
    apply getitem_Ok in Hn as (k & Hk & Hn).
    apply setitem_Ok in Hcounts as (k' & Hk' & ->).
    simpl in Hk, Hk', Hn. assert (k' = k) as -> by congruence.
    unfold update_regret in Hb.
    apply bind_Ok in Hb as (p & Hp & [= <-]).
    exists g1, reward, k, n, p, bel. simpl in *. auto 10.
  - intros (g1 & reward & k & n & p & bel
            & Hchoose & Hreward & Hk & Hn & Hbel & Hp & ->).
    rewrite Hchoose. simpl. rewrite Hreward. simpl.
    assert (getitem (N_a (base s)) arm = Ok n) as ->
      by (apply getitem_Ok; eauto).
    simpl.
    assert (setitem (N_a (base s)) arm (n + 1) = Ok (<[k := n + 1]> (N_a (base s))))
      as -> by (apply setitem_Ok; eauto).
    simpl. rewrite Hbel. simpl.
    unfold update_regret. simpl. rewrite Hp. reflexivity.
Qed.

Lemma run_Ok (n : Z) (s s' : agent B) (g g' : RandomState) :
  run np n s g = Ok (s', g') <-> exists arms, run_trace np n s g = Ok (s', g', arms).
Proof.
  unfold run. rewrite bind_Ok. split.
  - intros ([[s1 g1] arms] & Hrun & [= <- <-]). eauto.
  - intros (arms & Hrun). exists (s', g', arms). auto.
Qed.

(** A property of the object that every round keeps holds after the loop. *)
Lemma run_over_invariant (P : agent B -> Prop) :
  (forall it s g s' g' arm,
      P s -> run_iteration np it s g = Ok (s', g', arm) -> P s') ->
  forall its s g s' g' arms,
    P s -> run_over np its s g = Ok (s', g', arms) -> P s'.
Proof.
  intros Hstep its. induction its as [|it its IH]; intros s g s' g' arms HP Hrun.
  - injection Hrun as <- <- <-. exact HP.
  - simpl in Hrun.
    apply bind_Ok in Hrun as ([[s1 g1] arm] & Hround & Hrun).
    apply bind_Ok in Hrun as ([[s2 g2] arms2] & Hrest & [= <- <- <-]).
    eapply IH; [|exact Hrest]. eapply Hstep; eassumption.
Qed.

(** If every round from an object with property [P] succeeds and keeps
    [P], the loop succeeds. *)
Lemma run_over_total (P : agent B -> Prop) :
  (forall it s g,
      P s -> exists s' g' arm, run_iteration np it s g = Ok (s', g', arm) /\ P s') ->
  forall its s g,
    P s -> exists s' g' arms, run_over np its s g = Ok (s', g', arms) /\ P s'.
Proof.
  intros Hstep its. induction its as [|it its IH]; intros s g HP.
  - exists s, g, []. auto.
  - destruct (Hstep it s g HP) as (s1 & g1 & arm & Hround & HP1).
    destruct (IH s1 g1 HP1) as (s2 & g2 & arms & Hrest & HP2).
    exists s2, g2, (arm :: arms). split; [|exact HP2].
    simpl. rewrite Hround. simpl. rewrite Hrest. reflexivity.
Qed.

End RunFacts.

(** ** Pull counts *)

Lemma sum_counts_insert (l : list Z) (k : nat) (n m : Z) :
  l !! k = Some n -> sum_counts (<[k := m]> l) = sum_counts l - n + m.
Proof.
  revert k. induction l as [|x l IH]; intros [|k] Hk; simpl in *; try discriminate.
  - injection Hk as ->. lia.
  - rewrite (IH k Hk). lia.
Qed.

Lemma sum_counts_replicate (n : nat) : sum_counts (replicate n 0) = 0.
Proof. induction n as [|n IH]; simpl; [reflexivity|exact IH]. Qed.

Lemma length_range (n : Z) : length (range n) = Z.to_nat n.
Proof. unfold range. rewrite length_map, length_seq. reflexivity. Qed.

Section CountFacts.

Context {B : Type} `{MABAlgorithm B} (np : numpy).

Import AbstractMABAlgorithm.

Lemma run_iteration_counts (it : Z) (s s' : agent B) (g g' : RandomState) (arm : Z) :
  run_iteration np it s g = Ok (s', g', arm) ->
  exists k n,
    normalize_index (length (N_a (base s))) arm = Ok k
    /\ N_a (base s) !! k = Some n
    /\ N_a (base s') = <[k := n + 1]> (N_a (base s)).
Proof.
  intros Hrun. apply run_iteration_Ok in Hrun
    as (g1 & reward & k & n & p & bel & _ & _ & Hk & Hn & _ & _ & ->).
  exists k, n. auto.
Qed.

Lemma run_over_counts (its : list Z) (s s' : agent B) (g g' : RandomState)
    (arms : list Z) :
  run_over np its s g = Ok (s', g', arms) ->
  sum_counts (N_a (base s')) = sum_counts (N_a (base s)) + Z.of_nat (length its).
Proof.
  revert s g arms. induction its as [|it its IH]; intros s g arms Hrun.
  - injection Hrun as <- <- <-. simpl. lia.
  - simpl in Hrun.
    apply bind_Ok in Hrun as ([[s1 g1] arm] & Hround & Hrun).
    apply bind_Ok in Hrun as ([[s2 g2] arms2] & Hrest & [= <- <- <-]).
    rewrite (IH _ _ _ Hrest).
    apply run_iteration_counts in Hround as (k & n & _ & Hn & ->).
    rewrite (sum_counts_insert _ _ _ _ Hn). simpl length. lia.
Qed.

End CountFacts.

(** ** Regret *)

Lemma length_regret_after (best r : Q) (ps : list Q) :
  length (regret_after best r ps) = length ps.
Proof.
  revert r. induction ps as [|p ps IH]; intros r; simpl; [reflexivity|].
  rewrite IH. reflexivity.
Qed.

Lemma last_regret_after (best r : Q) (ps : list Q) :
  last (r :: regret_after best r ps)
  = Some (fold_left (fun r p => (r + (best - p))%Q) ps r).
Proof.
  revert r. induction ps as [|p ps IH]; intros r; [reflexivity|].
  simpl regret_after. rewrite last_cons_cons. apply IH.
Qed.

Lemma regret_after_lower (best r : Q) (ps : list Q) (j : nat) (y : Q) :
  Forall (fun p => (p <= best)%Q) ps ->
  (r :: regret_after best r ps) !! j = Some y -> (r <= y)%Q.
Proof.
  intros Hps. revert r j. induction Hps as [|p ps Hp Hps IH]; intros r j Hy.
  - destruct j as [|j]; simpl in Hy; [|discriminate].
    injection Hy as <-. apply Qle_refl.
  - destruct j as [|j]; simpl in Hy.
    + injection Hy as <-. apply Qle_refl.
    + apply (IH _ j) in Hy. eapply Qle_trans; [|exact Hy]. lra.
Qed.

Lemma regret_after_mono (best r : Q) (ps : list Q) (i j : nat) (x y : Q) :
  Forall (fun p => (p <= best)%Q) ps ->
  (i <= j)%nat ->
  (r :: regret_after best r ps) !! i = Some x ->
  (r :: regret_after best r ps) !! j = Some y ->
  (x <= y)%Q.
Proof.
  intros Hps. revert r i j. induction Hps as [|p ps Hp Hps IH]; intros r i j Hij Hx Hy.
  - destruct i as [|i], j as [|j]; simpl in Hx, Hy; try discriminate.
    injection Hx as <-. injection Hy as <-. apply Qle_refl.
  - destruct i as [|i].
    + injection Hx as <-.
      eapply regret_after_lower; [|exact Hy]. constructor; assumption.
    + destruct j as [|j]; [lia|]. simpl in Hx, Hy.
      eapply (IH _ i j); [lia|exact Hx|exact Hy].
Qed.

Section RegretFacts.

Context {B : Type} `{MABAlgorithm B} (np : numpy).

Import AbstractMABAlgorithm.

Lemma run_over_regret (its : list Z) (s s' : agent B) (g g' : RandomState)
    (arms : list Z) :
  run_over np its s g = Ok (s', g', arms) ->
  let problem := MABproblem (base s) in
  let best := FruitSlotMachine.best_cumulative_reward problem in
  exists ps,
    Forall2 (fun arm p => getitem (FruitSlotMachine.distribution problem) arm = Ok p)
            arms ps
    /\ length arms = length its
    /\ MABproblem (base s') = problem
    /\ regret_history (base s')
       = regret_history (base s) ++ regret_after best (regret (base s)) ps
    /\ regret (base s')
       = fold_left (fun r p => (r + (best - p))%Q) ps (regret (base s)).
Proof.
  revert s g arms. induction its as [|it its IH]; intros s g arms Hrun; simpl.
  - injection Hrun as <- <- <-. exists []. rewrite app_nil_r. auto using Forall2.
  - simpl in Hrun.
    apply bind_Ok in Hrun as ([[s1 g1] arm] & Hround & Hrun).
    apply bind_Ok in Hrun as ([[s2 g2] arms2] & Hrest & [= <- <- <-]).
    apply IH in Hrest as (ps & Harms & Hlen & Hproblem & Hhist & Hregret).
    apply run_iteration_Ok in Hround
      as (g0 & reward & k & n & p & bel & _ & _ & _ & _ & _ & Hp & ->).
    simpl in *. exists (p :: ps).
    rewrite Hproblem, Hhist, Hregret, Hlen, <- app_assoc. simpl.
    repeat split; try reflexivity. constructor; assumption.
Qed.

End RegretFacts.

(** ** The environment *)

Lemma FruitSlotMachine_init_Ok (np : numpy) (dist : option (list Q))
    (g g' : RandomState) (problem : FruitSlotMachine.t) :
  FruitSlotMachine.init np dist g = Ok (problem, g') ->
  FruitSlotMachine.num_arms problem = 3
  /\ length (FruitSlotMachine.distribution problem) = 3%nat
  /\ py_max (FruitSlotMachine.distribution problem)
     = Ok (FruitSlotMachine.best_cumulative_reward problem).
Proof.
  unfold FruitSlotMachine.init. intros Hinit.
  apply bind_Ok in Hinit as ([d g1] & Hd & Hinit).
  apply bind_Ok in Hinit as (best & Hbest & [= <- <-]). simpl.
  split; [reflexivity|]. split; [|exact Hbest].
  destruct dist as [d0|].
  - apply bind_Ok in Hd as (u & Hlen & [= <- <-]).
    apply assert_Ok, Z.eqb_eq in Hlen. lia.
  - injection Hd as <- <-. reflexivity.
Qed.

Lemma FruitMachine_init (g : RandomState) :
  FruitSlotMachine.init fixed_numpy (Some [3 # 10; 5 # 10; 7 # 10]%Q) g
  = Ok (FruitMachine, g).
Proof. reflexivity. Qed.

Lemma get_reward_index (np : numpy) (problem : FruitSlotMachine.t) (arm : Z)
    (g : RandomState) (k : nat) :
  normalize_index (length (FruitSlotMachine.distribution problem)) arm = Ok k ->
  exists p,
    FruitSlotMachine.distribution problem !! k = Some p
    /\ FruitSlotMachine.get_reward np problem arm g
       = Ok (if Qlt_bool (random_sample np g) p then 1 else 0, S g).
Proof.
  intros Hk. destruct (getitem_total _ _ _ Hk) as (p & Hget & Hp).
  exists p. split; [exact Hp|].
  unfold FruitSlotMachine.get_reward, random. rewrite Hget. simpl.
  destruct (Qlt_bool (random_sample np g) p); reflexivity.
Qed.

Lemma get_reward_Ok (np : numpy) (problem : FruitSlotMachine.t) (arm : Z)
    (g g' : RandomState) (reward : Z) :
  FruitSlotMachine.get_reward np problem arm g = Ok (reward, g') ->
  reward = 0 \/ reward = 1.
Proof.
  unfold FruitSlotMachine.get_reward, random. intros Hget.
  apply bind_Ok in Hget as (p & _ & Hget).
  destruct (Qlt_bool (random_sample np g) p); injection Hget as <- _; auto.
Qed.

(** ** Well-formed objects *)

Lemma wf_base_init (np : numpy) (dist : option (list Q)) (g g' : RandomState)
    (problem : FruitSlotMachine.t) :
  FruitSlotMachine.init np dist g = Ok (problem, g') ->
  wf_base (AbstractMABAlgorithm.init problem).
Proof.
  intros Hinit. apply FruitSlotMachine_init_Ok in Hinit as (Harms & Hlen & _).
  unfold wf_base, AbstractMABAlgorithm.init. simpl.
  rewrite Harms, Hlen. change (Z.to_nat 3) with 3%nat. simpl.
  repeat split; try lia. repeat constructor; lia.
Qed.

Section WfFacts.

Context {B : Type} `{MABAlgorithm B} (np : numpy).

Import AbstractMABAlgorithm.

Lemma run_iteration_wf (it : Z) (s s' : agent B) (g g' : RandomState) (arm : Z) :
  wf_base (base s) ->
  run_iteration np it s g = Ok (s', g', arm) ->
  wf_base (base s').
Proof.
  intros (Harms & Hlen & Hpos & Hnonneg) Hrun.
  apply run_iteration_Ok in Hrun
    as (g1 & reward & k & n & p & bel & _ & _ & _ & Hn & _ & _ & ->).
  unfold wf_base. simpl. rewrite length_insert.
  repeat split; try assumption.
  apply Forall_insert; [exact Hnonneg|].
  eapply Forall_lookup_1 in Hnonneg; [|exact Hn]. simpl in Hnonneg. lia.
Qed.

(** A round succeeds as soon as the policy picks an arm of the machine and
    its belief update succeeds on the incremented counts. *)
Lemma run_iteration_intro (it : Z) (s : agent B) (g g1 : RandomState) (k : nat) :
  wf_base (base s) ->
  choose_arm np (set_iteration it (base s)) (belief s) g = Ok (Z.of_nat k, g1) ->
  (k < length (N_a (base s)))%nat ->
  (forall n reward,
      N_a (base s) !! k = Some n -> reward = 0 \/ reward = 1 ->
      exists bel,
        update_belief
          (set_N_a (<[k := n + 1]> (N_a (base s))) (set_iteration it (base s)))
          (belief s) (Z.of_nat k) reward = Ok bel) ->
  exists s' g', run_iteration np it s g = Ok (s', g', Z.of_nat k).
Proof.
  intros (Harms & Hlen & Hpos & Hnonneg) Hchoose Hk Hupdate.
  assert (normalize_index (length (N_a (base s))) (Z.of_nat k) = Ok k) as Hidx.
  { rewrite normalize_index_nonneg by lia. rewrite Nat2Z.id. reflexivity. }
  destruct (lookup_lt_is_Some_2 (N_a (base s)) k Hk) as [n Hn].
  assert (normalize_index
            (length (FruitSlotMachine.distribution (MABproblem (base s))))
            (Z.of_nat k) = Ok k) as Hidx' by (rewrite Hlen; exact Hidx).
  destruct (get_reward_index np _ _ g1 _ Hidx') as (p & Hp & Hreward).
  destruct (Hupdate n (if Qlt_bool (random_sample np g1) p then 1 else 0) Hn)
    as [bel Hbel].
  { destruct (Qlt_bool (random_sample np g1) p); auto. }
  eexists _, _. apply run_iteration_Ok.
  exists g1, (if Qlt_bool (random_sample np g1) p then 1 else 0), k, n, p, bel.
  repeat split; try eassumption.
  apply getitem_Ok. eauto.
Qed.

End WfFacts.

(** ** The running mean *)

Lemma np_divide_Ok (x y : Q) : ~ (y == 0)%Q -> np_divide x y = Ok (x / y)%Q.
Proof.
  intros Hy. unfold np_divide. destruct (Qeq_bool y 0) eqn:Hb; [|reflexivity].
  apply Qeq_bool_iff in Hb. contradiction.
Qed.

Lemma np_divide_Raise (x y : Q) (e : exception) :
  np_divide x y = Raise e -> (y == 0)%Q /\ e = ZeroDivisionError.
Proof.
  unfold np_divide. destruct (Qeq_bool y 0) eqn:Hb; [|discriminate].
  intros [= <-]. split; [apply Qeq_bool_iff, Hb|reflexivity].
Qed.

Lemma inject_Z_nonzero (n : Z) : n <> 0 -> ~ (inject_Z n == 0)%Q.
Proof. intros Hn Heq. unfold Qeq in Heq. simpl in Heq. lia. Qed.

(** The update divides by [counts[arm]] and writes position [arm] only. *)
Lemma running_mean_update_total (counts : list Z) (probabilities : list Q)
    (k : nat) (n reward : Z) :
  length probabilities = length counts ->
  counts !! k = Some n ->
  n <> 0 ->
  exists p,
    probabilities !! k = Some p
    /\ running_mean_update counts probabilities (Z.of_nat k) reward
       = Ok (<[k := (p + (inject_Z reward - p) / inject_Z n)%Q]> probabilities).
Proof.
  intros Hlen Hn Hpos. apply lookup_lt_Some in Hn as Hk.
  destruct (lookup_lt_is_Some_2 probabilities k) as [p Hp]; [lia|].
  exists p. split; [exact Hp|]. unfold running_mean_update.
  assert (getitem probabilities (Z.of_nat k) = Ok p) as ->.
  { apply getitem_Ok. exists k. split; [|exact Hp].
    rewrite normalize_index_nonneg by lia. rewrite Nat2Z.id. reflexivity. }
  simpl.
  assert (getitem counts (Z.of_nat k) = Ok n) as ->.
  { apply getitem_Ok. exists k. split; [|exact Hn].
    rewrite normalize_index_nonneg by lia. rewrite Nat2Z.id. reflexivity. }
  simpl. rewrite np_divide_Ok by (apply inject_Z_nonzero, Hpos). simpl.
  apply setitem_Ok. exists k. split; [|reflexivity].
  rewrite normalize_index_nonneg by lia. rewrite Nat2Z.id. reflexivity.
Qed.

Lemma running_mean_update_Ok (counts : list Z) (probabilities ps : list Q)
    (arm reward : Z) :
  running_mean_update counts probabilities arm reward = Ok ps ->
  exists k p n,
    normalize_index (length probabilities) arm = Ok k
    /\ probabilities !! k = Some p
    /\ getitem counts arm = Ok n
    /\ n <> 0
    /\ ps = <[k := (p + (inject_Z reward - p) / inject_Z n)%Q]> probabilities.
Proof.
  unfold running_mean_update. intros Hup.
  apply bind_Ok in Hup as (p & Hp & Hup).
  apply bind_Ok in Hup as (n & Hn & Hup).
  apply bind_Ok in Hup as (d & Hd & Hup).
  apply getitem_Ok in Hp as (k & Hk & Hp).
  apply setitem_Ok in Hup as (k' & Hk' & ->).
  assert (k' = k) as -> by congruence.
  exists k, p, n. repeat split; try assumption.
  - intros ->. discriminate.
  - unfold np_divide in Hd. destruct (Qeq_bool (inject_Z n) 0); [discriminate|].
    injection Hd as <-. reflexivity.
Qed.

(** ** Balance of the pull counts under uniform exploration *)

Lemma balanced_replicate (n : nat) (x : Z) : balanced (replicate n x).
Proof.
  intros i j a b Ha Hb.
  apply lookup_replicate in Ha as [-> _]. apply lookup_replicate in Hb as [-> _]. lia.
Qed.

Lemma balanced_increment_min (l : list Z) (k : nat) (n : Z) :
  first_argmin l k -> l !! k = Some n -> balanced l -> balanced (<[k := n + 1]> l).
Proof.
  intros (v & Hv & Hmin & _) Hn Hbal i j x y Hx Hy.
  assert (v = n) as -> by congruence.
  apply list_lookup_insert_Some in Hx as [(-> & <- & _)|(Hik & Hx)];
    apply list_lookup_insert_Some in Hy as [(Hj & <- & Hlt)|(Hjk & Hy)].
  - lia.
  - specialize (Hmin _ _ Hy). lia.
  - specialize (Hbal _ _ _ _ Hx Hn). lia.
  - exact (Hbal _ _ _ _ Hx Hy).
Qed.

Lemma fold_max_elem (l : list Z) (x : Z) :
  fold_left Z.max l x = x \/ fold_left Z.max l x ∈ l.
Proof.
  revert x. induction l as [|y l IH]; intros x; simpl; [auto|].
  destruct (IH (Z.max x y)) as [Heq|Hin].
  - rewrite Heq. destruct (Z.max_spec x y) as [[_ ->]|[_ ->]].
    + right. left.
    + left. reflexivity.
  - right. right. exact Hin.
Qed.

Lemma fold_min_elem (l : list Z) (x : Z) :
  fold_left Z.min l x = x \/ fold_left Z.min l x ∈ l.
Proof.
  revert x. induction l as [|y l IH]; intros x; simpl; [auto|].
  destruct (IH (Z.min x y)) as [Heq|Hin].
  - rewrite Heq. destruct (Z.min_spec x y) as [[_ ->]|[_ ->]].
    + left. reflexivity.
    + right. left.
  - right. right. exact Hin.
Qed.

Lemma max_count_elem (l : list Z) : l <> [] -> max_count l ∈ l.
Proof.
  destruct l as [|x l]; [congruence|]. intros _. simpl.
  destruct (fold_max_elem l x) as [->|Hin]; [left|right; exact Hin].
Qed.

Lemma min_count_elem (l : list Z) : l <> [] -> min_count l ∈ l.
Proof.
  destruct l as [|x l]; [congruence|]. intros _. simpl.
  destruct (fold_min_elem l x) as [->|Hin]; [left|right; exact Hin].
Qed.

Lemma fold_max_upper (l : list Z) (x y : Z) :
  y <= x \/ y ∈ l -> y <= fold_left Z.max l x.
Proof.
  revert x. induction l as [|z l IH]; intros x [Hle|Hin]; simpl.
  - exact Hle.
  - inversion Hin.
  - apply IH. left. lia.
  - apply IH. apply elem_of_cons in Hin as [->|Hin]; [left; lia|right; exact Hin].
Qed.

Lemma fold_min_lower (l : list Z) (x y : Z) :
  x <= y \/ y ∈ l -> fold_left Z.min l x <= y.
Proof.
  revert x. induction l as [|z l IH]; intros x [Hle|Hin]; simpl.
  - exact Hle.
  - inversion Hin.
  - apply IH. left. lia.
  - apply IH. apply elem_of_cons in Hin as [->|Hin]; [left; lia|right; exact Hin].
Qed.

(** [max_count] and [min_count] bound every entry. *)
Lemma count_bounds (l : list Z) (y : Z) :
  y ∈ l -> min_count l <= y <= max_count l.
Proof.
  destruct l as [|x l]; [inversion 1|]. intros Hin. simpl. split.
  - apply fold_min_lower. apply elem_of_cons in Hin as [->|Hin]; [left; lia|auto].
  - apply fold_max_upper. apply elem_of_cons in Hin as [->|Hin]; [left; lia|auto].
Qed.

Lemma balanced_spread (l : list Z) :
  l <> [] -> balanced l -> max_count l - min_count l <= 1.
Proof.
  intros Hne Hbal.
  destruct (proj1 (list_elem_of_lookup _ _) (max_count_elem l Hne)) as [i Hi].
  destruct (proj1 (list_elem_of_lookup _ _) (min_count_elem l Hne)) as [j Hj].
  specialize (Hbal _ _ _ _ Hi Hj). lia.
Qed.

(** ** Uniform exploration *)

Section UniformFacts.

Context (np : numpy).

Import AbstractMABAlgorithm.

Lemma UniformExploration_choose (b : AbstractMABAlgorithm.t)
    (self : UniformExploration.t) (g : RandomState) :
  N_a b <> [] ->
  exists k,
    UniformExploration.choose_arm np b self g = Ok (Z.of_nat k, g)
    /\ first_argmin (N_a b) k.
Proof.
  intros Hne. destruct (argmin_spec _ Hne) as (k & Hk & Hmin).
  exists k. split; [|exact Hmin].
  unfold UniformExploration.choose_arm. rewrite Hk. reflexivity.
Qed.

Lemma UniformExploration_round (it : Z) (s : agent UniformExploration.t)
    (g : RandomState) :
  UniformExploration_inv s ->
  exists s' g' arm,
    run_iteration np it s g = Ok (s', g', arm) /\ UniformExploration_inv s'.
Proof.
  intros (Hwf & Hlen & Hbal).
  assert (N_a (base s) <> []) as Hne.
  { destruct Hwf as (_ & _ & Hpos & _). destruct (N_a (base s)); simpl in *; [lia|congruence]. }
  destruct (UniformExploration_choose (set_iteration it (base s)) (belief s) g Hne)
    as (k & Hchoose & Hmin).
  simpl in Hmin. pose proof (first_argmin_lt _ _ Hmin) as Hk.
  destruct (run_iteration_intro (H := UniformExploration.methods)
              np it s g g k Hwf Hchoose Hk) as (s' & g' & Hrun).
  { intros n reward Hn Hreward. simpl.
    destruct (running_mean_update_total (<[k := n + 1]> (N_a (base s)))
                (UniformExploration.probabilities (belief s)) k (n + 1) reward)
      as (p & Hp & Hup).
    - rewrite length_insert. exact Hlen.
    - apply list_lookup_insert_eq. exact Hk.
    - destruct Hwf as (_ & _ & _ & Hnonneg).
      eapply Forall_lookup_1 in Hnonneg; [|exact Hn]. simpl in Hnonneg. lia.
    - unfold UniformExploration.update_belief. simpl. rewrite Hup. simpl. eauto. }
  exists s', g', (Z.of_nat k). split; [exact Hrun|].
  pose proof (run_iteration_wf np _ _ _ _ _ _ Hwf Hrun) as Hwf'.
  apply run_iteration_Ok in Hrun
    as (g1 & reward & k' & n & p & bel & _ & _ & Hk' & Hn & Hbel & _ & ->).
  rewrite normalize_index_nonneg in Hk' by lia. rewrite Nat2Z.id in Hk'.
  injection Hk' as <-.
  split; [exact Hwf'|]. simpl in *. split.
  - unfold UniformExploration.update_belief in Hbel.
    apply bind_Ok in Hbel as (ps & Hps & [= <-]). simpl.
    apply running_mean_update_Ok in Hps as (k1 & p1 & n1 & _ & _ & _ & _ & ->).
    rewrite !length_insert. exact Hlen.
  - apply balanced_increment_min; assumption.
Qed.

Lemma UniformExploration_init_inv (dist : option (list Q)) (g g' : RandomState)
    (problem : FruitSlotMachine.t) (initial : Q) :
  FruitSlotMachine.init np dist g = Ok (problem, g') ->
  UniformExploration_inv (UniformExploration.init problem initial).
Proof.
  intros Hinit. split; [eapply wf_base_init, Hinit|]. simpl. split.
  - unfold full. rewrite !length_replicate. reflexivity.
  - apply balanced_replicate.
Qed.

Lemma UniformExploration_run (dist : option (list Q)) (g0 g1 : RandomState)
    (problem : FruitSlotMachine.t) (initial : Q) (n : Z) (g : RandomState) :
  FruitSlotMachine.init np dist g0 = Ok (problem, g1) ->
  exists s' g',
    run np n (UniformExploration.init problem initial) g = Ok (s', g')
    /\ UniformExploration_inv s'.
Proof.
  intros Hinit.
  destruct (run_over_total np UniformExploration_inv) with
    (its := range n) (s := UniformExploration.init problem initial) (g := g)
    as (s' & g' & arms & Hrun & Hinv).
  - intros it s g2 Hs. apply UniformExploration_round, Hs.
  - eapply UniformExploration_init_inv, Hinit.
  - exists s', g'. split; [|exact Hinv]. apply run_Ok. eauto.
Qed.

End UniformFacts.

(** ** Epsilon-greedy *)

Section GreedyFacts.

Context (np : numpy).

Import AbstractMABAlgorithm.

Lemma EpsilonGreedy_choose (b : AbstractMABAlgorithm.t) (self : EpsilonGreedy.t)
    (g : RandomState) :
  wf_base b ->
  length (EpsilonGreedy.probabilities self) = length (N_a b) ->
  is_Some (EpsilonGreedy.epsilon self) ->
  exists k g1,
    EpsilonGreedy.choose_arm np b self g = Ok (Z.of_nat k, g1)
    /\ (k < length (N_a b))%nat.
Proof.
  intros (Harms & _ & Hpos & _) Hlen [e He].
  unfold EpsilonGreedy.choose_arm, random. rewrite He.
  destruct (Qlt_bool (random_sample np g) e).
  - unfold randint. rewrite Harms.
    assert ((0 <? Z.of_nat (length (N_a b))) = true) as -> by (apply Z.ltb_lt; lia).
    pose proof (Z.mod_pos_bound (random_bits np (S g)) (Z.of_nat (length (N_a b)) - 0))
      as Hmod.
    exists (Z.to_nat (random_bits np (S g) mod (Z.of_nat (length (N_a b)) - 0))), (S (S g)).
    split; [|lia]. rewrite Z2Nat.id by lia. reflexivity.
  - destruct (argmax_spec (EpsilonGreedy.probabilities self)) as (k & Hk & Hmax).
    { destruct (EpsilonGreedy.probabilities self); simpl in *; [lia|congruence]. }
    exists k, (S g). rewrite Hk. simpl. split; [reflexivity|].
    apply first_argmax_lt in Hmax. lia.
Qed.

Lemma EpsilonGreedy_round (it : Z) (s : agent EpsilonGreedy.t) (g : RandomState) :
  EpsilonGreedy_inv s ->
  exists s' g' arm,
    run_iteration np it s g = Ok (s', g', arm) /\ EpsilonGreedy_inv s'.
Proof.
  intros (Hwf & Hlen & Heps).
  destruct (EpsilonGreedy_choose (set_iteration it (base s)) (belief s) g)
    as (k & g1 & Hchoose & Hk); try assumption.
  simpl in Hk.
  destruct (run_iteration_intro (H := EpsilonGreedy.methods)
              np it s g g1 k Hwf Hchoose Hk) as (s' & g' & Hrun).
  { intros n reward Hn Hreward. simpl.
    destruct (running_mean_update_total (<[k := n + 1]> (N_a (base s)))
                (EpsilonGreedy.probabilities (belief s)) k (n + 1) reward)
      as (p & Hp & Hup).
    - rewrite length_insert. exact Hlen.
    - apply list_lookup_insert_eq. exact Hk.
    - destruct Hwf as (_ & _ & _ & Hnonneg).
      eapply Forall_lookup_1 in Hnonneg; [|exact Hn]. simpl in Hnonneg. lia.
    - unfold EpsilonGreedy.update_belief. simpl. rewrite Hup. simpl. eauto. }
  exists s', g', (Z.of_nat k). split; [exact Hrun|].
  pose proof (run_iteration_wf np _ _ _ _ _ _ Hwf Hrun) as Hwf'.
  apply run_iteration_Ok in Hrun
    as (g2 & reward & k' & n & p & bel & _ & _ & _ & _ & Hbel & _ & ->).
  split; [exact Hwf'|]. simpl in *.
  unfold EpsilonGreedy.update_belief in Hbel.
  apply bind_Ok in Hbel as (ps & Hps & [= <-]). simpl.
  apply running_mean_update_Ok in Hps as (k1 & p1 & n1 & _ & _ & _ & _ & ->).
  rewrite !length_insert. auto.
Qed.

Lemma EpsilonGreedy_init_Ok (problem : FruitSlotMachine.t) (eps : option Q)
    (initial : Q) (s : agent EpsilonGreedy.t) :
  EpsilonGreedy.init problem eps initial = Ok s ->
  base s = AbstractMABAlgorithm.init problem
  /\ EpsilonGreedy.epsilon (belief s) = eps
  /\ EpsilonGreedy.probabilities (belief s)
     = full (FruitSlotMachine.num_arms problem) initial.
Proof.
  unfold EpsilonGreedy.init. intros Hinit.
  apply bind_Ok in Hinit as (u & _ & [= <-]). auto.
Qed.

Lemma EpsilonGreedy_init_inv (dist : option (list Q)) (g g' : RandomState)
    (problem : FruitSlotMachine.t) (e initial : Q) (s : agent EpsilonGreedy.t) :
  FruitSlotMachine.init np dist g = Ok (problem, g') ->
  EpsilonGreedy.init problem (Some e) initial = Ok s ->
  EpsilonGreedy_inv s.
Proof.
  intros Hproblem Hinit.
  apply EpsilonGreedy_init_Ok in Hinit as (Hbase & Heps & Hprobs).
  unfold EpsilonGreedy_inv. rewrite Hbase, Heps, Hprobs.
  split; [eapply wf_base_init, Hproblem|]. simpl. split; [|eauto].
  unfold full. rewrite !length_replicate. reflexivity.
Qed.

(** With [epsilon = None] the first round already raises [TypeError]. *)
Lemma EpsilonGreedy_None_round (it : Z) (s : agent EpsilonGreedy.t) (g : RandomState) :
  EpsilonGreedy.epsilon (belief s) = None ->
  run_iteration np it s g = Raise TypeError.
Proof.
  intros Heps. unfold run_iteration. simpl.
  unfold EpsilonGreedy.choose_arm, random. rewrite Heps. reflexivity.
Qed.

End GreedyFacts.

(** ** UCB1 *)

Lemma mapM_pure {A B} (f : A -> result B) (f' : A -> B) (l : list A) :
  Forall (fun x => f x = Ok (f' x)) l -> mapM f l = Ok (map f' l).
Proof.
  induction 1 as [|x l Hx _ IH]; simpl; [reflexivity|].
  rewrite Hx. simpl. rewrite IH. reflexivity.
Qed.

Lemma zipM_pure {A B C} (h : A -> B -> C) (l : list A) (k : list B) :
  length l = length k -> zipM (fun x y => Ok (h x y)) l k = Ok (zip_with h l k).
Proof.
  revert k. induction l as [|x l IH]; intros [|y k] Hlen; simpl in *;
    try discriminate; [reflexivity|].
  rewrite IH by lia. reflexivity.
Qed.

Lemma zip_with_map_r {A B C D} (h : A -> C -> D) (f : B -> C) (l : list A) (k : list B) :
  zip_with h l (map f k) = zip_with (fun x y => h x (f y)) l k.
Proof.
  revert k. induction l as [|x l IH]; intros [|y k]; simpl; try reflexivity.
  rewrite IH. reflexivity.
Qed.

Section UCBFacts.

Context (np : numpy).

Import AbstractMABAlgorithm.

Lemma UCB_bonus (t n : Z) :
  0 <= n ->
  UCB.bonus np t n
  = Ok (np_sqrt np (2 * np_log np (inject_Z t) / inject_Z (n + 1)))%Q.
Proof.
  intros Hn. unfold UCB.bonus.
  rewrite np_divide_Ok by (apply inject_Z_nonzero; lia). reflexivity.
Qed.

(** The scores are the specification's, and the choice is the first arm
    with the largest score. *)
Lemma UCB_choose (b : AbstractMABAlgorithm.t) (self : UCB.t) (g : RandomState)
    (it : Z) :
  wf_base b ->
  length (UCB.probabilities self) = length (N_a b) ->
  iteration b = Some it ->
  exists k,
    UCB.choose_arm np b self g = Ok (Z.of_nat k, g)
    /\ first_argmax
         (zip_with (ucb1_score np (it + 1)) (UCB.probabilities self) (N_a b)) k.
Proof.
  intros (_ & _ & Hpos & Hnonneg) Hlen Hit.
  unfold UCB.choose_arm. rewrite Hit.
  rewrite (mapM_pure _
             (fun n => np_sqrt np (2 * np_log np (inject_Z (it + 1))
                                   / inject_Z (n + 1))%Q)).
  2:{ eapply Forall_impl; [exact Hnonneg|]. intros n Hn. apply UCB_bonus, Hn. }
  simpl. rewrite zipM_pure by (rewrite length_map; exact Hlen). simpl.
  rewrite zip_with_map_r.
  change (zip_with _ (UCB.probabilities self) (N_a b))
    with (zip_with (ucb1_score np (it + 1)) (UCB.probabilities self) (N_a b)).
  destruct (argmax_spec (zip_with (ucb1_score np (it + 1))
                           (UCB.probabilities self) (N_a b)))
    as (k & Hk & Hmax).
  { destruct (UCB.probabilities self), (N_a b); simpl in *; try lia; congruence. }
  exists k. rewrite Hk. simpl. auto.
Qed.

Lemma UCB_round (initial : Q) (it : Z) (s : agent UCB.t) (g : RandomState) :
  UCB_inv initial s ->
  exists s' g' arm,
    run_iteration np it s g = Ok (s', g', arm) /\ UCB_inv initial s'.
Proof.
  intros (Hwf & Hlen & Hkeep).
  destruct (UCB_choose (set_iteration it (base s)) (belief s) g it)
    as (k & Hchoose & Hmax); try assumption; try reflexivity.
  apply first_argmax_lt in Hmax as Hk. rewrite length_zip_with in Hk.
  simpl in Hk.
  assert (k < length (N_a (base s)))%nat as Hk' by lia.
  destruct (run_iteration_intro (H := UCB.methods)
              np it s g g k Hwf Hchoose Hk') as (s' & g' & Hrun).
  { intros n reward Hn Hreward. simpl.
    destruct (running_mean_update_total (<[k := n + 1]> (N_a (base s)))
                (UCB.probabilities (belief s)) k (n + 1) reward)
      as (p & Hp & Hup).
    - rewrite length_insert. exact Hlen.
    - apply list_lookup_insert_eq. exact Hk'.
    - destruct Hwf as (_ & _ & _ & Hnonneg).
      eapply Forall_lookup_1 in Hnonneg; [|exact Hn]. simpl in Hnonneg. lia.
    - unfold UCB.update_belief. simpl. rewrite Hup. simpl. eauto. }
  exists s', g', (Z.of_nat k). split; [exact Hrun|].
  pose proof (run_iteration_wf np _ _ _ _ _ _ Hwf Hrun) as Hwf'.
  apply run_iteration_Ok in Hrun
    as (g2 & reward & k0 & n & p & bel & _ & _ & Hk0 & Hn & Hbel & _ & ->).
  split; [exact Hwf'|]. simpl in *.
  unfold UCB.update_belief in Hbel.
  apply bind_Ok in Hbel as (ps & Hps & [= <-]). simpl.
  apply running_mean_update_Ok in Hps as (k1 & p1 & n1 & Hk1 & _ & _ & _ & ->).
  rewrite !length_insert. split; [exact Hlen|].
  rewrite Hlen in Hk1. assert (k1 = k0) as -> by congruence.
  intros i Hi. apply list_lookup_insert_Some in Hi as [(-> & Hzero & _)|(Hne & Hi)].
  - destruct Hwf as (_ & _ & _ & Hnonneg).
    eapply Forall_lookup_1 in Hnonneg; [|exact Hn]. simpl in Hnonneg. lia.
  - rewrite list_lookup_insert_ne by exact Hne. apply Hkeep, Hi.
Qed.

Lemma UCB_init_inv (dist : option (list Q)) (g g' : RandomState)
    (problem : FruitSlotMachine.t) (initial : Q) :
  FruitSlotMachine.init np dist g = Ok (problem, g') ->
  UCB_inv initial (UCB.init problem initial).
Proof.
  intros Hinit. split; [eapply wf_base_init, Hinit|]. simpl. split.
  - unfold full. rewrite !length_replicate. reflexivity.
  - intros i Hi. apply lookup_replicate in Hi as [_ Hi].
    unfold full. apply lookup_replicate. auto.
Qed.

End UCBFacts.

(** ** The Beta-Bernoulli update *)

Lemma Qplus_0_r_eq (y : Q) : (y + 0)%Q = y.
Proof.
  destruct y as [n d]. unfold Qplus. simpl.
  rewrite Z.mul_1_r, Z.add_0_r, Pos.mul_1_r. reflexivity.
Qed.

Lemma beta_update_Ok (a b a' b' : list Q) (arm reward : Z) :
  length a = length b ->
  beta_update a b arm reward = Ok (a', b') ->
  exists k x y,
    normalize_index (length a) arm = Ok k
    /\ a !! k = Some x /\ b !! k = Some y
    /\ a' = <[k := (x + inject_Z reward)%Q]> a
    /\ b' = <[k := (y + inject_Z (1 - reward))%Q]> b.
Proof.
  unfold beta_update. intros Hlen Hup.
  apply bind_Ok in Hup as (x & Hx & Hup).
  apply bind_Ok in Hup as (a1 & Ha & Hup).
  apply bind_Ok in Hup as (y & Hy & Hup).
  apply bind_Ok in Hup as (b1 & Hb & [= <- <-]).
  apply getitem_Ok in Hx as (k & Hk & Hx).
  apply setitem_Ok in Ha as (k1 & Hk1 & ->).
  apply getitem_Ok in Hy as (k2 & Hk2 & Hy).
  apply setitem_Ok in Hb as (k3 & Hk3 & ->).
  rewrite <- Hlen in Hk2, Hk3.
  assert (k1 = k) as -> by congruence.
  assert (k2 = k) as -> by congruence.
  assert (k3 = k) as -> by congruence.
  exists k, x, y. auto.
Qed.

Lemma beta_update_total (a b : list Q) (k : nat) (reward : Z) :
  length a = length b ->
  (k < length a)%nat ->
  exists a' b', beta_update a b (Z.of_nat k) reward = Ok (a', b').
Proof.
  intros Hlen Hk.
  assert (normalize_index (length a) (Z.of_nat k) = Ok k) as Hidx.
  { rewrite normalize_index_nonneg by lia. rewrite Nat2Z.id. reflexivity. }
  destruct (getitem_total a _ _ Hidx) as (x & Hx & _).
  assert (normalize_index (length b) (Z.of_nat k) = Ok k) as Hidx'
    by (rewrite <- Hlen; exact Hidx).
  destruct (getitem_total b _ _ Hidx') as (y & Hy & _).
  unfold beta_update, setitem. rewrite Hx. simpl.
  rewrite Hidx. simpl. rewrite Hy. simpl. rewrite Hidx'. simpl. eauto.
Qed.

Lemma beta_update_increment (a b a' b' : list Q) (arm reward : Z) :
  length a = length b ->
  reward = 0 \/ reward = 1 ->
  beta_update a b arm reward = Ok (a', b') ->
  bernoulli_increment a b a' b' arm reward.
Proof.
  intros Hlen Hreward Hup.
  apply beta_update_Ok in Hup as (k & x & y & Hk & Hx & Hy & -> & ->); [|exact Hlen].
  exists k, x, y. repeat split; try assumption.
  destruct Hreward as [-> | ->].
  - right. change (inject_Z 0) with 0%Q. change (inject_Z (1 - 0)) with 1%Q.
    rewrite Qplus_0_r_eq. auto.
  - left. change (inject_Z 1) with 1%Q. change (inject_Z (1 - 1)) with 0%Q.
    rewrite Qplus_0_r_eq. auto.
Qed.

Lemma positive_replicate (n : nat) (x : Q) : (0 < x)%Q -> positive (replicate n x).
Proof. intros Hx. apply Forall_replicate, Hx. Qed.

Section BetaFacts.

Context {B : Type} `{MABAlgorithm B} (np : numpy).
Context (beta_a beta_b : B -> list Q).
Hypothesis update_is_beta :
  forall base self arm reward self',
    update_belief base self arm reward = Ok self' ->
    beta_update (beta_a self) (beta_b self) arm reward
    = Ok (beta_a self', beta_b self').

Import AbstractMABAlgorithm.

(** A round keeps the invariant, and keeps the parameters positive. *)
Lemma beta_round_inv (initial_a initial_b : Q) (it : Z) (s s' : agent B)
    (g g' : RandomState) (arm : Z) :
  beta_inv initial_a initial_b (base s) (beta_a (belief s)) (beta_b (belief s)) ->
  run_iteration np it s g = Ok (s', g', arm) ->
  beta_inv initial_a initial_b (base s') (beta_a (belief s')) (beta_b (belief s'))
  /\ (positive (beta_a (belief s)) -> positive (beta_b (belief s)) ->
      positive (beta_a (belief s')) /\ positive (beta_b (belief s'))).
Proof.
  intros (Hwf & Hla & Hlb & Hconj) Hrun.
  pose proof (run_iteration_wf np _ _ _ _ _ _ Hwf Hrun) as Hwf'.
  apply run_iteration_Ok in Hrun
    as (g1 & reward & k & n & p & bel & _ & Hreward & Hk & Hn & Hbel & _ & ->).
  apply get_reward_Ok in Hreward.
  apply update_is_beta in Hbel.
  apply beta_update_Ok in Hbel as (k' & x & y & Hk' & Hx & Hy & Ha & Hb);
    [|congruence].
  rewrite Hla in Hk'. assert (k' = k) as -> by congruence.
  simpl. rewrite Ha, Hb. split.
  - split; [exact Hwf'|]. simpl. rewrite !length_insert.
    split; [exact Hla|]. split; [exact Hlb|].
    intros i m u v Hm Hu Hv.
    apply list_lookup_insert_Some in Hm as [(<- & <- & _)|(Hne & Hm)].
    + rewrite list_lookup_insert_eq in Hu by (rewrite Hla; eapply lookup_lt_Some, Hn).
      rewrite list_lookup_insert_eq in Hv by (rewrite Hlb; eapply lookup_lt_Some, Hn).
      injection Hu as <-. injection Hv as <-.
      specialize (Hconj _ _ _ _ Hn Hx Hy).
      rewrite inject_Z_plus.
      replace (1 - reward) with (1 + - reward) by lia.
      rewrite inject_Z_plus, inject_Z_opp.
      change (inject_Z 1) with 1%Q. lra.
    + rewrite list_lookup_insert_ne in Hu by exact Hne.
      rewrite list_lookup_insert_ne in Hv by exact Hne.
      exact (Hconj _ _ _ _ Hm Hu Hv).
  - intros Hpa Hpb. split; apply Forall_insert; try assumption.
    + eapply Forall_lookup_1 in Hpa; [|exact Hx]. simpl in Hpa.
      destruct Hreward as [-> | ->].
      * change (inject_Z 0) with 0%Q. rewrite Qplus_0_r_eq. exact Hpa.
      * change (inject_Z 1) with 1%Q. lra.
    + eapply Forall_lookup_1 in Hpb; [|exact Hy]. simpl in Hpb.
      destruct Hreward as [-> | ->].
      * change (inject_Z (1 - 0)) with 1%Q. lra.
      * change (inject_Z (1 - 1)) with 0%Q. rewrite Qplus_0_r_eq. exact Hpb.
Qed.

Lemma beta_run_inv (initial_a initial_b : Q) (n : Z) (s s' : agent B)
    (g g' : RandomState) :
  beta_inv initial_a initial_b (base s) (beta_a (belief s)) (beta_b (belief s)) ->
  run np n s g = Ok (s', g') ->
  beta_inv initial_a initial_b (base s') (beta_a (belief s')) (beta_b (belief s')).
Proof.
  intros Hinv Hrun. apply run_Ok in Hrun as (arms & Hrun).
  eapply (run_over_invariant np
            (fun s => beta_inv initial_a initial_b (base s)
                        (beta_a (belief s)) (beta_b (belief s))));
    [|exact Hinv|exact Hrun].
  intros it s1 g1 s2 g2 arm Hs1 Hround.
  eapply beta_round_inv; eassumption.
Qed.

End BetaFacts.

Lemma beta_inv_init (np : numpy) (dist : option (list Q)) (g g' : RandomState)
    (problem : FruitSlotMachine.t) (initial_a initial_b : Q) :
  FruitSlotMachine.init np dist g = Ok (problem, g') ->
  beta_inv initial_a initial_b (AbstractMABAlgorithm.init problem)
    (full (FruitSlotMachine.num_arms problem) initial_a)
    (full (FruitSlotMachine.num_arms problem) initial_b).
Proof.
  intros Hinit. split; [eapply wf_base_init, Hinit|]. simpl.
  unfold full. rewrite !length_replicate. repeat split.
  intros i n x y Hn Hx Hy.
  apply lookup_replicate in Hn as [-> _].
  apply lookup_replicate in Hx as [-> _].
  apply lookup_replicate in Hy as [-> _].
  change (inject_Z 0) with 0%Q. lra.
Qed.

Lemma zipM_total {A B C} (f : A -> B -> result C) (l : list A) (k : list B) :
  length l = length k ->
  (forall i x y, l !! i = Some x -> k !! i = Some y -> exists z, f x y = Ok z) ->
  exists zs, zipM f l k = Ok zs /\ length zs = length l.
Proof.
  revert k. induction l as [|x l IH]; intros [|y k] Hlen Hf; simpl in *;
    try discriminate.
  - exists []. auto.
  - destruct (Hf 0%nat x y) as [z Hz]; try reflexivity.
    destruct (IH k) as (zs & Hzs & Hlz); [lia| |].
    + intros i u v Hu Hv. apply (Hf (S i)); assumption.
    + exists (z :: zs). rewrite Hz. simpl. rewrite Hzs. simpl. auto.
Qed.

(** ** Bayesian UCB *)

Section BayesFacts.

Context (np : numpy).

Import AbstractMABAlgorithm.

Lemma BayesianUCB_update_is_beta (base : AbstractMABAlgorithm.t)
    (self : BayesianUCB.t) (arm reward : Z) (self' : BayesianUCB.t) :
  BayesianUCB.update_belief base self arm reward = Ok self' ->
  beta_update (BayesianUCB.a self) (BayesianUCB.b self) arm reward
  = Ok (BayesianUCB.a self', BayesianUCB.b self').
Proof.
  unfold BayesianUCB.update_belief. intros Hup.
  apply bind_Ok in Hup as ([a' b'] & Hup & [= <-]). exact Hup.
Qed.

Lemma BayesianUCB_choose (base : AbstractMABAlgorithm.t) (self : BayesianUCB.t)
    (g : RandomState) :
  length (BayesianUCB.a self) = length (BayesianUCB.b self) ->
  (0 < length (BayesianUCB.a self))%nat ->
  positive (BayesianUCB.a self) ->
  positive (BayesianUCB.b self) ->
  exists k,
    BayesianUCB.choose_arm np base self g = Ok (Z.of_nat k, g)
    /\ (k < length (BayesianUCB.a self))%nat.
Proof.
  intros Hlen Hne Hpa Hpb. unfold BayesianUCB.choose_arm, BayesianUCB.getBetaStdDev.
  destruct (zipM_total (fun x y => np_divide x (x + y)%Q)
              (BayesianUCB.a self) (BayesianUCB.b self) Hlen)
    as (mean & -> & Hmean).
  { intros i x y Hx Hy.
    eapply Forall_lookup_1 in Hpa; [|exact Hx].
    eapply Forall_lookup_1 in Hpb; [|exact Hy]. simpl in Hpa, Hpb.
    rewrite np_divide_Ok; [eauto|]. intros Hzero. lra. }
  simpl.
  destruct (zipM_total
              (fun x y =>
                 variance ← np_divide (x * y)%Q (((x + y) * (x + y)) * (x + y + 1))%Q;
                 Ok (np_sqrt np variance))
              (BayesianUCB.a self) (BayesianUCB.b self) Hlen)
    as (dev & -> & Hdev).
  { intros i x y Hx Hy.
    eapply Forall_lookup_1 in Hpa; [|exact Hx].
    eapply Forall_lookup_1 in Hpb; [|exact Hy]. simpl in Hpa, Hpb.
    rewrite np_divide_Ok; [simpl; eauto|]. intros Hzero.
    assert (0 < (x + y) * (x + y) * (x + y + 1))%Q as Hprod.
    { repeat apply Qmult_lt_0_compat; lra. }
    rewrite Hzero in Hprod. exact (Qlt_irrefl _ Hprod). }
  simpl. rewrite zipM_pure by congruence. simpl.
  destruct (argmax_spec (zip_with (fun m s => (m + s * BayesianUCB.sigma self)%Q)
                           mean dev))
    as (k & -> & Hmax).
  { destruct mean, dev; simpl in *; try lia; congruence. }
  simpl. exists k. split; [reflexivity|].
  apply first_argmax_lt in Hmax. rewrite length_zip_with in Hmax. lia.
Qed.

Lemma BayesianUCB_round (initial_a initial_b : Q) (it : Z)
    (s : agent BayesianUCB.t) (g : RandomState) :
  BayesianUCB_inv initial_a initial_b s ->
  positive (BayesianUCB.a (belief s)) ->
  positive (BayesianUCB.b (belief s)) ->
  exists s' g' arm,
    run_iteration np it s g = Ok (s', g', arm)
    /\ BayesianUCB_inv initial_a initial_b s'
    /\ positive (BayesianUCB.a (belief s'))
    /\ positive (BayesianUCB.b (belief s')).
Proof.
  intros Hinv Hpa Hpb. pose proof Hinv as (Hwf & Hla & Hlb & _).
  destruct (BayesianUCB_choose (set_iteration it (base s)) (belief s) g)
    as (k & Hchoose & Hk); try assumption; try congruence.
  { rewrite Hla. apply Hwf. }
  rewrite Hla in Hk.
  destruct (run_iteration_intro (H := BayesianUCB.methods)
              np it s g g k Hwf Hchoose Hk) as (s' & g' & Hrun).
  { intros n reward Hn Hreward. simpl. unfold BayesianUCB.update_belief.
    destruct (beta_update_total (BayesianUCB.a (belief s))
                (BayesianUCB.b (belief s)) k reward)
      as (a' & b' & ->); [congruence|lia|]. simpl. eauto. }
  exists s', g', (Z.of_nat k). split; [exact Hrun|].
  destruct (beta_round_inv (H := BayesianUCB.methods) np
              BayesianUCB.a BayesianUCB.b BayesianUCB_update_is_beta
              initial_a initial_b it s s' g g' (Z.of_nat k) Hinv Hrun)
    as (Hinv' & Hpos).
  split; [exact Hinv'|]. apply Hpos; assumption.
Qed.

End BayesFacts.

(** ** Thompson sampling *)

Section ThompsonFacts.

Context (np : numpy).

Import AbstractMABAlgorithm.

Lemma ThompsonSamping_update_is_beta (base : AbstractMABAlgorithm.t)
    (self : ThompsonSamping.t) (arm reward : Z) (self' : ThompsonSamping.t) :
  ThompsonSamping.update_belief base self arm reward = Ok self' ->
  beta_update (ThompsonSamping.a self) (ThompsonSamping.b self) arm reward
  = Ok (ThompsonSamping.a self', ThompsonSamping.b self').
Proof.
  unfold ThompsonSamping.update_belief. intros Hup.
  apply bind_Ok in Hup as ([a' b'] & Hup & [= <-]). exact Hup.
Qed.

(** With positive parameters, [np.random.beta(a, b)] makes one draw per
    position, each from the pair at that position. *)
Lemma random_beta_draws (a b : list Q) (g : RandomState) :
  length a = length b -> positive a -> positive b ->
  random_beta np a b g = Ok (draw_each_arm np a b g).
Proof.
  intros Hlen Hpa. revert b g Hlen.
  induction Hpa as [|x a Hx Hpa IH]; intros [|y b] g Hlen Hpb; simpl in *;
    try discriminate; [reflexivity|].
  inversion Hpb as [|? ? Hy Hpb']; subst.
  apply Qlt_bool_iff in Hx, Hy. rewrite Hx, Hy. simpl.
  rewrite IH by (assumption || lia).
  destruct (draw_each_arm np a b (S g)). reflexivity.
Qed.

Lemma draw_each_arm_state (a b : list Q) (g : RandomState) :
  length a = length b ->
  snd (draw_each_arm np a b g) = (g + length a)%nat
  /\ length (fst (draw_each_arm np a b g)) = length a.
Proof.
  revert b g. induction a as [|x a IH]; intros [|y b] g Hlen; simpl in *;
    try discriminate; [split; [lia|reflexivity]|].
  destruct (IH b (S g)) as (Hg & Hl); [lia|].
  destruct (draw_each_arm np a b (S g)) as [xs g']. simpl in *. split; lia.
Qed.

Lemma fill_samples_total (self : ThompsonSamping.t) (indices : list Z)
    (samples : list Q) (g : RandomState) :
  length (ThompsonSamping.a self) = length (ThompsonSamping.b self) ->
  positive (ThompsonSamping.a self) ->
  positive (ThompsonSamping.b self) ->
  Forall (fun i => 0 <= i < Z.of_nat (length samples)) indices ->
  exists samples' g',
    ThompsonSamping.fill_samples np self indices samples g = Ok (samples', g')
    /\ length samples' = length samples.
Proof.
  intros Hlen Hpa Hpb Hidx. revert samples g Hidx.
  induction indices as [|i indices IH]; intros samples g Hidx; simpl.
  - eauto.
  - inversion Hidx as [|? ? Hi Hrest]; subst.
    rewrite random_beta_draws by assumption.
    destruct (draw_each_arm np (ThompsonSamping.a self) (ThompsonSamping.b self) g)
      as [xs g1].
    simpl. unfold setitem. rewrite normalize_index_nonneg by exact Hi. simpl.
    destruct (IH (<[Z.to_nat i := np_sum xs]> samples) g1) as (s' & g' & Hfill & Hl).
    + rewrite length_insert. exact Hrest.
    + exists s', g'. rewrite Hfill, Hl, length_insert. auto.
Qed.

Lemma range_bounds (n : Z) : Forall (fun i => 0 <= i < n) (range n).
Proof.
  unfold range. apply Forall_forall. intros i Hi.
  apply list_elem_of_In, in_map_iff in Hi as (k & <- & Hk).
  apply in_seq in Hk. lia.
Qed.

Lemma ThompsonSamping_choose (base : AbstractMABAlgorithm.t)
    (self : ThompsonSamping.t) (g : RandomState) :
  wf_base base ->
  length (ThompsonSamping.a self) = length (ThompsonSamping.b self) ->
  positive (ThompsonSamping.a self) ->
  positive (ThompsonSamping.b self) ->
  exists k g1,
    ThompsonSamping.choose_arm np base self g = Ok (Z.of_nat k, g1)
    /\ (k < length (N_a base))%nat.
Proof.
  intros (Harms & _ & Hpos & _) Hlen Hpa Hpb. unfold ThompsonSamping.choose_arm.
  rewrite Harms.
  destruct (fill_samples_total self (range (Z.of_nat (length (N_a base))))
              (full (Z.of_nat (length (N_a base))) 0%Q) g)
    as (samples & g1 & -> & Hl); try assumption.
  { unfold full. rewrite length_replicate, Nat2Z.id. apply range_bounds. }
  unfold full in Hl. rewrite length_replicate, Nat2Z.id in Hl. simpl.
  destruct (argmax_spec samples) as (k & -> & Hmax).
  { destruct samples; simpl in *; [lia|congruence]. }
  simpl. exists k, g1. split; [reflexivity|].
  apply first_argmax_lt in Hmax. lia.
Qed.

Lemma ThompsonSamping_round (initial_a initial_b : Q) (it : Z)
    (s : agent ThompsonSamping.t) (g : RandomState) :
  ThompsonSamping_inv initial_a initial_b s ->
  positive (ThompsonSamping.a (belief s)) ->
  positive (ThompsonSamping.b (belief s)) ->
  exists s' g' arm,
    run_iteration np it s g = Ok (s', g', arm)
    /\ ThompsonSamping_inv initial_a initial_b s'
    /\ positive (ThompsonSamping.a (belief s'))
    /\ positive (ThompsonSamping.b (belief s')).
Proof.
  intros Hinv Hpa Hpb. pose proof Hinv as (Hwf & Hla & Hlb & _).
  destruct (ThompsonSamping_choose (set_iteration it (base s)) (belief s) g)
    as (k & g1 & Hchoose & Hk); try assumption; try congruence.
  simpl in Hk.
  destruct (run_iteration_intro (H := ThompsonSamping.methods)
              np it s g g1 k Hwf Hchoose Hk) as (s' & g' & Hrun).
  { intros n reward Hn Hreward. simpl. unfold ThompsonSamping.update_belief.
    destruct (beta_update_total (ThompsonSamping.a (belief s))
                (ThompsonSamping.b (belief s)) k reward)
      as (a' & b' & ->); [congruence|lia|]. simpl. eauto. }
  exists s', g', (Z.of_nat k). split; [exact Hrun|].
  destruct (beta_round_inv (H := ThompsonSamping.methods) np
              ThompsonSamping.a ThompsonSamping.b ThompsonSamping_update_is_beta
              initial_a initial_b it s s' g g' (Z.of_nat k) Hinv Hrun)
    as (Hinv' & Hpos).
  split; [exact Hinv'|]. apply Hpos; assumption.
Qed.

End ThompsonFacts.

(** ** Rounds are functions of the object and the generator state *)

Section Determinism.

Context {B : Type} `{MABAlgorithm B} (np : numpy).

Lemma round_total_inv (P : agent B -> Prop) :
  (forall it s g,
      P s -> exists s' g' arm, run_iteration np it s g = Ok (s', g', arm) /\ P s') ->
  forall it s g s' g' arm,
    P s -> run_iteration np it s g = Ok (s', g', arm) -> P s'.
Proof.
  intros Htotal it s g s' g' arm HP Hrun.
  destruct (Htotal it s g HP) as (s1 & g1 & arm1 & Hrun1 & HP1).
  rewrite Hrun1 in Hrun. injection Hrun as <- _ _. exact HP1.
Qed.

Lemma run_total (P : agent B -> Prop) :
  (forall it s g,
      P s -> exists s' g' arm, run_iteration np it s g = Ok (s', g', arm) /\ P s') ->
  forall n s g, P s -> exists s' g', run np n s g = Ok (s', g') /\ P s'.
Proof.
  intros Htotal n s g HP.
  destruct (run_over_total np P Htotal (range n) s g HP)
    as (s' & g' & arms & Hrun & HP').
  exists s', g'. split; [|exact HP']. apply run_Ok. eauto.
Qed.

End Determinism.

Lemma getitem_Raise {A} (l : list A) (i : Z) (e : exception) :
  getitem l i = Raise e -> e = IndexError.
Proof.
  unfold getitem, normalize_index.
  destruct ((0 <=? i) && (i <? Z.of_nat (length l))); simpl.
  - destruct (l !! Z.to_nat i); congruence.
  - destruct ((- Z.of_nat (length l) <=? i) && (i <? 0)); simpl; [|congruence].
    destruct (l !! Z.to_nat (Z.of_nat (length l) + i)); congruence.
Qed.

Lemma setitem_Raise {A} (l : list A) (i : Z) (x : A) (e : exception) :
  setitem l i x = Raise e -> e = IndexError.
Proof.
  unfold setitem, normalize_index.
  destruct ((0 <=? i) && (i <? Z.of_nat (length l))); simpl; [congruence|].
  destruct ((- Z.of_nat (length l) <=? i) && (i <? 0)); simpl; congruence.
Qed.

(** The only division of the running mean is by [counts[arm]]. *)
Lemma running_mean_update_zero (counts : list Z) (probabilities : list Q)
    (arm reward : Z) :
  running_mean_update counts probabilities arm reward = Raise ZeroDivisionError ->
  getitem counts arm = Ok 0.
Proof.
  unfold running_mean_update.
  destruct (getitem probabilities arm) as [p|e] eqn:Hp; simpl.
  2:{ apply getitem_Raise in Hp. congruence. }
  destruct (getitem counts arm) as [n|e] eqn:Hn; simpl.
  2:{ apply getitem_Raise in Hn. congruence. }
  destruct (np_divide (inject_Z reward - p) (inject_Z n)) as [d|e] eqn:Hd; simpl.
  - intros Hset. apply setitem_Raise in Hset. discriminate.
  - intros _. apply np_divide_Raise in Hd as [Hzero _].
    unfold Qeq in Hzero. simpl in Hzero. f_equal. lia.
Qed.

Lemma EpsilonGreedy_None_run (np : numpy) (n : Z) (s : agent EpsilonGreedy.t)
    (g : RandomState) :
  EpsilonGreedy.epsilon (belief s) = None ->
  run np n s g = Ok (s, g) \/ run np n s g = Raise TypeError.
Proof.
  intros Heps. unfold run, run_trace. destruct (range n) as [|it its]; simpl.
  - left. reflexivity.
  - right. rewrite EpsilonGreedy_None_round by exact Heps. reflexivity.
Qed.

(** ** Whole-number Beta parameters *)

Lemma whole_add (x : Q) (z r : Z) :
  (x == inject_Z z)%Q -> (x + inject_Z r == inject_Z (z + r))%Q.
Proof. intros ->. rewrite inject_Z_plus. reflexivity. Qed.

Lemma whole_replicate (n : nat) (k : Z) : whole (replicate n (inject_Z k)).
Proof. apply Forall_replicate. exists k. reflexivity. Qed.

Lemma at_least_replicate (n : nat) (c : Q) : at_least c (replicate n c).
Proof. apply Forall_replicate, Qle_refl. Qed.

Lemma sum_counts_bound (l : list Z) (i : nat) (x : Z) :
  Forall (fun n => 0 <= n) l -> l !! i = Some x -> 0 <= x <= sum_counts l.
Proof.
  intros Hl. revert i. induction Hl as [|y l Hy Hl IH]; intros [|i] Hx;
    simpl in *; try discriminate.
  - injection Hx as <-.
    assert (0 <= sum_counts l); [|lia].
    clear IH. induction Hl as [|z l' Hz _ IH']; simpl; lia.
  - specialize (IH _ Hx). lia.
Qed.

Lemma whole_within_lookup (bound : Z) (l : list Q) :
  (forall i x, l !! i = Some x ->
               exists z, (x == inject_Z z)%Q /\ - bound <= z <= bound) ->
  whole_within bound l.
Proof. intros Hl. apply Forall_lookup. exact Hl. Qed.

Section BetaWhole.

Context {B : Type} `{MABAlgorithm B} (np : numpy).
Context (beta_a beta_b : B -> list Q).
Hypothesis update_is_beta :
  forall base self arm reward self',
    update_belief base self arm reward = Ok self' ->
    beta_update (beta_a self) (beta_b self) arm reward
    = Ok (beta_a self', beta_b self').

(** A round keeps the parameters whole and no smaller than they started. *)
Lemma beta_round_whole (initial_a initial_b : Q) (it : Z) (s s' : agent B)
    (g g' : RandomState) (arm : Z) :
  beta_inv initial_a initial_b (base s) (beta_a (belief s)) (beta_b (belief s))
  /\ at_least initial_a (beta_a (belief s))
  /\ at_least initial_b (beta_b (belief s))
  /\ whole (beta_a (belief s))
  /\ whole (beta_b (belief s)) ->
  run_iteration np it s g = Ok (s', g', arm) ->
  beta_inv initial_a initial_b (base s') (beta_a (belief s')) (beta_b (belief s'))
  /\ at_least initial_a (beta_a (belief s'))
  /\ at_least initial_b (beta_b (belief s'))
  /\ whole (beta_a (belief s'))
  /\ whole (beta_b (belief s')).
Proof.
  intros (Hinv & Ha & Hb & Hwa & Hwb) Hrun.
  destruct (beta_round_inv np beta_a beta_b update_is_beta
              initial_a initial_b it s s' g g' arm Hinv Hrun) as [Hinv' _].
  split; [exact Hinv'|].
  destruct Hinv as (_ & Hla & Hlb & _).
  apply run_iteration_Ok in Hrun
    as (g1 & reward & k & n & p & bel & _ & Hreward & _ & _ & Hbel & _ & ->).
  apply get_reward_Ok in Hreward. apply update_is_beta in Hbel.
  apply beta_update_Ok in Hbel as (k' & x & y & _ & Hx & Hy & Ha' & Hb');
    [|congruence].
  simpl. rewrite Ha', Hb'.
  assert (0 <= inject_Z reward)%Q as Hr
    by (destruct Hreward as [-> | ->]; discriminate).
  assert (0 <= inject_Z (1 - reward))%Q as Hr'
    by (destruct Hreward as [-> | ->]; discriminate).
  repeat split; apply Forall_insert; try assumption.
  - eapply Forall_lookup_1 in Ha; [|exact Hx]. simpl in Ha. lra.
  - eapply Forall_lookup_1 in Hb; [|exact Hy]. simpl in Hb. lra.
  - eapply Forall_lookup_1 in Hwa; [|exact Hx]. destruct Hwa as [z Hz].
    exists (z + reward). apply whole_add, Hz.
  - eapply Forall_lookup_1 in Hwb; [|exact Hy]. destruct Hwb as [z Hz].
    exists (z + (1 - reward)). apply whole_add, Hz.
Qed.

(** After a run that completes on a fresh object with whole initial
    parameters [ka], [kb]: every arm's count is at most the number of
    rounds, and its parameters are whole numbers [za], [zb] with
    [ka <= za], [kb <= zb] and [za + zb = count + ka + kb]. *)
Lemma beta_run_whole (problem : FruitSlotMachine.t) (ka kb n : Z) (s s' : agent B)
    (g g' : RandomState) :
  base s = AbstractMABAlgorithm.init problem ->
  beta_inv (inject_Z ka) (inject_Z kb) (base s)
    (beta_a (belief s)) (beta_b (belief s)) ->
  beta_a (belief s) = full (FruitSlotMachine.num_arms problem) (inject_Z ka) ->
  beta_b (belief s) = full (FruitSlotMachine.num_arms problem) (inject_Z kb) ->
  0 <= n ->
  run np n s g = Ok (s', g') ->
  length (beta_a (belief s')) = length (AbstractMABAlgorithm.N_a (base s'))
  /\ length (beta_b (belief s')) = length (AbstractMABAlgorithm.N_a (base s'))
  /\ forall i count x y,
       AbstractMABAlgorithm.N_a (base s') !! i = Some count ->
       beta_a (belief s') !! i = Some x ->
       beta_b (belief s') !! i = Some y ->
       0 <= count <= n
       /\ exists za zb,
            (x == inject_Z za)%Q /\ (y == inject_Z zb)%Q
            /\ ka <= za <= ka + count /\ kb <= zb <= kb + count
            /\ za + zb = count + ka + kb.
Proof.
  intros Hbase Hinv Hia Hib Hn Hrun. apply run_Ok in Hrun as (arms & Hrun).
  pose proof (run_over_counts np _ _ _ _ _ _ Hrun) as Hsum.
  rewrite Hbase, length_range in Hsum. simpl in Hsum.
  rewrite sum_counts_replicate in Hsum.
  assert (beta_inv (inject_Z ka) (inject_Z kb) (base s')
            (beta_a (belief s')) (beta_b (belief s'))
          /\ at_least (inject_Z ka) (beta_a (belief s'))
          /\ at_least (inject_Z kb) (beta_b (belief s'))
          /\ whole (beta_a (belief s'))
          /\ whole (beta_b (belief s')))
    as (((_ & _ & _ & Hnonneg) & Hla & Hlb & Hconj) & Ha & Hb & Hwa & Hwb).
  { eapply (run_over_invariant np
              (fun s => beta_inv (inject_Z ka) (inject_Z kb) (base s)
                          (beta_a (belief s)) (beta_b (belief s))
                        /\ at_least (inject_Z ka) (beta_a (belief s))
                        /\ at_least (inject_Z kb) (beta_b (belief s))
                        /\ whole (beta_a (belief s))
                        /\ whole (beta_b (belief s))));
      [| |exact Hrun].
    - intros it s1 g1 s2 g2 arm Hs1 Hround. eapply beta_round_whole; eassumption.
    - split; [exact Hinv|]. rewrite Hia, Hib. unfold full.
      repeat split; first [apply at_least_replicate | apply whole_replicate]. }
  split; [exact Hla|]. split; [exact Hlb|].
  intros i count x y Hcount Hx Hy.
  pose proof (sum_counts_bound _ _ _ Hnonneg Hcount) as Hbound.
  split; [lia|].
  specialize (Hconj _ _ _ _ Hcount Hx Hy).
  eapply Forall_lookup_1 in Ha; [|exact Hx].
  eapply Forall_lookup_1 in Hb; [|exact Hy].
  eapply Forall_lookup_1 in Hwa; [|exact Hx].
  eapply Forall_lookup_1 in Hwb; [|exact Hy].
  simpl in Ha, Hb. destruct Hwa as [za Hza]. destruct Hwb as [zb Hzb].
  exists za, zb. split; [exact Hza|]. split; [exact Hzb|].
  rewrite Hza in Ha, Hconj. rewrite Hzb in Hb, Hconj.
  rewrite <- Zle_Qle in Ha, Hb.
  rewrite <- !inject_Z_plus in Hconj. unfold Qeq in Hconj. simpl in Hconj. lia.
Qed.

(** With equal whole initial parameters [k >= 0] and [2 k + n] within
    [bound]: after a run of [n] rounds every parameter is a whole number
    within [bound], and so is the sum of the two parameters of an arm, which
    is the arm's count plus [2 k]. *)
Lemma beta_run_count (problem : FruitSlotMachine.t) (bound k n : Z) (s s' : agent B)
    (g g' : RandomState) :
  base s = AbstractMABAlgorithm.init problem ->
  beta_inv (inject_Z k) (inject_Z k) (base s)
    (beta_a (belief s)) (beta_b (belief s)) ->
  beta_a (belief s) = full (FruitSlotMachine.num_arms problem) (inject_Z k) ->
  beta_b (belief s) = full (FruitSlotMachine.num_arms problem) (inject_Z k) ->
  0 <= n -> 0 <= k -> 2 * k + n <= bound ->
  run np n s g = Ok (s', g') ->
  whole_within bound (beta_a (belief s'))
  /\ whole_within bound (beta_b (belief s'))
  /\ forall i count x y,
       AbstractMABAlgorithm.N_a (base s') !! i = Some count ->
       beta_a (belief s') !! i = Some x ->
       beta_b (belief s') !! i = Some y ->
       (x + y == inject_Z count + 2 * inject_Z k)%Q.
Proof.
  intros Hbase Hinv Hia Hib Hn Hk Hbound Hrun.
  destruct (beta_run_whole problem k k n s s' g g' Hbase Hinv Hia Hib Hn Hrun)
    as (Hla & Hlb & Hall).
  split; [|split].
  - apply whole_within_lookup. intros i x Hx.
    apply lookup_lt_Some in Hx as Hlt.
    destruct (lookup_lt_is_Some_2 (AbstractMABAlgorithm.N_a (base s')) i)
      as [count Hcount]; [lia|].
    destruct (lookup_lt_is_Some_2 (beta_b (belief s')) i) as [y Hy]; [lia|].
    destruct (Hall _ _ _ _ Hcount Hx Hy) as (Hc & za & zb & Hza & _ & Hba & _).
    exists za. split; [exact Hza|lia].
  - apply whole_within_lookup. intros i y Hy.
    apply lookup_lt_Some in Hy as Hlt.
    destruct (lookup_lt_is_Some_2 (AbstractMABAlgorithm.N_a (base s')) i)
      as [count Hcount]; [lia|].
    destruct (lookup_lt_is_Some_2 (beta_a (belief s')) i) as [x Hx]; [lia|].
    destruct (Hall _ _ _ _ Hcount Hx Hy) as (Hc & za & zb & _ & Hzb & _ & Hbb & _).
    exists zb. split; [exact Hzb|lia].
  - intros i count x y Hcount Hx Hy.
    destruct (Hall _ _ _ _ Hcount Hx Hy) as (_ & za & zb & Hza & Hzb & _ & _ & Hsum).
    rewrite Hza, Hzb, <- inject_Z_plus, Hsum, !inject_Z_plus. lra.
Qed.

End BetaWhole.

Lemma whole_within_insert_succ (bound : Z) (l : list Q) (k : nat) (x : Q) :
  whole_within (bound - 1) l -> l !! k = Some x ->
  whole_within bound (<[k := (x + 1)%Q]> l) /\ whole_within bound (<[k := x]> l).
Proof.
  intros Hl Hx.
  assert (whole_within bound l) as Hl'.
  { eapply Forall_impl; [exact Hl|]. intros y (z & Hz & Hb). exists z. split; [exact Hz|lia]. }
  eapply Forall_lookup_1 in Hl; [|exact Hx]. destruct Hl as (z & Hz & Hb).
  split; apply Forall_insert; try exact Hl'.
  - exists (z + 1). split; [apply (whole_add x z 1), Hz|lia].
  - exists z. split; [exact Hz|lia].
Qed.

Lemma bernoulli_increment_whole (bound : Z) (a b a' b' : list Q) (arm reward : Z) :
  bernoulli_increment a b a' b' arm reward ->
  whole_within (bound - 1) a -> whole_within (bound - 1) b ->
  whole_within bound a' /\ whole_within bound b'.
Proof.
  intros (k & x & y & _ & Hx & Hy & Hcase) Ha Hb.
  destruct (whole_within_insert_succ bound a k x Ha Hx) as [Ha1 Ha0].
  destruct (whole_within_insert_succ bound b k y Hb Hy) as [Hb1 Hb0].
  destruct Hcase as [(_ & -> & ->)|(_ & -> & ->)]; auto.
Qed.

(** * The claims *)

(** Each turn of the loop of [ThompsonSamping.choose_arm] draws once from
    every arm's pair and stores the sum of all those draws. *)
Lemma fill_samples_one_turn (np : numpy) (self : ThompsonSamping.t) (i : Z)
    (samples : list Q) (g : RandomState) :
  length (ThompsonSamping.a self) = length (ThompsonSamping.b self) ->
  positive (ThompsonSamping.a self) ->
  positive (ThompsonSamping.b self) ->
  ThompsonSamping.fill_samples np self [i] samples g
  = (samples' ← setitem samples i
       (np_sum (fst (draw_each_arm np (ThompsonSamping.a self)
                       (ThompsonSamping.b self) g)));
     Ok (samples', (g + length (ThompsonSamping.a self))%nat)).
Proof.
  intros Hlen Hpa Hpb. simpl.
  rewrite random_beta_draws by assumption.
  pose proof (draw_each_arm_state np _ _ g Hlen) as [Hg _].
  destruct (draw_each_arm np (ThompsonSamping.a self) (ThompsonSamping.b self) g)
    as [xs g1].
  simpl in *. subst g1.
  destruct (setitem samples i (np_sum xs)); reflexivity.
Qed.

(** C1.  The claim reads [ThompsonSamping.choose_arm] as one draw per arm
    from that arm's own Beta pair.  The code passes the whole arrays
    [self.a], [self.b] to [np.random.beta] in every turn of its loop and
    stores the sum of the returned array.  On the object fresh from the
    constructor, and on [thompson_after_24] (beliefs [(1,9)], [(1,9)],
    [(9,1)]), it makes nine draws and returns arm 1, where one draw per arm
    makes three draws and returns arm 2; and the value it stores for arm 0
    changes when only the pair of arm 1 changes. *)
Theorem ThompsonSamping_choose_arm_sums_all_arms :
  let fresh := ThompsonSamping.init FruitMachine 1 1 in
  ThompsonSamping.choose_arm fixed_numpy (base fresh) (belief fresh) 0%nat
  = Ok (1, 9%nat)
  /\ thompson_single_draw fixed_numpy (belief fresh) 0%nat = Ok (2, 3%nat)
  /\ ThompsonSamping.choose_arm fixed_numpy
       (base thompson_after_24) (belief thompson_after_24) 0%nat = Ok (1, 9%nat)
  /\ thompson_single_draw fixed_numpy (belief thompson_after_24) 0%nat = Ok (2, 3%nat)
  /\ ThompsonSamping.a (belief thompson_after_24) !! 0%nat
     = ThompsonSamping.a (belief thompson_after_24') !! 0%nat
  /\ ThompsonSamping.b (belief thompson_after_24) !! 0%nat
     = ThompsonSamping.b (belief thompson_after_24') !! 0%nat
  /\ ThompsonSamping.fill_samples fixed_numpy (belief thompson_after_24)
       [0] [0; 0; 0]%Q 0%nat
     = Ok ([1439900 # 1331000; 0; 0]%Q, 3%nat)
  /\ ThompsonSamping.fill_samples fixed_numpy (belief thompson_after_24')
       [0] [0; 0; 0]%Q 0%nat
     = Ok ([1923900 # 1331000; 0; 0]%Q, 3%nat).
Proof.
  intros fresh. subst fresh. repeat split; vm_compute; reflexivity.
Qed.

(** C2, the claim as stated fails: index [-1] is outside [0, numArms), and
    [get_reward(-1)] returns a reward (that of the last arm) instead of
    failing. *)
Lemma get_reward_negative_index :
  ~ (0 <= -1 < FruitSlotMachine.num_arms FruitMachine)
  /\ FruitSlotMachine.get_reward fixed_numpy FruitMachine (-1) 0%nat = Ok (1, 1%nat).
Proof. split; [simpl; lia|vm_compute; reflexivity]. Qed.

(** C2, amended.  For a machine built by the constructor, [get_reward(arm)]
    raises (Python's [IndexError]) for every [arm] outside
    [-numArms, numArms); for every [arm] inside that range it makes one draw
    and returns 1 if the draw is below the success probability at position
    [arm mod numArms] and 0 otherwise.  (An [arm] in [0, numArms) is its own
    position; a negative one counts from the end.)  The machine is an
    argument only: no call changes it. *)
Theorem get_reward_index_range (np : numpy) (dist : option (list Q))
    (g0 g1 : RandomState) (problem : FruitSlotMachine.t) (arm : Z) (g : RandomState) :
  FruitSlotMachine.init np dist g0 = Ok (problem, g1) ->
  let n := FruitSlotMachine.num_arms problem in
  (arm < - n \/ n <= arm ->
   FruitSlotMachine.get_reward np problem arm g = Raise IndexError)
  /\ (- n <= arm < n ->
      exists p reward,
        FruitSlotMachine.distribution problem !! Z.to_nat (arm mod n) = Some p
        /\ FruitSlotMachine.get_reward np problem arm g = Ok (reward, S g)
        /\ (reward = 0 \/ reward = 1)
        /\ (reward = 1 <-> (random_sample np g < p)%Q)).
Proof.
  intros Hinit n. apply FruitSlotMachine_init_Ok in Hinit as (Harms & Hlen & _).
  subst n. rewrite Harms. split.
  - intros Hout. unfold FruitSlotMachine.get_reward, random, getitem.
    rewrite normalize_index_Raise by (rewrite Hlen; lia). reflexivity.
  - intros Hin.
    assert (normalize_index (length (FruitSlotMachine.distribution problem)) arm
            = Ok (Z.to_nat (arm mod 3))) as Hidx.
    { apply normalize_index_Ok. rewrite Hlen.
      destruct (Z_lt_le_dec arm 0) as [Hneg|Hpos]; [right|left]; split; try lia.
      - f_equal. replace arm with (arm + 3 + -1 * 3) at 1 by lia.
        rewrite Z.mod_add by lia. rewrite Z.mod_small by lia. lia.
      - rewrite Z.mod_small by lia. reflexivity. }
    destruct (get_reward_index np problem arm g _ Hidx) as (p & Hp & Hget).
    exists p, (if Qlt_bool (random_sample np g) p then 1 else 0).
    split; [exact Hp|]. split; [exact Hget|].
    destruct (Qlt_bool (random_sample np g) p) eqn:Hlt.
    + split; [auto|]. split; [intros _; apply Qlt_bool_iff, Hlt|reflexivity].
    + split; [auto|]. split; [discriminate|].
      intros Hlt'. apply Qlt_bool_iff in Hlt'. congruence.
Qed.

Lemma get_reward_index_range_witness :
  FruitSlotMachine.get_reward fixed_numpy FruitMachine 3 0%nat = Raise IndexError
  /\ exists p reward,
       FruitSlotMachine.distribution FruitMachine !! Z.to_nat (-1 mod 3) = Some p
       /\ FruitSlotMachine.get_reward fixed_numpy FruitMachine (-1) 0%nat
          = Ok (reward, 1%nat)
       /\ (reward = 0 \/ reward = 1)
       /\ (reward = 1 <-> (random_sample fixed_numpy 0 < p)%Q).
Proof.
  split.
  - apply (get_reward_index_range fixed_numpy (Some [3 # 10; 5 # 10; 7 # 10]%Q)
             0%nat 0%nat FruitMachine 3 0%nat (FruitMachine_init 0%nat)).
    simpl. lia.
  - apply (get_reward_index_range fixed_numpy (Some [3 # 10; 5 # 10; 7 # 10]%Q)
             0%nat 0%nat FruitMachine (-1) 0%nat (FruitMachine_init 0%nat)).
    simpl. lia.
Defined.

(** C3.  In a run of UCB1 on a machine built by the constructor, after [n]
    rounds (so that round [t = n + 1], the value of [self.iteration + 1], is
    about to be played): the score of every arm is
    [estimate + sqrt(2 * ln t / (pullCount + 1))], there is one score per
    arm, [choose_arm] returns the lowest index attaining the largest score
    and draws nothing, and an arm never pulled so far has the score
    [initial + sqrt(2 * ln t / 1)]. *)
Theorem UCB_choose_arm_score (np : numpy) (dist : option (list Q))
    (g0 g1 : RandomState) (problem : FruitSlotMachine.t) (initial : Q)
    (n : Z) (g g' : RandomState) (s : agent UCB.t) (arms : list Z) :
  FruitSlotMachine.init np dist g0 = Ok (problem, g1) ->
  0 <= n ->
  run_trace np n (UCB.init problem initial) g = Ok (s, g', arms) ->
  let t := n + 1 in
  let scores :=
    zip_with (ucb1_score np t) (UCB.probabilities (belief s))
      (AbstractMABAlgorithm.N_a (base s)) in
  Z.of_nat (length scores) = FruitSlotMachine.num_arms problem
  /\ (exists k,
        UCB.choose_arm np (AbstractMABAlgorithm.set_iteration n (base s)) (belief s) g'
        = Ok (Z.of_nat k, g')
        /\ first_argmax scores k)
  /\ (forall a,
        AbstractMABAlgorithm.N_a (base s) !! a = Some 0 ->
        scores !! a
        = Some (initial + np_sqrt np (2 * np_log np (inject_Z t) / 1))%Q).
Proof.
  intros Hinit Hn Hrun t scores.
  assert (UCB_inv initial s) as (Hwf & Hlen & Hkeep).
  { eapply (run_over_invariant np (UCB_inv initial)); [| |exact Hrun].
    - apply round_total_inv. intros it s0 g2 Hs0. apply UCB_round, Hs0.
    - eapply UCB_init_inv, Hinit. }
  apply run_over_regret in Hrun as (ps & _ & _ & Hproblem & _).
  simpl in Hproblem. split; [|split].
  - subst scores. rewrite length_zip_with, Hlen, Nat.min_id.
    destruct Hwf as (Harms & _). rewrite <- Harms, Hproblem. reflexivity.
  - destruct (UCB_choose np (AbstractMABAlgorithm.set_iteration n (base s))
                (belief s) g' n) as (k & Hchoose & Hmax);
      try assumption; try reflexivity.
    exists k. split; [exact Hchoose|exact Hmax].
  - intros a Ha. subst scores. rewrite lookup_zip_with.
    rewrite (Hkeep a Ha), Ha. reflexivity.
Qed.

Lemma UCB_choose_arm_score_witness :
  exists s g' arms,
    run_trace fixed_numpy 2 (UCB.init FruitMachine 1) 0%nat = Ok (s, g', arms)
    /\ AbstractMABAlgorithm.N_a (base s) !! 2%nat = Some 0
    /\ zip_with (ucb1_score fixed_numpy 3) (UCB.probabilities (belief s))
         (AbstractMABAlgorithm.N_a (base s)) !! 2%nat
       = Some (1 + np_sqrt fixed_numpy (2 * np_log fixed_numpy (inject_Z 3) / 1))%Q.
Proof.
  eexists _, _, _. split; [vm_compute; reflexivity|]. split; [reflexivity|].
  refine (proj2 (proj2 (UCB_choose_arm_score fixed_numpy
                          (Some [3 # 10; 5 # 10; 7 # 10]%Q) 0%nat 0%nat FruitMachine 1 2
                          0%nat _ _ _ (FruitMachine_init 0%nat) _ _)) 2%nat _).
  - lia.
  - vm_compute. reflexivity.
  - reflexivity.
Defined.

(** C4.  For every policy, on a machine built by the constructor and an
    object fresh from [AbstractMABAlgorithm.__init__]: when [run(n)], n >= 0,
    completes, the regret history has n + 1 entries, starts with 0, never
    decreases, ends with the cumulative regret, and the cumulative regret is
    the sum over the n chosen arms of [best - distribution[arm]]. *)
Theorem regret_history_shape {B : Type} `{MABAlgorithm B} (np : numpy)
    (dist : option (list Q)) (g0 g1 : RandomState) (problem : FruitSlotMachine.t)
    (s0 s : agent B) (n : Z) (g g' : RandomState) (arms : list Z) :
  FruitSlotMachine.init np dist g0 = Ok (problem, g1) ->
  base s0 = AbstractMABAlgorithm.init problem ->
  0 <= n ->
  run_trace np n s0 g = Ok (s, g', arms) ->
  let history := AbstractMABAlgorithm.regret_history (base s) in
  let best := FruitSlotMachine.best_cumulative_reward problem in
  length history = S (Z.to_nat n)
  /\ history !! 0%nat = Some 0%Q
  /\ (forall i j x y,
        (i <= j)%nat -> history !! i = Some x -> history !! j = Some y -> (x <= y)%Q)
  /\ last history = Some (AbstractMABAlgorithm.regret (base s))
  /\ py_max (FruitSlotMachine.distribution problem) = Ok best
  /\ exists ps,
       Forall2 (fun arm p => getitem (FruitSlotMachine.distribution problem) arm = Ok p)
         arms ps
       /\ length arms = Z.to_nat n
       /\ AbstractMABAlgorithm.regret (base s) = total_regret best ps.
Proof.
  intros Hinit Hbase Hn Hrun history best.
  apply FruitSlotMachine_init_Ok in Hinit as (_ & _ & Hbest).
  apply run_over_regret in Hrun as (ps & Harms & Hlen & _ & Hhist & Hregret).
  rewrite Hbase in Harms, Hhist, Hregret. simpl in Harms, Hhist, Hregret.
  rewrite length_range in Hlen.
  assert (Forall (fun p => (p <= best)%Q) ps) as Hps.
  { apply Forall_forall. intros p Hp.
    apply (list_elem_of_lookup ps) in Hp as [i Hp].
    destruct (Forall2_lookup_r _ _ _ _ _ Harms Hp) as (arm & _ & Hget).
    apply getitem_Ok in Hget as (k & _ & Hk).
    eapply py_max_ge; [exact Hbest|]. eapply list_elem_of_lookup_2, Hk. }
  subst history. rewrite Hhist. repeat split.
  - simpl. rewrite length_regret_after.
    apply Forall2_length in Harms. lia.
  - intros i j x y. apply regret_after_mono, Hps.
  - simpl app. rewrite last_regret_after, Hregret. reflexivity.
  - exact Hbest.
  - exists ps. repeat split; assumption.
Qed.

Lemma regret_history_shape_witness :
  exists s g' arms,
    run_trace fixed_numpy 3 (ThompsonSamping.init FruitMachine 1 1) 0%nat
    = Ok (s, g', arms)
    /\ length (AbstractMABAlgorithm.regret_history (base s)) = 4%nat
    /\ forall x y,
         AbstractMABAlgorithm.regret_history (base s) !! 1%nat = Some x ->
         AbstractMABAlgorithm.regret_history (base s) !! 3%nat = Some y ->
         (x <= y)%Q.
Proof.
  eexists _, _, _. split; [vm_compute; reflexivity|].
  assert (run_trace fixed_numpy 3 (ThompsonSamping.init FruitMachine 1 1) 0%nat
          = Ok (_, _, _)) as Hrun by (vm_compute; reflexivity).
  pose proof (regret_history_shape fixed_numpy (Some [3 # 10; 5 # 10; 7 # 10]%Q)
                0%nat 0%nat FruitMachine (ThompsonSamping.init FruitMachine 1 1)
                _ 3 0%nat _ _ (FruitMachine_init 0%nat) eq_refl
                (Zle_0_pos 3) Hrun) as (Hlen & _ & Hmono & _).
  split; [exact Hlen|].
  intros x y. apply Hmono. lia.
Defined.

(** C5.  For every policy: a round that completes adds exactly 1 to the
    pull count of the arm it chose and leaves every other count as it was;
    and when [run(n)], n >= 0, completes on an object fresh from
    [AbstractMABAlgorithm.__init__], the pull counts add up to n. *)
Theorem pull_counts_sum {B : Type} `{MABAlgorithm B} (np : numpy) :
  (forall it (s s' : agent B) g g' arm,
      run_iteration np it s g = Ok (s', g', arm) ->
      exists k count,
        normalize_index (length (AbstractMABAlgorithm.N_a (base s))) arm = Ok k
        /\ AbstractMABAlgorithm.N_a (base s) !! k = Some count
        /\ AbstractMABAlgorithm.N_a (base s') !! k = Some (count + 1)
        /\ (forall j, j <> k ->
              AbstractMABAlgorithm.N_a (base s') !! j
              = AbstractMABAlgorithm.N_a (base s) !! j)
        /\ length (AbstractMABAlgorithm.N_a (base s'))
           = length (AbstractMABAlgorithm.N_a (base s)))
  /\ (forall problem (s0 s : agent B) n g g',
        base s0 = AbstractMABAlgorithm.init problem ->
        0 <= n ->
        run np n s0 g = Ok (s, g') ->
        sum_counts (AbstractMABAlgorithm.N_a (base s)) = n).
Proof.
  split.
  - intros it s s' g g' arm Hrun.
    apply run_iteration_counts in Hrun as (k & count & Hk & Hcount & ->).
    exists k, count. split; [exact Hk|]. split; [exact Hcount|].
    apply lookup_lt_Some in Hcount as Hlt. split; [|split].
    + apply list_lookup_insert_eq, Hlt.
    + intros j Hj. apply list_lookup_insert_ne. congruence.
    + apply length_insert.
  - intros problem s0 s n g g' Hbase Hn Hrun.
    apply run_Ok in Hrun as (arms & Hrun).
    apply run_over_counts in Hrun. rewrite Hrun, Hbase, length_range. simpl.
    rewrite sum_counts_replicate. lia.
Qed.

Lemma pull_counts_sum_witness :
  (exists s g',
      run fixed_numpy 5 (UniformExploration.init FruitMachine 1) 0%nat = Ok (s, g')
      /\ sum_counts (AbstractMABAlgorithm.N_a (base s)) = 5)
  /\ exists k count,
       normalize_index 3 0 = Ok k
       /\ [0; 0; 0] !! k = Some count
       /\ [1; 0; 0] !! k = Some (count + 1).
Proof.
  split.
  - eexists _, _. split; [vm_compute; reflexivity|].
    refine (proj2 (pull_counts_sum fixed_numpy) FruitMachine
              (UniformExploration.init FruitMachine 1) _ 5 0%nat _ _ _ _).
    + reflexivity.
    + lia.
    + vm_compute. reflexivity.
  - assert (run_iteration fixed_numpy 0 (UniformExploration.init FruitMachine 1) 0%nat
            = Ok (_, _, 0)) as Hround by (vm_compute; reflexivity).
    destruct (proj1 (pull_counts_sum fixed_numpy) _ _ _ _ _ _ Hround)
      as (k & count & Hk & Hcount & Hcount' & _).
    exists k, count. auto.
Defined.

(** C6.  Uniform exploration, on a machine built by the constructor:
    [choose_arm] returns the lowest index among the arms with the smallest
    pull count (and draws nothing); and [run(n)] on a fresh object completes
    for every n with [max(pullCount) - min(pullCount) <= 1]. *)
Theorem UniformExploration_balanced (np : numpy) (dist : option (list Q))
    (g0 g1 : RandomState) (problem : FruitSlotMachine.t) (initial : Q) :
  FruitSlotMachine.init np dist g0 = Ok (problem, g1) ->
  (forall b self g,
      AbstractMABAlgorithm.N_a b <> [] ->
      exists k,
        UniformExploration.choose_arm np b self g = Ok (Z.of_nat k, g)
        /\ first_argmin (AbstractMABAlgorithm.N_a b) k)
  /\ (forall n g,
        exists s g',
          run np n (UniformExploration.init problem initial) g = Ok (s, g')
          /\ max_count (AbstractMABAlgorithm.N_a (base s))
             - min_count (AbstractMABAlgorithm.N_a (base s)) <= 1).
Proof.
  intros Hinit. split.
  - intros b self g Hne. apply UniformExploration_choose, Hne.
  - intros n g.
    destruct (UniformExploration_run np dist g0 g1 problem initial n g Hinit)
      as (s & g' & Hrun & Hwf & _ & Hbal).
    exists s, g'. split; [exact Hrun|]. apply balanced_spread; [|exact Hbal].
    destruct Hwf as (_ & _ & Hpos & _).
    destruct (AbstractMABAlgorithm.N_a (base s)); simpl in *; [lia|congruence].
Qed.

Lemma UniformExploration_balanced_witness :
  (exists k,
      UniformExploration.choose_arm fixed_numpy
        (AbstractMABAlgorithm.set_N_a [2; 1; 1] (AbstractMABAlgorithm.init FruitMachine))
        (belief (UniformExploration.init FruitMachine 1)) 0%nat
      = Ok (Z.of_nat k, 0%nat)
      /\ first_argmin [2; 1; 1] k)
  /\ exists s g',
       run fixed_numpy 7 (UniformExploration.init FruitMachine 1) 0%nat = Ok (s, g')
       /\ max_count (AbstractMABAlgorithm.N_a (base s))
          - min_count (AbstractMABAlgorithm.N_a (base s)) <= 1.
Proof.
  split.
  - apply (proj1 (UniformExploration_balanced fixed_numpy
                    (Some [3 # 10; 5 # 10; 7 # 10]%Q) 0%nat 0%nat FruitMachine 1
                    (FruitMachine_init 0%nat))
             (AbstractMABAlgorithm.set_N_a [2; 1; 1]
                (AbstractMABAlgorithm.init FruitMachine))).
    discriminate.
  - exact (proj2 (UniformExploration_balanced fixed_numpy
                    (Some [3 # 10; 5 # 10; 7 # 10]%Q) 0%nat 0%nat FruitMachine 1
                    (FruitMachine_init 0%nat)) 7 0%nat).
Defined.

(** C7.  Bayesian UCB and Thompson sampling, on a machine built by the
    constructor, with both initial parameters equal to a whole number
    [k >= 0] (the default 1 among them) and [2 k + n] within
    [float_exact_bound], so that every number involved is a whole number the
    code's floats hold exactly.
    [update_belief(arm, reward)] with a reward 0 or 1, on whole parameters
    below the bound, adds 1 to exactly one of [a[arm]], [b[arm]] (to [a] on
    a success, to [b] on a failure) and leaves the other and every other
    position as it was, and the parameters stay whole and within the bound.
    Whenever [run(n)] on a fresh object completes, the parameters are whole
    numbers within the bound and every arm has
    [a + b == pullCount + 2 * k]; and for [k > 0], [run(n)] does complete. *)
Theorem beta_parameters_count (np : numpy) (dist : option (list Q))
    (g0 g1 : RandomState) (problem : FruitSlotMachine.t) (sigma : Q)
    (k n : Z) (g : RandomState) :
  FruitSlotMachine.init np dist g0 = Ok (problem, g1) ->
  0 <= n -> 0 <= k -> 2 * k + n <= float_exact_bound ->
  let c := inject_Z k in
  (forall base self arm reward self',
      length (BayesianUCB.a self) = length (BayesianUCB.b self) ->
      reward = 0 \/ reward = 1 ->
      whole_within (float_exact_bound - 1) (BayesianUCB.a self) ->
      whole_within (float_exact_bound - 1) (BayesianUCB.b self) ->
      BayesianUCB.update_belief base self arm reward = Ok self' ->
      bernoulli_increment (BayesianUCB.a self) (BayesianUCB.b self)
        (BayesianUCB.a self') (BayesianUCB.b self') arm reward
      /\ whole_within float_exact_bound (BayesianUCB.a self')
      /\ whole_within float_exact_bound (BayesianUCB.b self'))
  /\ (forall base self arm reward self',
        length (ThompsonSamping.a self) = length (ThompsonSamping.b self) ->
        reward = 0 \/ reward = 1 ->
        whole_within (float_exact_bound - 1) (ThompsonSamping.a self) ->
        whole_within (float_exact_bound - 1) (ThompsonSamping.b self) ->
        ThompsonSamping.update_belief base self arm reward = Ok self' ->
        bernoulli_increment (ThompsonSamping.a self) (ThompsonSamping.b self)
          (ThompsonSamping.a self') (ThompsonSamping.b self') arm reward
        /\ whole_within float_exact_bound (ThompsonSamping.a self')
        /\ whole_within float_exact_bound (ThompsonSamping.b self'))
  /\ (forall s g',
        run np n (BayesianUCB.init problem sigma c c) g = Ok (s, g') ->
        whole_within float_exact_bound (BayesianUCB.a (belief s))
        /\ whole_within float_exact_bound (BayesianUCB.b (belief s))
        /\ forall i count x y,
             AbstractMABAlgorithm.N_a (base s) !! i = Some count ->
             BayesianUCB.a (belief s) !! i = Some x ->
             BayesianUCB.b (belief s) !! i = Some y ->
             (x + y == inject_Z count + 2 * c)%Q)
  /\ (forall s g',
        run np n (ThompsonSamping.init problem c c) g = Ok (s, g') ->
        whole_within float_exact_bound (ThompsonSamping.a (belief s))
        /\ whole_within float_exact_bound (ThompsonSamping.b (belief s))
        /\ forall i count x y,
             AbstractMABAlgorithm.N_a (base s) !! i = Some count ->
             ThompsonSamping.a (belief s) !! i = Some x ->
             ThompsonSamping.b (belief s) !! i = Some y ->
             (x + y == inject_Z count + 2 * c)%Q)
  /\ (0 < k ->
      (exists s g', run np n (BayesianUCB.init problem sigma c c) g = Ok (s, g'))
      /\ (exists s g', run np n (ThompsonSamping.init problem c c) g = Ok (s, g'))).
Proof.
  intros Hinit Hn Hk Hbound c.
  pose proof (beta_inv_init np dist g0 g1 problem c c Hinit) as Hinv.
  split; [|split; [|split; [|split]]].
  - intros base self arm reward self' Hlen Hreward Ha Hb Hup.
    apply BayesianUCB_update_is_beta in Hup.
    pose proof (beta_update_increment _ _ _ _ _ _ Hlen Hreward Hup) as Hinc.
    split; [exact Hinc|]. eapply bernoulli_increment_whole; eassumption.
  - intros base self arm reward self' Hlen Hreward Ha Hb Hup.
    apply ThompsonSamping_update_is_beta in Hup.
    pose proof (beta_update_increment _ _ _ _ _ _ Hlen Hreward Hup) as Hinc.
    split; [exact Hinc|]. eapply bernoulli_increment_whole; eassumption.
  - intros s g' Hrun.
    exact (beta_run_count (H := BayesianUCB.methods) np
             BayesianUCB.a BayesianUCB.b BayesianUCB_update_is_beta
             problem float_exact_bound k n
             (BayesianUCB.init problem sigma c c) s g g'
             eq_refl Hinv eq_refl eq_refl Hn Hk Hbound Hrun).
  - intros s g' Hrun.
    exact (beta_run_count (H := ThompsonSamping.methods) np
             ThompsonSamping.a ThompsonSamping.b ThompsonSamping_update_is_beta
             problem float_exact_bound k n
             (ThompsonSamping.init problem c c) s g g'
             eq_refl Hinv eq_refl eq_refl Hn Hk Hbound Hrun).
  - intros Hpos.
    assert (0 < c)%Q as Hc by (subst c; rewrite Zlt_Qlt in Hpos; exact Hpos).
    assert (positive (full (FruitSlotMachine.num_arms problem) c)) as Hp
      by (apply positive_replicate, Hc).
    split.
    + destruct (run_total np
                  (fun s => BayesianUCB_inv c c s
                            /\ positive (BayesianUCB.a (belief s))
                            /\ positive (BayesianUCB.b (belief s))))
        with (n := n) (s := BayesianUCB.init problem sigma c c) (g := g)
        as (s & g' & Hrun & _).
      * intros it s g2 (Hi & Hpa & Hpb). apply BayesianUCB_round; assumption.
      * split; [exact Hinv|]. split; exact Hp.
      * eauto.
    + destruct (run_total np
                  (fun s => ThompsonSamping_inv c c s
                            /\ positive (ThompsonSamping.a (belief s))
                            /\ positive (ThompsonSamping.b (belief s))))
        with (n := n) (s := ThompsonSamping.init problem c c) (g := g)
        as (s & g' & Hrun & _).
      * intros it s g2 (Hi & Hpa & Hpb). apply ThompsonSamping_round; assumption.
      * split; [exact Hinv|]. split; exact Hp.
      * eauto.
Qed.

Lemma beta_parameters_count_witness :
  (exists self',
      ThompsonSamping.update_belief (base thompson_after_24)
        (belief thompson_after_24) 2 1 = Ok self'
      /\ bernoulli_increment [1; 1; 9]%Q [9; 9; 1]%Q
           (ThompsonSamping.a self') (ThompsonSamping.b self') 2 1)
  /\ (exists self',
        BayesianUCB.update_belief (base thompson_after_24)
          (belief (BayesianUCB.init FruitMachine 3 1 1)) 0 0 = Ok self'
        /\ bernoulli_increment [1; 1; 1]%Q [1; 1; 1]%Q
             (BayesianUCB.a self') (BayesianUCB.b self') 0 0)
  /\ (exists s1 g1,
        run fixed_numpy 4 (BayesianUCB.init FruitMachine 3 1 1) 0%nat = Ok (s1, g1))
  /\ exists s g',
       run fixed_numpy 4 (ThompsonSamping.init FruitMachine 1 1) 0%nat = Ok (s, g')
       /\ forall i count x y,
            AbstractMABAlgorithm.N_a (base s) !! i = Some count ->
            ThompsonSamping.a (belief s) !! i = Some x ->
            ThompsonSamping.b (belief s) !! i = Some y ->
            (x + y == inject_Z count + 2 * inject_Z 1)%Q.
Proof.
  assert (0 <= 4) as Hn by lia. assert (0 <= 1) as Hk by lia.
  assert (2 * 1 + 4 <= float_exact_bound) as Hbound
    by (unfold float_exact_bound; lia).
  pose proof (beta_parameters_count fixed_numpy (Some [3 # 10; 5 # 10; 7 # 10]%Q)
                0%nat 0%nat FruitMachine 3 1 4 0%nat (FruitMachine_init 0%nat)
                Hn Hk Hbound)
    as (Hbayes & Hthompson & _ & Hcount & Htotal).
  assert (forall zs : list Z,
             Forall (fun z => - (float_exact_bound - 1) <= z <= float_exact_bound - 1) zs ->
             whole_within (float_exact_bound - 1) (map inject_Z zs)) as Hwhole.
  { intros zs Hzs. induction Hzs as [|z zs Hz _ IH]; constructor; [|exact IH].
    exists z. split; [reflexivity|exact Hz]. }
  assert (forall zs : list Z,
             Forall (fun z => -10 <= z <= 10) zs ->
             whole_within (float_exact_bound - 1) (map inject_Z zs)) as Hsmall.
  { intros zs Hzs. apply Hwhole. eapply Forall_impl; [exact Hzs|].
    intros z Hz. simpl in Hz. unfold float_exact_bound. lia. }
  split; [|split; [|split]].
  - eexists. split; [vm_compute; reflexivity|].
    apply (Hthompson (base thompson_after_24) (belief thompson_after_24) 2 1).
    + reflexivity.
    + right. reflexivity.
    + apply (Hsmall [1; 1; 9]). repeat constructor; lia.
    + apply (Hsmall [9; 9; 1]). repeat constructor; lia.
    + vm_compute. reflexivity.
  - eexists. split; [vm_compute; reflexivity|].
    apply (Hbayes (base thompson_after_24)
             (belief (BayesianUCB.init FruitMachine 3 1 1)) 0 0).
    + reflexivity.
    + left. reflexivity.
    + apply (Hsmall [1; 1; 1]). repeat constructor; lia.
    + apply (Hsmall [1; 1; 1]). repeat constructor; lia.
    + vm_compute. reflexivity.
  - apply Htotal. lia.
  - eexists _, _. split; [vm_compute; reflexivity|].
    refine (proj2 (proj2 (Hcount _ _ _))). vm_compute. reflexivity.
Defined.

(** C8.  The constructor of epsilon-greedy, given a number [eps]: it returns
    the object, holding [eps], when [0 <= eps <= 1], and raises (Python's
    [AssertionError], from the [assert] in [__init__] itself) otherwise. *)
Theorem EpsilonGreedy_init_range (problem : FruitSlotMachine.t) (eps initial : Q) :
  ((0 <= eps)%Q /\ (eps <= 1)%Q ->
   exists s,
     EpsilonGreedy.init problem (Some eps) initial = Ok s
     /\ EpsilonGreedy.epsilon (belief s) = Some eps)
  /\ (~ ((0 <= eps)%Q /\ (eps <= 1)%Q) ->
      EpsilonGreedy.init problem (Some eps) initial = Raise AssertionError).
Proof.
  unfold EpsilonGreedy.init. split.
  - intros [Hlo Hhi]. apply Qle_bool_iff in Hlo, Hhi. rewrite Hlo, Hhi. simpl. eauto.
  - intros Hout.
    destruct (Qle_bool 0 eps) eqn:Hlo; [|reflexivity].
    destruct (Qle_bool eps 1) eqn:Hhi; [|reflexivity].
    exfalso. apply Hout. split; apply Qle_bool_iff; assumption.
Qed.

Lemma EpsilonGreedy_init_range_witness :
  (exists s,
      EpsilonGreedy.init FruitMachine (Some (1 # 2)) 1 = Ok s
      /\ EpsilonGreedy.epsilon (belief s) = Some (1 # 2))
  /\ EpsilonGreedy.init FruitMachine (Some (3 # 2)) 1 = Raise AssertionError.
Proof.
  split.
  - apply (proj1 (EpsilonGreedy_init_range FruitMachine (1 # 2) 1)).
    split; discriminate.
  - apply (proj2 (EpsilonGreedy_init_range FruitMachine (3 # 2) 1)).
    intros [_ Hhi]. apply Hhi. reflexivity.
Defined.

(** C9.  On a machine built by the constructor, [run(n)] on a fresh object
    never divides by zero in the running mean: it completes for uniform
    exploration and for UCB1, and for epsilon-greedy it completes whenever
    [epsilon] is a number and never raises a division by zero; the only
    division of the update is by [N_a[arm]], so it divides by zero only
    when that count is 0, and in a round the count was just incremented. *)
Theorem running_mean_never_divides_by_zero (np : numpy) (dist : option (list Q))
    (g0 g1 : RandomState) (problem : FruitSlotMachine.t) (initial : Q)
    (n : Z) (g : RandomState) :
  FruitSlotMachine.init np dist g0 = Ok (problem, g1) ->
  (exists s g', run np n (UniformExploration.init problem initial) g = Ok (s, g'))
  /\ (forall eps s0,
        EpsilonGreedy.init problem eps initial = Ok s0 ->
        run np n s0 g <> Raise ZeroDivisionError
        /\ (is_Some eps -> exists s g', run np n s0 g = Ok (s, g')))
  /\ (exists s g', run np n (UCB.init problem initial) g = Ok (s, g'))
  /\ (forall counts probabilities arm reward,
        running_mean_update counts probabilities arm reward = Raise ZeroDivisionError ->
        getitem counts arm = Ok 0).
Proof.
  intros Hinit. split; [|split; [|split]].
  - destruct (UniformExploration_run np dist g0 g1 problem initial n g Hinit)
      as (s & g' & Hrun & _).
    eauto.
  - intros eps s0 Hs0.
    assert (is_Some eps -> exists s g', run np n s0 g = Ok (s, g')) as Htotal.
    { intros [e ->].
      destruct (run_total np EpsilonGreedy_inv) with (n := n) (s := s0) (g := g)
        as (s & g' & Hrun & _).
      - intros it s g2 Hs. apply EpsilonGreedy_round, Hs.
      - eapply EpsilonGreedy_init_inv; eassumption.
      - eauto. }
    split; [|exact Htotal].
    destruct eps as [e|].
    + destruct Htotal as (s & g' & ->); [eauto|]. discriminate.
    + apply EpsilonGreedy_init_Ok in Hs0 as (_ & Heps & _).
      destruct (EpsilonGreedy_None_run np n s0 g Heps) as [-> | ->]; discriminate.
  - destruct (run_total np (UCB_inv initial)) with
      (n := n) (s := UCB.init problem initial) (g := g) as (s & g' & Hrun & _).
    + intros it s g2 Hs. apply UCB_round, Hs.
    + eapply UCB_init_inv, Hinit.
    + eauto.
  - apply running_mean_update_zero.
Qed.

Lemma running_mean_never_divides_by_zero_witness :
  (exists s g', run fixed_numpy 6 (UCB.init FruitMachine 1) 0%nat = Ok (s, g'))
  /\ (exists s0,
        EpsilonGreedy.init FruitMachine (Some (1 # 2)) 1 = Ok s0
        /\ exists s g', run fixed_numpy 6 s0 0%nat = Ok (s, g'))
  /\ getitem [0; 0; 0] 0 = Ok 0.
Proof.
  pose proof (running_mean_never_divides_by_zero fixed_numpy
                (Some [3 # 10; 5 # 10; 7 # 10]%Q) 0%nat 0%nat FruitMachine 1 6 0%nat
                (FruitMachine_init 0%nat))
    as (_ & Hgreedy & Hucb & Hzero).
  split; [exact Hucb|]. split.
  - eexists. split; [reflexivity|].
    apply (Hgreedy (Some (1 # 2))); [reflexivity|]. eexists. reflexivity.
  - apply (Hzero [0; 0; 0] [1; 1; 1]%Q 0 1). reflexivity.
Defined.

(** C10.  The constructor of epsilon-greedy accepts [epsilon = None]: it
    returns the object, holding [None], without raising; and on that object
    [choose_arm] raises (Python's [TypeError], from comparing a float with
    [None]), whatever the generator gives. *)
Theorem EpsilonGreedy_init_None (problem : FruitSlotMachine.t) (initial : Q) :
  exists s,
    EpsilonGreedy.init problem None initial = Ok s
    /\ EpsilonGreedy.epsilon (belief s) = None
    /\ forall np b g, EpsilonGreedy.choose_arm np b (belief s) g = Raise TypeError.
Proof.
  eexists. split; [reflexivity|]. split; [reflexivity|].
  intros np b g. reflexivity.
Qed.

(** * Further properties of the code *)

(** ** The constructor of the machine *)

Lemma fold_max_elem_Q (l : list Q) (x : Q) :
  fold_left (fun m y => if Qlt_bool m y then y else m) l x = x
  \/ fold_left (fun m y => if Qlt_bool m y then y else m) l x ∈ l.
Proof.
  revert x. induction l as [|y l IH]; intros x; simpl; [auto|].
  destruct (Qlt_bool x y).
  - destruct (IH y) as [-> | Hin]; right; [left|right; exact Hin].
  - destruct (IH x) as [-> | Hin]; [left; reflexivity|right; right; exact Hin].
Qed.

Lemma py_max_elem (l : list Q) (m : Q) : py_max l = Ok m -> m ∈ l.
Proof.
  destruct l as [|x l]; [discriminate|]. intros [= <-].
  destruct (fold_max_elem_Q l x) as [-> | Hin]; [left|right; exact Hin].
Qed.

Lemma py_max_total (l : list Q) : l <> [] -> exists m, py_max l = Ok m.
Proof. destruct l as [|x l]; [congruence|]. intros _. simpl. eauto. Qed.

(** [FruitSlotMachine(distribution)] with a list: it raises
    [AssertionError] unless the list has exactly three entries; with three
    entries it keeps the list as it is, has three arms, makes no draw, and
    its [best_cumulative_reward] is an entry of the list that no entry
    exceeds. *)
Theorem FruitSlotMachine_init_list (np : numpy) (d : list Q) (g : RandomState) :
  (length d <> 3%nat -> FruitSlotMachine.init np (Some d) g = Raise AssertionError)
  /\ (length d = 3%nat ->
      exists problem,
        FruitSlotMachine.init np (Some d) g = Ok (problem, g)
        /\ FruitSlotMachine.num_arms problem = 3
        /\ FruitSlotMachine.distribution problem = d
        /\ FruitSlotMachine.best_cumulative_reward problem ∈ d
        /\ forall x, x ∈ d -> (x <= FruitSlotMachine.best_cumulative_reward problem)%Q).
Proof.
  unfold FruitSlotMachine.init. split.
  - intros Hlen.
    assert ((Z.of_nat (length d) =? 3) = false) as -> by (apply Z.eqb_neq; lia).
    reflexivity.
  - intros Hlen. rewrite Hlen. simpl.
    destruct (py_max_total d) as [best Hbest].
    { destruct d; [discriminate|congruence]. }
    rewrite Hbest. simpl. eexists. split; [reflexivity|]. simpl.
    repeat split.
    + eapply py_max_elem, Hbest.
    + intros x Hx. eapply py_max_ge; eassumption.
Qed.

Lemma FruitSlotMachine_init_list_witness :
  FruitSlotMachine.init fixed_numpy (Some [1 # 2; 1 # 2]%Q) 0%nat = Raise AssertionError
  /\ exists problem,
       FruitSlotMachine.init fixed_numpy (Some [3 # 10; 5 # 10; 7 # 10]%Q) 4%nat
       = Ok (problem, 4%nat)
       /\ FruitSlotMachine.num_arms problem = 3
       /\ FruitSlotMachine.distribution problem = [3 # 10; 5 # 10; 7 # 10]%Q
       /\ FruitSlotMachine.best_cumulative_reward problem ∈ [3 # 10; 5 # 10; 7 # 10]%Q
       /\ forall x, x ∈ [3 # 10; 5 # 10; 7 # 10]%Q ->
                    (x <= FruitSlotMachine.best_cumulative_reward problem)%Q.
Proof.
  split.
  - apply (proj1 (FruitSlotMachine_init_list fixed_numpy [1 # 2; 1 # 2]%Q 0%nat)).
    simpl. lia.
  - apply (proj2 (FruitSlotMachine_init_list fixed_numpy
                    [3 # 10; 5 # 10; 7 # 10]%Q 4%nat)).
    reflexivity.
Defined.

(** [FruitSlotMachine()] without a list never raises: it makes exactly
    three draws, which become the success probabilities of the three arms in
    the order drawn, and its [best_cumulative_reward] is one of them that
    none exceeds. *)
Theorem FruitSlotMachine_init_random (np : numpy) (g : RandomState) :
  exists problem,
    FruitSlotMachine.init np None g = Ok (problem, (g + 3)%nat)
    /\ FruitSlotMachine.num_arms problem = 3
    /\ FruitSlotMachine.distribution problem
       = [random_sample np g; random_sample np (g + 1)%nat;
          random_sample np (g + 2)%nat]
    /\ FruitSlotMachine.best_cumulative_reward problem
       ∈ FruitSlotMachine.distribution problem
    /\ forall x, x ∈ FruitSlotMachine.distribution problem ->
                 (x <= FruitSlotMachine.best_cumulative_reward problem)%Q.
Proof.
  unfold FruitSlotMachine.init. simpl. rewrite Nat.add_0_r.
  eexists. split; [reflexivity|]. simpl.
  split; [reflexivity|]. split; [reflexivity|]. split.
  - apply (py_max_elem [random_sample np g; random_sample np (g + 1)%nat;
                        random_sample np (g + 2)%nat]).
    reflexivity.
  - intros x Hx.
    apply (py_max_ge [random_sample np g; random_sample np (g + 1)%nat;
                      random_sample np (g + 2)%nat]); [reflexivity|exact Hx].
Qed.

(** ** The loop on its edges *)

(** [run(n)] with [n <= 0] does nothing, whatever the policy: the object
    and the generator are returned as they were (not even [self.iteration]
    is set). *)
Theorem run_nonpositive {B : Type} `{MABAlgorithm B} (np : numpy) (n : Z)
    (s : agent B) (g : RandomState) :
  n <= 0 -> run np n s g = Ok (s, g).
Proof.
  intros Hn. unfold run, run_trace, range.
  replace (Z.to_nat n) with 0%nat by lia. reflexivity.
Qed.

Lemma run_nonpositive_witness :
  run fixed_numpy (-2) (UCB.init FruitMachine 1) 5%nat
  = Ok (UCB.init FruitMachine 1, 5%nat).
Proof. apply run_nonpositive. lia. Defined.

(** An object of the base class itself cannot play a round: [run(n)] with
    [n >= 1] raises [NotImplementedError], whatever the machine. *)
Theorem AbstractMABAlgorithm_run_not_implemented (np : numpy) (n : Z)
    (s : agent unit) (g : RandomState) :
  1 <= n -> run np n s g = Raise NotImplementedError.
Proof.
  intros Hn. unfold run, run_trace, range.
  replace (Z.to_nat n) with (S (Z.to_nat (n - 1))) by lia. reflexivity.
Qed.

Lemma AbstractMABAlgorithm_run_not_implemented_witness :
  run fixed_numpy 3
    {| base := AbstractMABAlgorithm.init FruitMachine; belief := tt |} 0%nat
  = Raise NotImplementedError.
Proof. apply AbstractMABAlgorithm_run_not_implemented. lia. Defined.

(** [run] can be called again on the object it returns.  After [run(n)]
    and then [run(m)] on a fresh object, for any policy: the pull counts add
    up to [n + m], the regret history has [n + m + 1] entries, the history
    of the first run is a prefix of the history of the second (entries are
    only ever appended), and the object still refers to the same machine. *)
Theorem run_twice {B : Type} `{MABAlgorithm B} (np : numpy)
    (problem : FruitSlotMachine.t) (s0 s1 s2 : agent B) (n m : Z)
    (g g1 g2 : RandomState) :
  base s0 = AbstractMABAlgorithm.init problem ->
  0 <= n -> 0 <= m ->
  run np n s0 g = Ok (s1, g1) ->
  run np m s1 g1 = Ok (s2, g2) ->
  sum_counts (AbstractMABAlgorithm.N_a (base s2)) = n + m
  /\ length (AbstractMABAlgorithm.regret_history (base s2)) = S (Z.to_nat (n + m))
  /\ AbstractMABAlgorithm.regret_history (base s1)
     `prefix_of` AbstractMABAlgorithm.regret_history (base s2)
  /\ AbstractMABAlgorithm.MABproblem (base s2) = problem.
Proof.
  intros Hbase Hn Hm Hrun1 Hrun2.
  apply run_Ok in Hrun1 as (arms1 & Hrun1). apply run_Ok in Hrun2 as (arms2 & Hrun2).
  pose proof (run_over_counts np _ _ _ _ _ _ Hrun1) as Hsum1.
  pose proof (run_over_counts np _ _ _ _ _ _ Hrun2) as Hsum2.
  apply run_over_regret in Hrun1 as (ps1 & Harms1 & Hlen1 & Hproblem1 & Hhist1 & _).
  apply run_over_regret in Hrun2 as (ps2 & Harms2 & Hlen2 & Hproblem2 & Hhist2 & _).
  rewrite length_range in *. rewrite Hbase in *. simpl in *.
  rewrite sum_counts_replicate in Hsum1.
  apply Forall2_length in Harms1, Harms2.
  split; [lia|]. split; [|split].
  - rewrite Hhist2, Hhist1. simpl.
    rewrite length_app, !length_regret_after. lia.
  - rewrite Hhist2. eexists. reflexivity.
  - congruence.
Qed.

Lemma run_twice_witness :
  exists s1 g1 s2 g2,
    run fixed_numpy 2 (UCB.init FruitMachine 1) 0%nat = Ok (s1, g1)
    /\ run fixed_numpy 3 s1 g1 = Ok (s2, g2)
    /\ sum_counts (AbstractMABAlgorithm.N_a (base s2)) = 2 + 3.
Proof.
  eexists _, _, _, _. split; [vm_compute; reflexivity|].
  split; [vm_compute; reflexivity|].
  refine (proj1 (run_twice fixed_numpy FruitMachine (UCB.init FruitMachine 1)
                   _ _ 2 3 0%nat _ _ eq_refl _ _ _ _)).
  - lia.
  - lia.
  - vm_compute. reflexivity.
  - vm_compute. reflexivity.
Defined.

(** ** Uniform exploration is a round robin *)

Lemma round_robin_cases (m : Z) :
  0 <= m ->
  (m mod 3 = 0 /\ (m + 1) / 3 = m / 3 /\ (m + 2) / 3 = m / 3
   /\ (m + 1 + 2) / 3 = m / 3 + 1)
  \/ (m mod 3 = 1 /\ (m + 1) / 3 = m / 3 /\ (m + 2) / 3 = m / 3 + 1
      /\ (m + 1 + 2) / 3 = m / 3 + 1)
  \/ (m mod 3 = 2 /\ (m + 1) / 3 = m / 3 + 1 /\ (m + 2) / 3 = m / 3 + 1
      /\ (m + 1 + 2) / 3 = m / 3 + 1).
Proof. intros Hm. Z.div_mod_to_equations. lia. Qed.

Lemma argmin_round_robin (m : Z) :
  0 <= m -> argmin (round_robin_counts m) = Ok (m mod 3).
Proof.
  intros Hm. unfold round_robin_counts, argmin.
  destruct (round_robin_cases m Hm)
    as [(-> & -> & -> & _)|[(-> & -> & -> & _)|(-> & -> & -> & _)]]; simpl.
  - rewrite Z.ltb_irrefl. reflexivity.
  - assert ((m / 3 <? m / 3 + 1) = true) as -> by (apply Z.ltb_lt; lia).
    rewrite Z.ltb_irrefl. reflexivity.
  - rewrite Z.ltb_irrefl.
    assert ((m / 3 <? m / 3 + 1) = true) as -> by (apply Z.ltb_lt; lia).
    reflexivity.
Qed.

Lemma round_robin_counts_succ (m : Z) (k : nat) (n : Z) :
  0 <= m ->
  k = Z.to_nat (m mod 3) ->
  round_robin_counts m !! k = Some n ->
  <[k := n + 1]> (round_robin_counts m) = round_robin_counts (m + 1).
Proof.
  intros Hm -> Hn. unfold round_robin_counts in *.
  replace (m + 1 + 1) with (m + 2) by lia.
  destruct (round_robin_cases m Hm)
    as [(Hr & H1 & H2 & H3)|[(Hr & H1 & H2 & H3)|(Hr & H1 & H2 & H3)]];
    rewrite Hr in *; rewrite H3; rewrite H1, H2 in *;
    simpl in Hn; injection Hn as <-; reflexivity.
Qed.

Lemma UniformExploration_round_robin_over (np : numpy) (its : list Z) (m : Z)
    (s s' : agent UniformExploration.t) (g g' : RandomState) (arms : list Z) :
  0 <= m ->
  AbstractMABAlgorithm.N_a (base s) = round_robin_counts m ->
  run_over np its s g = Ok (s', g', arms) ->
  arms = map (fun j => (m + Z.of_nat j) mod 3) (seq 0 (length its))
  /\ AbstractMABAlgorithm.N_a (base s') = round_robin_counts (m + Z.of_nat (length its)).
Proof.
  revert m s g arms. induction its as [|it its IH]; intros m s g arms Hm HN Hrun.
  - injection Hrun as <- <- <-. simpl. rewrite Z.add_0_r. auto.
  - simpl in Hrun.
    apply bind_Ok in Hrun as ([[s1 g1] arm] & Hround & Hrun).
    apply bind_Ok in Hrun as ([[s2 g2] arms2] & Hrest & [= <- <- <-]).
    apply run_iteration_Ok in Hround
      as (g3 & reward & k & n & p & bel & Hchoose & _ & Hk & Hn & _ & _ & ->).
    simpl in Hchoose. unfold UniformExploration.choose_arm in Hchoose. simpl in Hchoose.
    rewrite HN, argmin_round_robin in Hchoose by exact Hm.
    injection Hchoose as <- _.
    pose proof (Z.mod_pos_bound m 3 ltac:(lia)) as Hmod.
    rewrite HN in Hk, Hn. simpl length in Hk.
    rewrite normalize_index_nonneg in Hk by (simpl; lia). injection Hk as <-.
    apply IH with (m := m + 1) in Hrest; [|lia|].
    2:{ simpl. rewrite HN. apply round_robin_counts_succ; auto. }
    destruct Hrest as [-> ->]. split.
    + simpl. rewrite Z.add_0_r. f_equal.
      rewrite <- seq_shift, map_map. apply map_ext. intros j. f_equal. lia.
    + f_equal. simpl length. lia.
Qed.

(** Uniform exploration on a machine built by the constructor, from a fresh
    object: [run(n)], n >= 0, completes and pulls the arms in turn, arm
    [i mod 3] in round [i] (counting from 0), so that arm [a] has been
    pulled [(n + 2 - a) / 3] times, whatever the rewards were. *)
Theorem UniformExploration_round_robin (np : numpy) (dist : option (list Q))
    (g0 g1 : RandomState) (problem : FruitSlotMachine.t) (initial : Q)
    (n : Z) (g : RandomState) :
  FruitSlotMachine.init np dist g0 = Ok (problem, g1) ->
  0 <= n ->
  exists s g',
    run_trace np n (UniformExploration.init problem initial) g
    = Ok (s, g', map (fun i => i mod 3) (range n))
    /\ AbstractMABAlgorithm.N_a (base s) = round_robin_counts n.
Proof.
  intros Hinit Hn.
  destruct (UniformExploration_run np dist g0 g1 problem initial n g Hinit)
    as (s & g' & Hrun & _).
  apply run_Ok in Hrun as (arms & Hrun).
  apply FruitSlotMachine_init_Ok in Hinit as (Harms & _).
  pose proof Hrun as Hrun'.
  apply (UniformExploration_round_robin_over np _ 0) in Hrun' as [Harm HN];
    [|lia|simpl; rewrite Harms; reflexivity].
  exists s, g'. split.
  - rewrite Hrun. repeat f_equal. rewrite Harm, length_range.
    unfold range. rewrite map_map. reflexivity.
  - rewrite HN, length_range. f_equal. lia.
Qed.

Lemma UniformExploration_round_robin_witness :
  exists s g',
    run_trace fixed_numpy 7 (UniformExploration.init FruitMachine 1) 0%nat
    = Ok (s, g', [0; 1; 2; 0; 1; 2; 0])
    /\ AbstractMABAlgorithm.N_a (base s) = [3; 2; 2].
Proof.
  apply (UniformExploration_round_robin fixed_numpy (Some [3 # 10; 5 # 10; 7 # 10]%Q)
           0%nat 0%nat FruitMachine 1 7 0%nat (FruitMachine_init 0%nat)).
  lia.
Defined.

(** ** Only the pulled arm's estimate changes *)

Section KeepFacts.

Context {B : Type} `{MABAlgorithm B} (np : numpy).
Context (estimates : B -> list Q).
Hypothesis update_is_mean :
  forall base self arm reward self',
    update_belief base self arm reward = Ok self' ->
    running_mean_update (AbstractMABAlgorithm.N_a base) (estimates self) arm reward
    = Ok (estimates self').

Import AbstractMABAlgorithm.

Lemma round_changes_one_estimate (it : Z) (s s' : agent B) (g g' : RandomState)
    (arm : Z) :
  run_iteration np it s g = Ok (s', g', arm) ->
  exists k,
    normalize_index (length (estimates (belief s))) arm = Ok k
    /\ length (estimates (belief s')) = length (estimates (belief s))
    /\ forall j, j <> k -> estimates (belief s') !! j = estimates (belief s) !! j.
Proof.
  intros Hrun.
  apply run_iteration_Ok in Hrun
    as (g1 & reward & k & n & p & bel & _ & _ & _ & _ & Hbel & _ & ->).
  apply update_is_mean in Hbel.
  apply running_mean_update_Ok in Hbel as (k1 & p1 & n1 & Hk1 & _ & _ & _ & Heq).
  exists k1. simpl. rewrite Heq. split; [exact Hk1|]. split.
  - apply length_insert.
  - intros j Hj. apply list_lookup_insert_ne. congruence.
Qed.

Lemma keep_round_inv (initial : Q) (it : Z) (s s' : agent B)
    (g g' : RandomState) (arm : Z) :
  wf_base (base s)
  /\ length (estimates (belief s)) = length (N_a (base s))
  /\ unpulled_keep initial (N_a (base s)) (estimates (belief s)) ->
  run_iteration np it s g = Ok (s', g', arm) ->
  wf_base (base s')
  /\ length (estimates (belief s')) = length (N_a (base s'))
  /\ unpulled_keep initial (N_a (base s')) (estimates (belief s')).
Proof.
  intros (Hwf & Hlen & Hkeep) Hrun.
  pose proof (run_iteration_wf np _ _ _ _ _ _ Hwf Hrun) as Hwf'.
  destruct (round_changes_one_estimate _ _ _ _ _ _ Hrun) as (k1 & Hk1 & Hlen' & Hsame).
  apply run_iteration_Ok in Hrun
    as (g1 & reward & k & n & p & bel & _ & _ & Hk & Hn & _ & _ & ->).
  simpl in *. rewrite Hlen in Hk1. assert (k1 = k) as -> by congruence.
  split; [exact Hwf'|]. rewrite length_insert. split; [congruence|].
  intros i Hi. apply list_lookup_insert_Some in Hi as [(-> & Hzero & _)|(Hne & Hi)].
  - destruct Hwf as (_ & _ & _ & Hnonneg).
    eapply Forall_lookup_1 in Hnonneg; [|exact Hn]. simpl in Hnonneg. lia.
  - rewrite Hsame by congruence. apply Hkeep, Hi.
Qed.

Lemma keep_run_inv (initial : Q) (n : Z) (s s' : agent B) (g g' : RandomState) :
  wf_base (base s)
  /\ length (estimates (belief s)) = length (N_a (base s))
  /\ unpulled_keep initial (N_a (base s)) (estimates (belief s)) ->
  run np n s g = Ok (s', g') ->
  unpulled_keep initial (N_a (base s')) (estimates (belief s')).
Proof.
  intros Hinv Hrun. apply run_Ok in Hrun as (arms & Hrun).
  eapply (run_over_invariant np
            (fun s => wf_base (base s)
                      /\ length (estimates (belief s)) = length (N_a (base s))
                      /\ unpulled_keep initial (N_a (base s)) (estimates (belief s))));
    [|exact Hinv|exact Hrun].
  intros it s1 g1 s2 g2 arm Hs1 Hround. eapply keep_round_inv; eassumption.
Qed.

End KeepFacts.

Lemma keep_inv_init (np : numpy) (dist : option (list Q)) (g g' : RandomState)
    (problem : FruitSlotMachine.t) (initial : Q) :
  FruitSlotMachine.init np dist g = Ok (problem, g') ->
  wf_base (AbstractMABAlgorithm.init problem)
  /\ length (full (FruitSlotMachine.num_arms problem) initial)
     = length (AbstractMABAlgorithm.N_a (AbstractMABAlgorithm.init problem))
  /\ unpulled_keep initial
       (AbstractMABAlgorithm.N_a (AbstractMABAlgorithm.init problem))
       (full (FruitSlotMachine.num_arms problem) initial).
Proof.
  intros Hinit. split; [eapply wf_base_init, Hinit|]. simpl. unfold full.
  rewrite !length_replicate. split; [reflexivity|].
  intros i Hi. apply lookup_replicate in Hi as [_ Hi]. apply lookup_replicate. auto.
Qed.

Lemma UniformExploration_update_is_mean (b : AbstractMABAlgorithm.t)
    (self : UniformExploration.t) (arm reward : Z) (self' : UniformExploration.t) :
  UniformExploration.update_belief b self arm reward = Ok self' ->
  running_mean_update (AbstractMABAlgorithm.N_a b)
    (UniformExploration.probabilities self) arm reward
  = Ok (UniformExploration.probabilities self').
Proof.
  unfold UniformExploration.update_belief. intros Hup.
  apply bind_Ok in Hup as (ps & Hps & [= <-]). exact Hps.
Qed.

Lemma EpsilonGreedy_update_is_mean (b : AbstractMABAlgorithm.t)
    (self : EpsilonGreedy.t) (arm reward : Z) (self' : EpsilonGreedy.t) :
  EpsilonGreedy.update_belief b self arm reward = Ok self' ->
  running_mean_update (AbstractMABAlgorithm.N_a b)
    (EpsilonGreedy.probabilities self) arm reward
  = Ok (EpsilonGreedy.probabilities self').
Proof.
  unfold EpsilonGreedy.update_belief. intros Hup.
  apply bind_Ok in Hup as (ps & Hps & [= <-]). exact Hps.
Qed.

Lemma UCB_update_is_mean (b : AbstractMABAlgorithm.t)
    (self : UCB.t) (arm reward : Z) (self' : UCB.t) :
  UCB.update_belief b self arm reward = Ok self' ->
  running_mean_update (AbstractMABAlgorithm.N_a b) (UCB.probabilities self) arm reward
  = Ok (UCB.probabilities self').
Proof.
  unfold UCB.update_belief. intros Hup.
  apply bind_Ok in Hup as (ps & Hps & [= <-]). exact Hps.
Qed.

(** Uniform exploration, epsilon-greedy and UCB1 write their estimates at
    the pulled arm only.  A round that completes, from any object, leaves
    the array of estimates at its length and every position other than the
    chosen arm's as it was; and on a machine built by the constructor and a
    fresh object, when [run(n)] completes, every arm that was never pulled
    still holds the initial estimate. *)
Theorem estimates_change_only_when_pulled (np : numpy) (dist : option (list Q))
    (g0 g1 : RandomState) (problem : FruitSlotMachine.t) (initial : Q)
    (n : Z) (g : RandomState) :
  FruitSlotMachine.init np dist g0 = Ok (problem, g1) ->
  ((forall it (s s' : agent UniformExploration.t) g2 g' arm,
       run_iteration np it s g2 = Ok (s', g', arm) ->
       exists k,
         normalize_index (length (UniformExploration.probabilities (belief s))) arm
         = Ok k
         /\ length (UniformExploration.probabilities (belief s'))
            = length (UniformExploration.probabilities (belief s))
         /\ forall j, j <> k ->
              UniformExploration.probabilities (belief s') !! j
              = UniformExploration.probabilities (belief s) !! j)
   /\ (forall s g',
         run np n (UniformExploration.init problem initial) g = Ok (s, g') ->
         unpulled_keep initial (AbstractMABAlgorithm.N_a (base s))
           (UniformExploration.probabilities (belief s))))
  /\ ((forall it (s s' : agent EpsilonGreedy.t) g2 g' arm,
         run_iteration np it s g2 = Ok (s', g', arm) ->
         exists k,
           normalize_index (length (EpsilonGreedy.probabilities (belief s))) arm
           = Ok k
           /\ length (EpsilonGreedy.probabilities (belief s'))
              = length (EpsilonGreedy.probabilities (belief s))
           /\ forall j, j <> k ->
                EpsilonGreedy.probabilities (belief s') !! j
                = EpsilonGreedy.probabilities (belief s) !! j)
      /\ (forall eps s0 s g',
            EpsilonGreedy.init problem eps initial = Ok s0 ->
            run np n s0 g = Ok (s, g') ->
            unpulled_keep initial (AbstractMABAlgorithm.N_a (base s))
              (EpsilonGreedy.probabilities (belief s))))
  /\ ((forall it (s s' : agent UCB.t) g2 g' arm,
         run_iteration np it s g2 = Ok (s', g', arm) ->
         exists k,
           normalize_index (length (UCB.probabilities (belief s))) arm = Ok k
           /\ length (UCB.probabilities (belief s'))
              = length (UCB.probabilities (belief s))
           /\ forall j, j <> k ->
                UCB.probabilities (belief s') !! j = UCB.probabilities (belief s) !! j)
      /\ (forall s g',
            run np n (UCB.init problem initial) g = Ok (s, g') ->
            unpulled_keep initial (AbstractMABAlgorithm.N_a (base s))
              (UCB.probabilities (belief s)))).
Proof.
  intros Hinit. pose proof (keep_inv_init np dist g0 g1 problem initial Hinit) as H0.
  split; [|split]; split.
  - intros it s s' g2 g' arm.
    apply (round_changes_one_estimate (H := UniformExploration.methods) np
             UniformExploration.probabilities UniformExploration_update_is_mean).
  - intros s g' Hrun.
    exact (keep_run_inv (H := UniformExploration.methods) np
             UniformExploration.probabilities UniformExploration_update_is_mean
             initial n (UniformExploration.init problem initial) s g g' H0 Hrun).
  - intros it s s' g2 g' arm.
    apply (round_changes_one_estimate (H := EpsilonGreedy.methods) np
             EpsilonGreedy.probabilities EpsilonGreedy_update_is_mean).
  - intros eps s0 s g' Hs0 Hrun.
    apply EpsilonGreedy_init_Ok in Hs0 as (Hbase & _ & Hprobs).
    apply (keep_run_inv (H := EpsilonGreedy.methods) np
             EpsilonGreedy.probabilities EpsilonGreedy_update_is_mean
             initial n s0 s g g'); [|exact Hrun].
    rewrite Hbase, Hprobs. exact H0.
  - intros it s s' g2 g' arm.
    apply (round_changes_one_estimate (H := UCB.methods) np
             UCB.probabilities UCB_update_is_mean).
  - intros s g' Hrun.
    exact (keep_run_inv (H := UCB.methods) np UCB.probabilities UCB_update_is_mean
             initial n (UCB.init problem initial) s g g' H0 Hrun).
Qed.

Lemma estimates_change_only_when_pulled_witness :
  exists s0 s g',
    EpsilonGreedy.init FruitMachine (Some (1 # 2)) 1 = Ok s0
    /\ run fixed_numpy 4 s0 0%nat = Ok (s, g')
    /\ AbstractMABAlgorithm.N_a (base s) !! 1%nat = Some 0
    /\ EpsilonGreedy.probabilities (belief s) !! 1%nat = Some 1%Q
    /\ exists s1 g1 arm k,
         run_iteration fixed_numpy 0 s0 0%nat = Ok (s1, g1, arm)
         /\ normalize_index 3 arm = Ok k.
Proof.
  pose (s0 := {| base := AbstractMABAlgorithm.init FruitMachine;
                 belief := {| EpsilonGreedy.epsilon := Some (1 # 2);
                              EpsilonGreedy.probabilities := [1; 1; 1]%Q |} |}).
  assert (exists s g', run fixed_numpy 4 s0 0%nat = Ok (s, g')
                       /\ AbstractMABAlgorithm.N_a (base s) !! 1%nat = Some 0)
    as (s & g' & Hrun & Hzero)
    by (eexists _, _; split; vm_compute; reflexivity).
  assert (exists s1 g1 arm, run_iteration fixed_numpy 0 s0 0%nat = Ok (s1, g1, arm))
    as (s1 & g1 & arm & Hround) by (eexists _, _, _; vm_compute; reflexivity).
  pose proof (estimates_change_only_when_pulled fixed_numpy
                (Some [3 # 10; 5 # 10; 7 # 10]%Q) 0%nat 0%nat FruitMachine 1 4 0%nat
                (FruitMachine_init 0%nat)) as (_ & (Hone & Hkeep) & _).
  exists s0, s, g'. split; [reflexivity|]. split; [exact Hrun|].
  split; [exact Hzero|]. split.
  - exact (Hkeep (Some (1 # 2)) s0 s g' eq_refl Hrun 1%nat Hzero).
  - destruct (Hone _ _ _ _ _ _ Hround) as (k & Hk & _).
    exists s1, g1, arm, k. split; [exact Hround|exact Hk].
Defined.

(** ** How much of the generator a run consumes *)

Lemma get_reward_state (np : numpy) (problem : FruitSlotMachine.t) (arm : Z)
    (g g' : RandomState) (reward : Z) :
  FruitSlotMachine.get_reward np problem arm g = Ok (reward, g') -> g' = S g.
Proof.
  unfold FruitSlotMachine.get_reward, random. intros Hget.
  apply bind_Ok in Hget as (p & _ & Hget).
  destruct (Qlt_bool (random_sample np g) p); injection Hget as _ <-; reflexivity.
Qed.

Section DrawFacts.

Context {B : Type} `{MABAlgorithm B} (np : numpy).

(** If every round started from an object with property [P] keeps [P] and
    makes between [lo] and [hi] draws, the loop makes between [lo] and [hi]
    draws per round. *)
Lemma run_over_draws (P : agent B -> Prop) (lo hi : nat) :
  (forall it s g s' g' arm,
      P s -> run_iteration np it s g = Ok (s', g', arm) ->
      P s' /\ (g + lo <= g' <= g + hi)%nat) ->
  forall its s g s' g' arms,
    P s -> run_over np its s g = Ok (s', g', arms) ->
    (g + lo * length its <= g' <= g + hi * length its)%nat.
Proof.
  intros Hstep its. induction its as [|it its IH]; intros s g s' g' arms HP Hrun.
  - injection Hrun as <- <- <-. simpl. lia.
  - simpl in Hrun.
    apply bind_Ok in Hrun as ([[s1 g1] arm] & Hround & Hrun).
    apply bind_Ok in Hrun as ([[s2 g2] arms2] & Hrest & [= <- <- <-]).
    destruct (Hstep _ _ _ _ _ _ HP Hround) as [HP1 Hg1].
    specialize (IH _ _ _ _ _ HP1 Hrest). simpl length. lia.
Qed.

(** A round of a policy whose [choose_arm] leaves the generator alone makes
    exactly one draw, the one of [get_reward]. *)
Lemma run_iteration_one_draw (it : Z) (s s' : agent B) (g g' : RandomState) (arm : Z) :
  (forall b self g0 arm0 g1, choose_arm np b self g0 = Ok (arm0, g1) -> g1 = g0) ->
  run_iteration np it s g = Ok (s', g', arm) -> g' = S g.
Proof.
  intros Hchoose Hrun.
  apply run_iteration_Ok in Hrun
    as (g1 & reward & k & n & p & bel & Hc & Hreward & _).
  apply Hchoose in Hc as ->. eapply get_reward_state, Hreward.
Qed.

Lemma run_one_draw_per_round (n : Z) (s s' : agent B) (g g' : RandomState) :
  (forall b self g0 arm0 g1, choose_arm np b self g0 = Ok (arm0, g1) -> g1 = g0) ->
  run np n s g = Ok (s', g') -> g' = (g + Z.to_nat n)%nat.
Proof.
  intros Hchoose Hrun. apply run_Ok in Hrun as (arms & Hrun).
  pose proof (run_over_draws (fun _ => True) 1 1) as Hdraws.
  specialize (Hdraws) with (2 := I) (3 := Hrun).
  rewrite length_range in Hdraws.
  assert (g + 1 * Z.to_nat n <= g' <= g + 1 * Z.to_nat n)%nat as Hg; [|lia].
  apply Hdraws. intros it s1 g1 s2 g2 arm _ Hround. split; [exact I|].
  apply run_iteration_one_draw in Hround; [lia|exact Hchoose].
Qed.

End DrawFacts.

(** Uniform exploration, UCB1 and Bayesian UCB never touch the generator
    themselves: from any object, a [run(n)] that completes has made exactly
    one draw per round, the reward's. *)
Theorem deterministic_policies_one_draw_per_round (np : numpy) (n : Z)
    (g g' : RandomState) :
  (forall s s' : agent UniformExploration.t,
      run np n s g = Ok (s', g') -> g' = (g + Z.to_nat n)%nat)
  /\ (forall s s' : agent UCB.t,
        run np n s g = Ok (s', g') -> g' = (g + Z.to_nat n)%nat)
  /\ (forall s s' : agent BayesianUCB.t,
        run np n s g = Ok (s', g') -> g' = (g + Z.to_nat n)%nat).
Proof.
  split; [|split]; intros s s'; apply run_one_draw_per_round;
    intros b self g0 arm0 g1 Hc; unfold choose_arm in Hc; simpl in Hc.
  - unfold UniformExploration.choose_arm in Hc.
    apply bind_Ok in Hc as (arm & _ & [= _ <-]). reflexivity.
  - unfold UCB.choose_arm in Hc.
    destruct (AbstractMABAlgorithm.iteration b); [|discriminate].
    apply bind_Ok in Hc as (bs & _ & Hc).
    apply bind_Ok in Hc as (ucb & _ & Hc).
    apply bind_Ok in Hc as (arm & _ & [= _ <-]). reflexivity.
  - unfold BayesianUCB.choose_arm in Hc.
    apply bind_Ok in Hc as (mean & _ & Hc).
    apply bind_Ok in Hc as (dev & _ & Hc).
    apply bind_Ok in Hc as (ucb & _ & Hc).
    apply bind_Ok in Hc as (arm & _ & [= _ <-]). reflexivity.
Qed.

Lemma deterministic_policies_one_draw_per_round_witness :
  exists s',
    run fixed_numpy 4 (BayesianUCB.init FruitMachine 3 1 1) 2%nat = Ok (s', 6%nat).
Proof.
  assert (exists s' g', run fixed_numpy 4 (BayesianUCB.init FruitMachine 3 1 1) 2%nat
                        = Ok (s', g')) as (s' & g' & Hrun)
    by (eexists _, _; vm_compute; reflexivity).
  exists s'. rewrite Hrun.
  rewrite (proj2 (proj2 (deterministic_policies_one_draw_per_round
                           fixed_numpy 4 2%nat g')) _ _ Hrun).
  reflexivity.
Defined.

(** Epsilon-greedy makes two or three draws per round: from any object, a
    [run(n)] that completes has made between [2 n] and [3 n] draws (one to
    decide between exploring and exploiting, one more when it explores, one
    for the reward). *)
Theorem EpsilonGreedy_draws_per_round (np : numpy) (n : Z)
    (s s' : agent EpsilonGreedy.t) (g g' : RandomState) :
  run np n s g = Ok (s', g') ->
  (g + 2 * Z.to_nat n <= g' <= g + 3 * Z.to_nat n)%nat.
Proof.
  intros Hrun. apply run_Ok in Hrun as (arms & Hrun).
  rewrite <- (length_range n).
  apply (run_over_draws np (fun _ => True) 2 3) with (2 := I) (3 := Hrun).
  intros it s1 g1 s2 g2 arm _ Hround. split; [exact I|].
  apply run_iteration_Ok in Hround
    as (g3 & reward & k & m & p & bel & Hc & Hreward & _).
  apply get_reward_state in Hreward as ->.
  unfold choose_arm in Hc. simpl in Hc.
  unfold EpsilonGreedy.choose_arm, random in Hc.
  destruct (EpsilonGreedy.epsilon (belief s1)) as [e|]; [|discriminate].
  destruct (Qlt_bool (random_sample np g1) e).
  - unfold randint in Hc.
    destruct (0 <? _); [|discriminate]. injection Hc as _ <-. lia.
  - apply bind_Ok in Hc as (a & _ & [= _ <-]). lia.
Qed.

Lemma EpsilonGreedy_draws_per_round_witness :
  exists s0 s' g',
    EpsilonGreedy.init FruitMachine (Some (1 # 2)) 1 = Ok s0
    /\ run fixed_numpy 6 s0 0%nat = Ok (s', g')
    /\ (0 + 2 * 6 <= g' <= 0 + 3 * 6)%nat.
Proof.
  pose (s0 := {| base := AbstractMABAlgorithm.init FruitMachine;
                 belief := {| EpsilonGreedy.epsilon := Some (1 # 2);
                              EpsilonGreedy.probabilities := [1; 1; 1]%Q |} |}).
  assert (exists s' g', run fixed_numpy 6 s0 0%nat = Ok (s', g')) as (s' & g' & Hrun)
    by (eexists _, _; vm_compute; reflexivity).
  exists s0, s', g'. split; [reflexivity|]. split; [exact Hrun|].
  exact (EpsilonGreedy_draws_per_round fixed_numpy 6 s0 s' 0%nat g' Hrun).
Defined.

Lemma random_beta_state (np : numpy) (a b xs : list Q) (g g' : RandomState) :
  random_beta np a b g = Ok (xs, g') -> g' = (g + length a)%nat.
Proof.
  revert b xs g g'. induction a as [|x a IH]; intros [|y b] xs g g' Hdraw;
    simpl in Hdraw; try discriminate.
  - injection Hdraw as _ <-. simpl. lia.
  - destruct (Qlt_bool 0 x && Qlt_bool 0 y); [|discriminate].
    apply bind_Ok in Hdraw as ([ys g1] & Hrest & [= _ <-]).
    apply IH in Hrest as ->. simpl. lia.
Qed.

Lemma fill_samples_state (np : numpy) (self : ThompsonSamping.t) (indices : list Z)
    (samples samples' : list Q) (g g' : RandomState) :
  ThompsonSamping.fill_samples np self indices samples g = Ok (samples', g') ->
  g' = (g + length indices * length (ThompsonSamping.a self))%nat.
Proof.
  revert samples g. induction indices as [|i indices IH]; intros samples g Hfill;
    simpl in Hfill.
  - injection Hfill as _ <-. simpl. lia.
  - apply bind_Ok in Hfill as ([xs g1] & Hdraw & Hfill).
    apply bind_Ok in Hfill as (samples1 & _ & Hfill).
    apply random_beta_state in Hdraw as ->.
    apply IH in Hfill as ->. simpl. lia.
Qed.

(** Thompson sampling, on a machine built by the constructor and a fresh
    object: a [run(n)] that completes has made exactly [10 n] draws, nine
    Beta draws (three arrays of three) and one reward draw per round. *)
Theorem ThompsonSamping_draws_per_round (np : numpy) (dist : option (list Q))
    (g0 g1 : RandomState) (problem : FruitSlotMachine.t) (initial_a initial_b : Q)
    (n : Z) (s : agent ThompsonSamping.t) (g g' : RandomState) :
  FruitSlotMachine.init np dist g0 = Ok (problem, g1) ->
  run np n (ThompsonSamping.init problem initial_a initial_b) g = Ok (s, g') ->
  g' = (g + 10 * Z.to_nat n)%nat.
Proof.
  intros Hinit Hrun. apply run_Ok in Hrun as (arms & Hrun).
  pose proof (beta_inv_init np dist g0 g1 problem initial_a initial_b Hinit) as Hinv0.
  apply FruitSlotMachine_init_Ok in Hinit as (Harms & _).
  pose proof (run_over_draws np
                (fun s => ThompsonSamping_inv initial_a initial_b s
                          /\ length (AbstractMABAlgorithm.N_a (base s)) = 3%nat)
                10 10) as Hdraws.
  rewrite <- (length_range n).
  enough (g + 10 * length (range n) <= g' <= g + 10 * length (range n))%nat by lia.
  eapply Hdraws; [| |exact Hrun].
  - intros it s1 g2 s2 g3 arm [Hinv HlenN] Hround.
    destruct (beta_round_inv (H := ThompsonSamping.methods) np
                ThompsonSamping.a ThompsonSamping.b ThompsonSamping_update_is_beta
                initial_a initial_b it s1 s2 g2 g3 arm Hinv Hround) as [Hinv' _].
    destruct Hinv as ((Hnum & _) & Hla & _).
    apply run_iteration_Ok in Hround
      as (g4 & reward & k & m & p & bel & Hc & Hreward & _ & _ & _ & _ & Hs2).
    split.
    + split; [exact Hinv'|]. rewrite Hs2. simpl. rewrite length_insert. exact HlenN.
    + apply get_reward_state in Hreward as ->.
      unfold choose_arm in Hc. simpl in Hc. unfold ThompsonSamping.choose_arm in Hc.
      apply bind_Ok in Hc as ([samples g5] & Hfill & Hc).
      apply bind_Ok in Hc as (a & _ & [= _ <-]).
      cbn [AbstractMABAlgorithm.MABproblem AbstractMABAlgorithm.set_iteration]
        in Hfill.
      apply fill_samples_state in Hfill as ->.
      rewrite Hnum, HlenN, length_range, Hla, HlenN. simpl. lia.
  - split; [exact Hinv0|]. simpl. rewrite Harms. reflexivity.
Qed.

Lemma ThompsonSamping_draws_per_round_witness :
  exists s, run fixed_numpy 3 (ThompsonSamping.init FruitMachine 1 1) 0%nat = Ok (s, 30%nat).
Proof.
  assert (exists s g', run fixed_numpy 3 (ThompsonSamping.init FruitMachine 1 1) 0%nat
                       = Ok (s, g')) as (s & g' & Hrun)
    by (eexists _, _; vm_compute; reflexivity).
  exists s. rewrite Hrun.
  rewrite (ThompsonSamping_draws_per_round fixed_numpy
             (Some [3 # 10; 5 # 10; 7 # 10]%Q) 0%nat 0%nat FruitMachine 1 1 3 s
             0%nat g' (FruitMachine_init 0%nat) Hrun).
  reflexivity.
Defined.

(** ** The arms a policy picks *)

Lemma argmax_nonneg (l : list Q) (k : Z) : argmax l = Ok k -> 0 <= k.
Proof. destruct l; [discriminate|]. intros [= <-]. lia. Qed.

Lemma argmin_nonneg (l : list Z) (k : Z) : argmin l = Ok k -> 0 <= k.
Proof. destruct l; [discriminate|]. intros [= <-]. lia. Qed.

Section ArmRange.

Context {B : Type} `{MABAlgorithm B} (np : numpy).
Hypothesis choose_nonneg :
  forall b self g arm g1, choose_arm np b self g = Ok (arm, g1) -> 0 <= arm.

Lemma run_over_arms_range (its : list Z) (s s' : agent B) (g g' : RandomState)
    (arms : list Z) :
  run_over np its s g = Ok (s', g', arms) ->
  Forall (fun arm => 0 <= arm < Z.of_nat (length (AbstractMABAlgorithm.N_a (base s))))
    arms.
Proof.
  revert s g arms. induction its as [|it its IH]; intros s g arms Hrun.
  - injection Hrun as <- <- <-. constructor.
  - simpl in Hrun.
    apply bind_Ok in Hrun as ([[s1 g1] arm] & Hround & Hrun).
    apply bind_Ok in Hrun as ([[s2 g2] arms2] & Hrest & [= <- <- <-]).
    apply IH in Hrest.
    apply run_iteration_Ok in Hround
      as (g3 & reward & k & n & p & bel & Hc & _ & Hk & _ & _ & _ & ->).
    simpl in Hrest. rewrite length_insert in Hrest.
    constructor; [|exact Hrest].
    apply choose_nonneg in Hc. apply normalize_index_Ok in Hk. lia.
Qed.

End ArmRange.

(** On a machine built by the constructor and a fresh object, whenever
    [run(n)] completes, every arm any of the five policies chose is an index
    in [0, numArms): no policy returns a negative or too large index. *)
Theorem chosen_arms_in_range (np : numpy) (dist : option (list Q))
    (g0 g1 : RandomState) (problem : FruitSlotMachine.t) (n : Z) (g : RandomState) :
  FruitSlotMachine.init np dist g0 = Ok (problem, g1) ->
  let in_range := fun arm => 0 <= arm < FruitSlotMachine.num_arms problem in
  (forall initial s g' arms,
      run_trace np n (UniformExploration.init problem initial) g = Ok (s, g', arms) ->
      Forall in_range arms)
  /\ (forall eps initial s0 s g' arms,
        EpsilonGreedy.init problem eps initial = Ok s0 ->
        run_trace np n s0 g = Ok (s, g', arms) ->
        Forall in_range arms)
  /\ (forall initial s g' arms,
        run_trace np n (UCB.init problem initial) g = Ok (s, g', arms) ->
        Forall in_range arms)
  /\ (forall sigma initial_a initial_b s g' arms,
        run_trace np n (BayesianUCB.init problem sigma initial_a initial_b) g
        = Ok (s, g', arms) ->
        Forall in_range arms)
  /\ (forall initial_a initial_b s g' arms,
        run_trace np n (ThompsonSamping.init problem initial_a initial_b) g
        = Ok (s, g', arms) ->
        Forall in_range arms).
Proof.
  intros Hinit in_range. apply FruitSlotMachine_init_Ok in Hinit as (Harms & _).
  subst in_range. rewrite Harms.
  assert (Z.of_nat (length (AbstractMABAlgorithm.N_a (AbstractMABAlgorithm.init problem)))
          = 3) as Hlen by (simpl; rewrite Harms; reflexivity).
  split; [|split; [|split; [|split]]].
  - intros initial s g' arms Hrun.
    apply (run_over_arms_range (H := UniformExploration.methods)) in Hrun.
    + simpl base in Hrun. rewrite Hlen in Hrun. exact Hrun.
    + intros b self g2 arm g3 Hc. unfold choose_arm in Hc. simpl in Hc.
      unfold UniformExploration.choose_arm in Hc.
      apply bind_Ok in Hc as (a & Ha & [= <- _]). eapply argmin_nonneg, Ha.
  - intros eps initial s0 s g' arms Hs0 Hrun.
    apply EpsilonGreedy_init_Ok in Hs0 as (Hbase & _).
    apply (run_over_arms_range (H := EpsilonGreedy.methods)) in Hrun.
    + rewrite Hbase, Hlen in Hrun. exact Hrun.
    + intros b self g2 arm g3 Hc. unfold choose_arm in Hc. simpl in Hc.
      unfold EpsilonGreedy.choose_arm, random in Hc.
      destruct (EpsilonGreedy.epsilon self) as [e|]; [|discriminate].
      destruct (Qlt_bool (random_sample np g2) e).
      * unfold randint in Hc.
        destruct (0 <? _) eqn:Hpos; [|discriminate]. injection Hc as <- _.
        apply Z.ltb_lt in Hpos.
        pose proof (Z.mod_pos_bound (random_bits np (S g2))
                      (FruitSlotMachine.num_arms (AbstractMABAlgorithm.MABproblem b) - 0)).
        lia.
      * apply bind_Ok in Hc as (a & Ha & [= <- _]). eapply argmax_nonneg, Ha.
  - intros initial s g' arms Hrun.
    apply (run_over_arms_range (H := UCB.methods)) in Hrun.
    + simpl base in Hrun. rewrite Hlen in Hrun. exact Hrun.
    + intros b self g2 arm g3 Hc. unfold choose_arm in Hc. simpl in Hc.
      unfold UCB.choose_arm in Hc.
      destruct (AbstractMABAlgorithm.iteration b); [|discriminate].
      apply bind_Ok in Hc as (bs & _ & Hc).
      apply bind_Ok in Hc as (ucb & _ & Hc).
      apply bind_Ok in Hc as (a & Ha & [= <- _]). eapply argmax_nonneg, Ha.
  - intros sigma initial_a initial_b s g' arms Hrun.
    apply (run_over_arms_range (H := BayesianUCB.methods)) in Hrun.
    + simpl base in Hrun. rewrite Hlen in Hrun. exact Hrun.
    + intros b self g2 arm g3 Hc. unfold choose_arm in Hc. simpl in Hc.
      unfold BayesianUCB.choose_arm in Hc.
      apply bind_Ok in Hc as (mean & _ & Hc).
      apply bind_Ok in Hc as (dev & _ & Hc).
      apply bind_Ok in Hc as (ucb & _ & Hc).
      apply bind_Ok in Hc as (a & Ha & [= <- _]). eapply argmax_nonneg, Ha.
  - intros initial_a initial_b s g' arms Hrun.
    apply (run_over_arms_range (H := ThompsonSamping.methods)) in Hrun.
    + simpl base in Hrun. rewrite Hlen in Hrun. exact Hrun.
    + intros b self g2 arm g3 Hc. unfold choose_arm in Hc. simpl in Hc.
      unfold ThompsonSamping.choose_arm in Hc.
      apply bind_Ok in Hc as ([samples g4] & _ & Hc).
      apply bind_Ok in Hc as (a & Ha & [= <- _]). eapply argmax_nonneg, Ha.
Qed.

Lemma chosen_arms_in_range_witness :
  exists s0 s g' arms,
    EpsilonGreedy.init FruitMachine (Some (1 # 2)) 1 = Ok s0
    /\ run_trace fixed_numpy 6 s0 0%nat = Ok (s, g', arms)
    /\ Forall (fun arm => 0 <= arm < 3) arms.
Proof.
  pose (s0 := {| base := AbstractMABAlgorithm.init FruitMachine;
                 belief := {| EpsilonGreedy.epsilon := Some (1 # 2);
                              EpsilonGreedy.probabilities := [1; 1; 1]%Q |} |}).
  assert (exists s g' arms, run_trace fixed_numpy 6 s0 0%nat = Ok (s, g', arms))
    as (s & g' & arms & Hrun) by (eexists _, _, _; vm_compute; reflexivity).
  exists s0, s, g', arms. split; [reflexivity|]. split; [exact Hrun|].
  exact (proj1 (proj2 (chosen_arms_in_range fixed_numpy
                         (Some [3 # 10; 5 # 10; 7 # 10]%Q) 0%nat 0%nat FruitMachine 6
                         0%nat (FruitMachine_init 0%nat)))
           (Some (1 # 2)) 1%Q s0 s g' arms eq_refl Hrun).
Defined.

(** Epsilon-greedy at its two extremes, with a generator whose uniform
    draws lie in [0, 1) as NumPy's do.  With [epsilon = 0], [choose_arm]
    never explores: it makes one draw and returns the lowest index among
    the largest estimates.  With [epsilon = 1] it always explores: it makes
    two draws and returns [randint(0, num_arms)], whatever the estimates. *)
Theorem EpsilonGreedy_extremes (np : numpy) (b : AbstractMABAlgorithm.t)
    (self : EpsilonGreedy.t) (g : RandomState) :
  (EpsilonGreedy.epsilon self = Some 0%Q ->
   (0 <= random_sample np g)%Q ->
   EpsilonGreedy.probabilities self <> [] ->
   exists k,
     EpsilonGreedy.choose_arm np b self g = Ok (Z.of_nat k, S g)
     /\ first_argmax (EpsilonGreedy.probabilities self) k)
  /\ (EpsilonGreedy.epsilon self = Some 1%Q ->
      (random_sample np g < 1)%Q ->
      0 < FruitSlotMachine.num_arms (AbstractMABAlgorithm.MABproblem b) ->
      EpsilonGreedy.choose_arm np b self g
      = Ok (random_bits np (S g)
              mod FruitSlotMachine.num_arms (AbstractMABAlgorithm.MABproblem b),
            S (S g))).
Proof.
  unfold EpsilonGreedy.choose_arm, random. split.
  - intros -> Hu Hne. apply Qlt_bool_false in Hu. rewrite Hu.
    destruct (argmax_spec _ Hne) as (k & -> & Hmax). simpl. eauto.
  - intros -> Hu Hpos. apply Qlt_bool_iff in Hu. rewrite Hu.
    unfold randint. apply Z.ltb_lt in Hpos. rewrite Hpos.
    rewrite Z.sub_0_r, Z.add_0_l. reflexivity.
Qed.

Lemma EpsilonGreedy_extremes_witness :
  (exists k,
      EpsilonGreedy.choose_arm fixed_numpy (AbstractMABAlgorithm.init FruitMachine)
        {| EpsilonGreedy.epsilon := Some 0%Q;
           EpsilonGreedy.probabilities := [1 # 3; 1 # 2; 1 # 2]%Q |} 1%nat
      = Ok (Z.of_nat k, 2%nat)
      /\ first_argmax [1 # 3; 1 # 2; 1 # 2]%Q k)
  /\ EpsilonGreedy.choose_arm fixed_numpy (AbstractMABAlgorithm.init FruitMachine)
       {| EpsilonGreedy.epsilon := Some 1%Q;
          EpsilonGreedy.probabilities := [1 # 3; 1 # 2; 1 # 2]%Q |} 1%nat
     = Ok (random_bits fixed_numpy 2 mod 3, 3%nat).
Proof.
  split.
  - apply (proj1 (EpsilonGreedy_extremes fixed_numpy
                    (AbstractMABAlgorithm.init FruitMachine)
                    {| EpsilonGreedy.epsilon := Some 0%Q;
                       EpsilonGreedy.probabilities := [1 # 3; 1 # 2; 1 # 2]%Q |}
                    1%nat)); [reflexivity|discriminate|discriminate].
  - apply (proj2 (EpsilonGreedy_extremes fixed_numpy
                    (AbstractMABAlgorithm.init FruitMachine)
                    {| EpsilonGreedy.epsilon := Some 1%Q;
                       EpsilonGreedy.probabilities := [1 # 3; 1 # 2; 1 # 2]%Q |}
                    1%nat)); reflexivity.
Defined.

(** ** Bayesian UCB scores *)

Lemma zipM_values {A B C} (f : A -> B -> result C) (f' : A -> B -> C)
    (l : list A) (k : list B) :
  length l = length k ->
  (forall i x y, l !! i = Some x -> k !! i = Some y -> f x y = Ok (f' x y)) ->
  zipM f l k = Ok (zip_with f' l k).
Proof.
  revert k. induction l as [|x l IH]; intros [|y k] Hlen Hf; simpl in *;
    try discriminate; [reflexivity|].
  rewrite (Hf 0%nat x y) by reflexivity. simpl.
  rewrite IH; [reflexivity|lia|].
  intros i u v Hu Hv. apply (Hf (S i)); assumption.
Qed.

Lemma zip_with_zip_with {A B C D E} (h : C -> D -> E) (f : A -> B -> C)
    (f' : A -> B -> D) (l : list A) (k : list B) :
  zip_with h (zip_with f l k) (zip_with f' l k)
  = zip_with (fun x y => h (f x y) (f' x y)) l k.
Proof.
  revert k. induction l as [|x l IH]; intros [|y k]; simpl; try reflexivity.
  rewrite IH. reflexivity.
Qed.

(** [BayesianUCB.choose_arm] on an object with one positive pair of Beta
    parameters per arm: the score of an arm is the mean [a / (a + b)] plus
    [sigma] times [sqrt(a b / ((a + b)^2 (a + b + 1)))]; the call returns the
    lowest index attaining the largest score and makes no draw. *)
Theorem BayesianUCB_choose_arm_score (np : numpy) (base : AbstractMABAlgorithm.t)
    (self : BayesianUCB.t) (g : RandomState) :
  length (BayesianUCB.a self) = length (BayesianUCB.b self) ->
  BayesianUCB.a self <> [] ->
  positive (BayesianUCB.a self) ->
  positive (BayesianUCB.b self) ->
  exists k,
    BayesianUCB.choose_arm np base self g = Ok (Z.of_nat k, g)
    /\ first_argmax
         (zip_with (bayes_ucb_score np (BayesianUCB.sigma self))
            (BayesianUCB.a self) (BayesianUCB.b self)) k.
Proof.
  intros Hlen Hne Hpa Hpb.
  unfold BayesianUCB.choose_arm, BayesianUCB.getBetaStdDev.
  rewrite (zipM_values (fun x y => np_divide x (x + y)%Q)
             (fun x y => (x / (x + y))%Q)); [|exact Hlen|].
  2:{ intros i x y Hx Hy.
      eapply Forall_lookup_1 in Hpa; [|exact Hx].
      eapply Forall_lookup_1 in Hpb; [|exact Hy]. simpl in Hpa, Hpb.
      apply np_divide_Ok. intros Hzero. lra. }
  simpl.
  rewrite (zipM_values _
             (fun x y => np_sqrt np (x * y / (((x + y) * (x + y)) * (x + y + 1)))%Q));
    [|exact Hlen|].
  2:{ intros i x y Hx Hy.
      eapply Forall_lookup_1 in Hpa; [|exact Hx].
      eapply Forall_lookup_1 in Hpb; [|exact Hy]. simpl in Hpa, Hpb.
      rewrite np_divide_Ok; [reflexivity|]. intros Hzero.
      assert (0 < (x + y) * (x + y) * (x + y + 1))%Q as Hprod.
      { repeat apply Qmult_lt_0_compat; lra. }
      rewrite Hzero in Hprod. exact (Qlt_irrefl _ Hprod). }
  simpl. rewrite zipM_pure by (rewrite !length_zip_with; lia). simpl.
  rewrite zip_with_zip_with.
  change (zip_with _ (BayesianUCB.a self) (BayesianUCB.b self))
    with (zip_with (bayes_ucb_score np (BayesianUCB.sigma self))
            (BayesianUCB.a self) (BayesianUCB.b self)).
  destruct (argmax_spec (zip_with (bayes_ucb_score np (BayesianUCB.sigma self))
                           (BayesianUCB.a self) (BayesianUCB.b self)))
    as (k & -> & Hmax).
  { destruct (BayesianUCB.a self), (BayesianUCB.b self); simpl in *; congruence. }
  simpl. eauto.
Qed.

Lemma BayesianUCB_choose_arm_score_witness :
  exists k,
    BayesianUCB.choose_arm fixed_numpy (AbstractMABAlgorithm.init FruitMachine)
      {| BayesianUCB.sigma := 3; BayesianUCB.a := [1; 3; 2]%Q;
         BayesianUCB.b := [2; 1; 1]%Q |} 0%nat
    = Ok (Z.of_nat k, 0%nat)
    /\ first_argmax
         (zip_with (bayes_ucb_score fixed_numpy 3) [1; 3; 2]%Q [2; 1; 1]%Q) k.
Proof.
  apply (BayesianUCB_choose_arm_score fixed_numpy
           (AbstractMABAlgorithm.init FruitMachine)
           {| BayesianUCB.sigma := 3; BayesianUCB.a := [1; 3; 2]%Q;
              BayesianUCB.b := [2; 1; 1]%Q |} 0%nat).
  - reflexivity.
  - discriminate.
  - repeat constructor.
  - repeat constructor.
Defined.

(** ** Bounds on the Beta parameters *)

(** Bayesian UCB and Thompson sampling, on a machine built by the
    constructor and a fresh object whose initial parameters are whole
    numbers [ka], [kb] with [ka + n] and [kb + n] within
    [float_exact_bound]: when [run(n)] completes, every arm's [a] is a whole
    number between [ka] and [ka] plus the arm's pull count, and its [b] a
    whole number between [kb] and [kb] plus the pull count, all within the
    bound: the parameters never decrease and never grow faster than the
    pulls. *)
Theorem beta_parameters_bounds (np : numpy) (dist : option (list Q))
    (g0 g1 : RandomState) (problem : FruitSlotMachine.t)
    (sigma : Q) (ka kb n : Z) (g : RandomState) :
  FruitSlotMachine.init np dist g0 = Ok (problem, g1) ->
  0 <= n ->
  - float_exact_bound <= ka -> ka + n <= float_exact_bound ->
  - float_exact_bound <= kb -> kb + n <= float_exact_bound ->
  (forall s g',
      run np n (BayesianUCB.init problem sigma (inject_Z ka) (inject_Z kb)) g
      = Ok (s, g') ->
      forall i count x y,
        AbstractMABAlgorithm.N_a (base s) !! i = Some count ->
        BayesianUCB.a (belief s) !! i = Some x ->
        BayesianUCB.b (belief s) !! i = Some y ->
        exists za zb,
          (x == inject_Z za)%Q /\ (y == inject_Z zb)%Q
          /\ ka <= za <= ka + count /\ kb <= zb <= kb + count
          /\ - float_exact_bound <= za <= float_exact_bound
          /\ - float_exact_bound <= zb <= float_exact_bound)
  /\ (forall s g',
        run np n (ThompsonSamping.init problem (inject_Z ka) (inject_Z kb)) g
        = Ok (s, g') ->
        forall i count x y,
          AbstractMABAlgorithm.N_a (base s) !! i = Some count ->
          ThompsonSamping.a (belief s) !! i = Some x ->
          ThompsonSamping.b (belief s) !! i = Some y ->
          exists za zb,
            (x == inject_Z za)%Q /\ (y == inject_Z zb)%Q
            /\ ka <= za <= ka + count /\ kb <= zb <= kb + count
            /\ - float_exact_bound <= za <= float_exact_bound
            /\ - float_exact_bound <= zb <= float_exact_bound).
Proof.
  intros Hinit Hn Hka Hka' Hkb Hkb'.
  pose proof (beta_inv_init np dist g0 g1 problem (inject_Z ka) (inject_Z kb) Hinit)
    as Hinv.
  split; intros s g' Hrun i count x y Hcount Hx Hy.
  - destruct (beta_run_whole (H := BayesianUCB.methods) np
                BayesianUCB.a BayesianUCB.b BayesianUCB_update_is_beta
                problem ka kb n
                (BayesianUCB.init problem sigma (inject_Z ka) (inject_Z kb)) s g g'
                eq_refl Hinv eq_refl eq_refl Hn Hrun) as (_ & _ & Hall).
    destruct (Hall _ _ _ _ Hcount Hx Hy) as (Hc & za & zb & Hza & Hzb & Ha & Hb & _).
    exists za, zb. repeat split; try assumption; lia.
  - destruct (beta_run_whole (H := ThompsonSamping.methods) np
                ThompsonSamping.a ThompsonSamping.b ThompsonSamping_update_is_beta
                problem ka kb n
                (ThompsonSamping.init problem (inject_Z ka) (inject_Z kb)) s g g'
                eq_refl Hinv eq_refl eq_refl Hn Hrun) as (_ & _ & Hall).
    destruct (Hall _ _ _ _ Hcount Hx Hy) as (Hc & za & zb & Hza & Hzb & Ha & Hb & _).
    exists za, zb. repeat split; try assumption; lia.
Qed.

Lemma beta_parameters_bounds_witness :
  exists s g',
    run fixed_numpy 4 (BayesianUCB.init FruitMachine 3 (inject_Z 1) (inject_Z 2)) 0%nat
    = Ok (s, g')
    /\ forall i count x y,
         AbstractMABAlgorithm.N_a (base s) !! i = Some count ->
         BayesianUCB.a (belief s) !! i = Some x ->
         BayesianUCB.b (belief s) !! i = Some y ->
         exists za zb,
           (x == inject_Z za)%Q /\ (y == inject_Z zb)%Q
           /\ 1 <= za <= 1 + count /\ 2 <= zb <= 2 + count
           /\ - float_exact_bound <= za <= float_exact_bound
           /\ - float_exact_bound <= zb <= float_exact_bound.
Proof.
  eexists _, _. split; [vm_compute; reflexivity|].
  refine (proj1 (beta_parameters_bounds fixed_numpy (Some [3 # 10; 5 # 10; 7 # 10]%Q)
                   0%nat 0%nat FruitMachine 3 1 2 4 0%nat (FruitMachine_init 0%nat)
                   _ _ _ _ _) _ _ _);
    try (unfold float_exact_bound; lia).
  vm_compute. reflexivity.
Defined.

(** ** Edges of the policies *)

(** Thompson sampling constructed with an initial parameter that is not
    positive, on a machine built by the constructor: the first round already
    fails inside [np.random.beta], so [run(n)] raises [ValueError] for every
    [n >= 1]. *)
Theorem ThompsonSamping_nonpositive_parameter (np : numpy) (dist : option (list Q))
    (g0 g1 : RandomState) (problem : FruitSlotMachine.t) (initial_a initial_b : Q)
    (n : Z) (g : RandomState) :
  FruitSlotMachine.init np dist g0 = Ok (problem, g1) ->
  1 <= n ->
  (initial_a <= 0)%Q \/ (initial_b <= 0)%Q ->
  run np n (ThompsonSamping.init problem initial_a initial_b) g = Raise ValueError.
Proof.
  intros Hinit Hn Hbad. apply FruitSlotMachine_init_Ok in Hinit as (Harms & _).
  assert (Qlt_bool 0 initial_a && Qlt_bool 0 initial_b = false) as Hcheck.
  { apply andb_false_iff.
    destruct Hbad as [Hbad|Hbad]; [left|right]; apply Qlt_bool_false, Hbad. }
  unfold run, run_trace, range.
  replace (Z.to_nat n) with (S (Z.to_nat (n - 1))) by lia.
  simpl. unfold run_iteration. simpl. unfold ThompsonSamping.choose_arm. simpl.
  rewrite Harms. unfold full. simpl. rewrite Hcheck. reflexivity.
Qed.

Lemma ThompsonSamping_nonpositive_parameter_witness :
  run fixed_numpy 2 (ThompsonSamping.init FruitMachine 0 1) 0%nat = Raise ValueError.
Proof.
  apply (ThompsonSamping_nonpositive_parameter fixed_numpy
           (Some [3 # 10; 5 # 10; 7 # 10]%Q) 0%nat 0%nat FruitMachine 0 1 2 0%nat
           (FruitMachine_init 0%nat)).
  - lia.
  - left. discriminate.
Defined.

Lemma run_over_iteration {B : Type} `{MABAlgorithm B} (np : numpy) (its : list Z)
    (s s' : agent B) (g g' : RandomState) (arms : list Z) :
  run_over np its s g = Ok (s', g', arms) ->
  AbstractMABAlgorithm.iteration (base s')
  = match last its with
    | Some it => Some it
    | None => AbstractMABAlgorithm.iteration (base s)
    end.
Proof.
  revert s g arms. induction its as [|it its IH]; intros s g arms Hrun.
  - injection Hrun as <- <- <-. reflexivity.
  - simpl in Hrun.
    apply bind_Ok in Hrun as ([[s1 g1] arm] & Hround & Hrun).
    apply bind_Ok in Hrun as ([[s2 g2] arms2] & Hrest & [= <- <- <-]).
    apply IH in Hrest. rewrite Hrest.
    apply run_iteration_Ok in Hround
      as (g3 & reward & k & n & p & bel & _ & _ & _ & _ & _ & _ & ->).
    simpl. destruct its as [|it' its]; [reflexivity|].
    rewrite last_cons_cons. destruct (last (it' :: its)) eqn:Hlast; [reflexivity|].
    apply last_None in Hlast. discriminate.
Qed.

Lemma last_range (n : Z) : 1 <= n -> last (range n) = Some (n - 1).
Proof.
  intros Hn. unfold range.
  replace (Z.to_nat n) with (S (Z.to_nat (n - 1))) by lia.
  rewrite seq_S, map_app. simpl map at 2. rewrite last_snoc. f_equal. lia.
Qed.

(** [UCB.choose_arm] reads [self.iteration], which only [run] sets.  Called
    on an object fresh from the constructor it raises [AttributeError];
    after a [run(n)], n >= 1, that completed, the attribute is [n - 1] for
    any policy, and [UCB.choose_arm] computes its scores with [t = n]. *)
Theorem UCB_choose_arm_needs_run (np : numpy) (dist : option (list Q))
    (g0 g1 : RandomState) (problem : FruitSlotMachine.t) (initial : Q) :
  FruitSlotMachine.init np dist g0 = Ok (problem, g1) ->
  (forall g,
      UCB.choose_arm np (base (UCB.init problem initial))
        (belief (UCB.init problem initial)) g = Raise AttributeError)
  /\ (forall n g s g',
        1 <= n ->
        run np n (UCB.init problem initial) g = Ok (s, g') ->
        AbstractMABAlgorithm.iteration (base s) = Some (n - 1)
        /\ exists k,
             UCB.choose_arm np (base s) (belief s) g' = Ok (Z.of_nat k, g')
             /\ first_argmax
                  (zip_with (ucb1_score np n) (UCB.probabilities (belief s))
                     (AbstractMABAlgorithm.N_a (base s))) k).
Proof.
  intros Hinit. split; [reflexivity|].
  intros n g s g' Hn Hrun. apply run_Ok in Hrun as (arms & Hrun).
  pose proof (run_over_iteration np _ _ _ _ _ _ Hrun) as Hit.
  rewrite last_range in Hit by exact Hn.
  split; [exact Hit|].
  assert (UCB_inv initial s) as (Hwf & Hlen & _).
  { eapply (run_over_invariant np (UCB_inv initial)); [| |exact Hrun].
    - apply round_total_inv. intros it s0 g2 Hs0. apply UCB_round, Hs0.
    - eapply UCB_init_inv, Hinit. }
  destruct (UCB_choose np (base s) (belief s) g' (n - 1) Hwf Hlen Hit)
    as (k & Hchoose & Hmax).
  replace (n - 1 + 1) with n in Hmax by lia. eauto.
Qed.

Lemma UCB_choose_arm_needs_run_witness :
  exists s g',
    run fixed_numpy 3 (UCB.init FruitMachine 1) 0%nat = Ok (s, g')
    /\ AbstractMABAlgorithm.iteration (base s) = Some (3 - 1).
Proof.
  eexists _, _. split; [vm_compute; reflexivity|].
  refine (proj1 (proj2 (UCB_choose_arm_needs_run fixed_numpy
                          (Some [3 # 10; 5 # 10; 7 # 10]%Q) 0%nat 0%nat FruitMachine 1
                          (FruitMachine_init 0%nat)) 3 0%nat _ _ _ _)).
  - lia.
  - vm_compute. reflexivity.
Defined.

Lemma first_argmax_constant (l : list Q) (k : nat) (v : Q) :
  (forall i x, l !! i = Some x -> x = v) -> first_argmax l k -> k = 0%nat.
Proof.
  intros Hall (w & Hw & _ & Hbefore). destruct k as [|k]; [reflexivity|].
  destruct (lookup_lt_is_Some_2 l 0) as [x Hx].
  { apply lookup_lt_Some in Hw. lia. }
  specialize (Hbefore 0%nat x ltac:(lia) Hx).
  rewrite (Hall _ _ Hx), (Hall _ _ Hw) in Hbefore.
  exfalso. exact (Qlt_irrefl _ Hbefore).
Qed.

Lemma run_trace_first_round {B : Type} `{MABAlgorithm B} (np : numpy) (n : Z)
    (s0 s : agent B) (g g' : RandomState) (arms : list Z) :
  1 <= n ->
  run_trace np n s0 g = Ok (s, g', arms) ->
  exists arm g1,
    head arms = Some arm
    /\ choose_arm np (AbstractMABAlgorithm.set_iteration 0 (base s0)) (belief s0) g
       = Ok (arm, g1).
Proof.
  intros Hn. unfold run_trace, range.
  replace (Z.to_nat n) with (S (Z.to_nat (n - 1))) by lia. simpl. intros Hrun.
  apply bind_Ok in Hrun as ([[s1 g1] arm] & Hround & Hrun).
  apply bind_Ok in Hrun as ([[s2 g2] arms2] & _ & [= <- <- <-]).
  apply run_iteration_Ok in Hround
    as (g3 & reward & k & m & p & bel & Hc & _).
  exists arm, g3. auto.
Qed.

(** Ties go to the lowest index.  On a machine built by the constructor and
    a fresh object all arms score the same in the first round, so whenever
    [run(n)], n >= 1, completes, UCB1 has pulled arm 0 first, and so has
    Bayesian UCB with positive initial parameters. *)
Theorem first_round_picks_arm_0 (np : numpy) (dist : option (list Q))
    (g0 g1 : RandomState) (problem : FruitSlotMachine.t) (n : Z) (g : RandomState) :
  FruitSlotMachine.init np dist g0 = Ok (problem, g1) ->
  1 <= n ->
  (forall initial s g' arms,
      run_trace np n (UCB.init problem initial) g = Ok (s, g', arms) ->
      head arms = Some 0)
  /\ (forall sigma initial_a initial_b s g' arms,
        (0 < initial_a)%Q -> (0 < initial_b)%Q ->
        run_trace np n (BayesianUCB.init problem sigma initial_a initial_b) g
        = Ok (s, g', arms) ->
        head arms = Some 0).
Proof.
  intros Hinit Hn. split.
  - intros initial s g' arms Hrun.
    apply run_trace_first_round in Hrun as (arm & g2 & -> & Hc); [|exact Hn].
    destruct (UCB_init_inv np dist g0 g1 problem initial Hinit) as (Hwf & Hlen & _).
    destruct (UCB_choose np
                (AbstractMABAlgorithm.set_iteration 0 (base (UCB.init problem initial)))
                (belief (UCB.init problem initial)) g 0 Hwf Hlen eq_refl)
      as (k & Hchoose & Hmax).
    unfold choose_arm in Hc. simpl in Hc. simpl in Hchoose.
    rewrite Hchoose in Hc. injection Hc as <- _.
    apply first_argmax_constant with (v := ucb1_score np (0 + 1) initial 0) in Hmax.
    + rewrite Hmax. reflexivity.
    + intros i x Hx. apply lookup_zip_with_Some in Hx as (p & c & -> & Hp & Hc0).
      simpl in Hp, Hc0. unfold full in Hp.
      apply lookup_replicate in Hp as [-> _].
      apply lookup_replicate in Hc0 as [-> _]. reflexivity.
  - intros sigma initial_a initial_b s g' arms Ha Hb Hrun.
    apply run_trace_first_round in Hrun as (arm & g2 & -> & Hc); [|exact Hn].
    apply FruitSlotMachine_init_Ok in Hinit as (Harms & _).
    destruct (BayesianUCB_choose_arm_score np
                (AbstractMABAlgorithm.set_iteration 0
                   (base (BayesianUCB.init problem sigma initial_a initial_b)))
                (belief (BayesianUCB.init problem sigma initial_a initial_b)) g)
      as (k & Hchoose & Hmax).
    + simpl. unfold full. rewrite !length_replicate. reflexivity.
    + simpl. rewrite Harms. discriminate.
    + apply positive_replicate, Ha.
    + apply positive_replicate, Hb.
    + unfold choose_arm in Hc. simpl in Hc. simpl in Hchoose.
      rewrite Hchoose in Hc. injection Hc as <- _.
      apply first_argmax_constant
        with (v := bayes_ucb_score np sigma initial_a initial_b) in Hmax.
      * rewrite Hmax. reflexivity.
      * intros i x Hx. apply lookup_zip_with_Some in Hx as (p & c & -> & Hp & Hc0).
        simpl in Hp, Hc0. unfold full in Hp, Hc0.
        apply lookup_replicate in Hp as [-> _].
        apply lookup_replicate in Hc0 as [-> _]. reflexivity.
Qed.

Lemma first_round_picks_arm_0_witness :
  exists s g' arms,
    run_trace fixed_numpy 4 (BayesianUCB.init FruitMachine 3 1 1) 0%nat
    = Ok (s, g', arms)
    /\ head arms = Some 0.
Proof.
  eexists _, _, _. split; [vm_compute; reflexivity|].
  refine (proj2 (first_round_picks_arm_0 fixed_numpy (Some [3 # 10; 5 # 10; 7 # 10]%Q)
                   0%nat 0%nat FruitMachine 4 0%nat (FruitMachine_init 0%nat) _)
            3%Q 1%Q 1%Q _ _ _ _ _ _).
  - lia.
  - reflexivity.
  - reflexivity.
  - vm_compute. reflexivity.
Defined.
